(** * coinGeckoMarketCap: scheduling and reconciliation engine

    A shallow embedding of the Go sources [util.go], [scheduler.go],
    [worker.go], the CoinGecko client and the ClickHouse helpers, and the
    properties of the specification proved over it.

    Representation choices, fixed once for the whole development:

    - a [time.Time] is the number of milliseconds since the Unix epoch, in
      UTC (every value the program handles is built in UTC; the only
      sub-day values are API sample timestamps, given in milliseconds, and
      [time.Now()], which is truncated before use);
    - the text of a calendar day ("2006-01-02", produced by [Format] and by
      ClickHouse's [toString(_date)]) is represented by the day's number
      since the epoch: for four-digit years the text orders
      lexicographically as the days order, so [sort.Strings] and [>=] on
      these keys are the integer ones;
    - Go's [int] is [Z]: the counters below are bounded by the number of
      results drained, far from the 64-bit range;
    - a Go [error] is its message, [nil] is [None]. *)

From Stdlib Require Import ZArith Lia Ascii.
From stdpp Require Import gmap strings list sorting.

Local Open Scope Z_scope.

(** ** util.go: dates *)

Definition Time := Z.
Definition DayKey := Z.

Definition msPerDay : Z := 86400000.

(** [time.Time{}], January 1 of year 1. *)
Definition zeroTime : Time := -62135596800000.

Definition Before (a b : Time) : bool := a <? b.
Definition After (a b : Time) : bool := b <? a.
Definition Equal (a b : Time) : bool := a =? b.

(** [t.AddDate(0, 0, k)] on a UTC time. *)
Definition AddDays (t : Time) (k : Z) : Time := t + k * msPerDay.

(** [t.Format("2006-01-02")] on a UTC time. *)
Definition dayKey (t : Time) : DayKey := t / msPerDay.

Definition dateOnlyUTC (t : Time) : Time := msPerDay * (t / msPerDay).

Definition yesterdayUTC (now : Time) : Time := dateOnlyUTC (AddDays now (-1)).

Definition formatDate (t : Time) : DayKey := dayKey (dateOnlyUTC t).

(** The loop of [daysInclusive] steps one day at a time from [f] to [t]; it
    is unrolled at most [tripCount f t] times, the number of days from [f]
    to [t], and always leaves through its guard ([daysLoop_enough]). *)
Fixpoint daysLoop (n : nat) (d t : Time) : list Time :=
  match n with
  | O => []
  | S n' => if After d t then [] else d :: daysLoop n' (AddDays d 1) t
  end.

Definition tripCount (f t : Time) : nat := Z.to_nat ((t - f) / msPerDay + 1).

Definition daysInclusive (from to : Time) : list Time :=
  let f := dateOnlyUTC from in
  let t := dateOnlyUTC to in
  if Before t f then [] else daysLoop (tripCount f t) f t.

(** ** scheduler.go: tasks *)

Definition TaskPhase := string.
Definition PhaseBackfill : TaskPhase := "backfill".
Definition PhaseIncremental : TaskPhase := "incremental".

Record Task := mkTask {
  tCoinID : string;
  tSymbol : string;
  tFrom : Time;
  tTo : Time;
  tRetry : Z;
  tPhase : TaskPhase
}.

(** [Task{}] *)
Definition zeroTask : Task := mkTask "" "" zeroTime zeroTime 0 "".

Record Coin := mkCoin {
  cID : string;
  cSymbol : string;
  cName : string
}.

(** The fields of [Config] the engine reads. [CoinIDsFilter] is [None] for
    the nil map. *)
Record Config := mkConfig {
  VsCurrency : string;
  Interval : string;
  CoinIDsFilter : option (gmap string bool);
  CHTable : string;
  StartDate : Time;
  EmptyStopBlocks : Z;
  MaxSearchBlocks : Z;
  MaxRetriesPerBlock : Z
}.

Definition makeTaskFixedWindow (coinID symbol : string) (end_ startLimit : Time)
  : Task * bool :=
  let end_ := dateOnlyUTC end_ in
  if Before end_ startLimit then (zeroTask, false)
  else
    let start := AddDays end_ (-99) in
    let start := if Before start startLimit then startLimit else start in
    (mkTask coinID symbol start end_ 0 PhaseBackfill, true).

(** [cfg.CoinIDsFilter != nil && !cfg.CoinIDsFilter[id]] *)
Definition filteredOut (cfg : Config) (id : string) : bool :=
  match CoinIDsFilter cfg with
  | None => false
  | Some f => negb (default false (f !! id))
  end.

(** [strings.TrimSpace], [strings.ToUpper] and [strings.ToLower] belong to
    Go's library; the engine only needs them as functions on strings. *)
Class GoStrings := {
  TrimSpace : string → string;
  ToUpper : string → string;
  ToLower : string → string
}.

(** The inner loop of [BuildIncrementalTasks]: windows from [cur] up to
    [yday]. Each turn moves [cur] at least one day forward, so the number of
    days from [cur] to [yday] bounds the turns ([windowsLoop_enough]). *)
Fixpoint windowsLoop (n : nat) (id sym : string) (cur yday : Time) : list Task :=
  match n with
  | O => []
  | S n' =>
      if After cur yday then []
      else
        let end_ := AddDays cur 99 in
        let end_ := if After end_ yday then yday else end_ in
        mkTask id sym cur end_ 0 PhaseIncremental
          :: windowsLoop n' id sym (AddDays end_ 1) yday
  end.

Section Incremental.
Context `{GoStrings}.

(** One turn of the loop over [activeCoins]: the tasks it appends. *)
Definition tasksForCoin (cfg : Config) (yday : Time)
    (maxDates : gmap string Time) (c : Coin) : list Task :=
  if filteredOut cfg (cID c) then []
  else
    let id := TrimSpace (cID c) in
    let sym := ToUpper (TrimSpace (cSymbol c)) in
    if bool_decide (id = "") || bool_decide (sym = "") then []
    else
      match maxDates !! id with
      | None => []
      | Some maxD =>
          let start := dateOnlyUTC (AddDays maxD 1) in
          if After start yday then []
          else windowsLoop (tripCount start yday) id sym start yday
      end.

Definition BuildIncrementalTasks (cfg : Config) (now : Time)
    (activeCoins : list Coin) (maxDates : gmap string Time) : list Task :=
  let yday := yesterdayUTC now in
  fold_left (λ tasks c, tasks ++ tasksForCoin cfg yday maxDates c) activeCoins [].
End Incremental.

(** ** scheduler.go: results and per-coin state *)

Record TaskResult := mkTaskResult {
  rTask : Task;
  rInserted : Z;
  rAPIDays : Z;
  rEmpty : bool;
  rHTTPStatus : Z;
  rErr : string;
  rMissingDates : list DayKey;
  rActiveNow : bool
}.

Record CoinState := mkCoinState {
  SearchEnd : Time;
  SearchEmpty : Z;
  SeenData : bool;
  ConsecutiveEmpty : Z;
  Done : bool
}.

(** ** coingecko.go: the ranged fetch *)

(** [float64] values are only stored, compared to nothing and converted
    once ([int64(row[0])]); the engine is independent of their
    representation. *)
Class Float64 := {
  float : Type;
  float_zero : float;
  float_to_int64 : float → Z
}.

Definition isRetryableStatus (code : Z) : bool :=
  if code =? 0 then true
  else
    if bool_decide (code ∈ [408; 425; 429; 500; 502; 503; 504]) then true
    else false.

(** [truncate(b, n)] *)
Definition truncate (b : string) (n : nat) : string :=
  if (String.length b <=? n)%nat then b
  else String.append (String.substring 0 n b) "...".

Definition wrap64 (x : Z) : Z := (x + 2 ^ 63) mod 2 ^ 64 - 2 ^ 63.

(** [backoffSleep(attempt)], in nanoseconds; [1<<attempt] and the product
    are computed in [int64]. *)
Definition backoffSleep (attempt : Z) : Z :=
  let second := 1000000000 in
  let d := wrap64 (second * wrap64 (if attempt <? 64 then Z.shiftl 1 attempt else 0)) in
  if 30 * second <? d then 30 * second else d.

Section Worker.
Context `{Float64}.

Record MarketChartRangeResp := mkResp {
  Prices : list (list float);
  MarketCaps : list (list float);
  TotalVolumes : list (list float)
}.

Definition emptyResp : MarketChartRangeResp := mkResp [] [] [].

(** ** clickhouse.go: rows *)

Record DailyPoint := mkDailyPoint {
  pID : string;
  pSymbol : string;
  pVsCurrency : string;
  pTimestamp : Time;
  pPrice : float;
  pMarketCap : float;
  pVolume : float
}.

(** ** The collaborators

    The store, the remote API and the clock are outside the program. A
    [World] fixes what each of their calls answers during one run of
    [handleTask]; every call made is appended to a log. [getExistingDays]
    is called from three places, told apart by a [QuerySite]; the fetch is
    called once per turn of the retry loop, told apart by the attempt
    number. *)

Inductive QuerySite :=
| PreCheck   (* worker.go line 41 *)
| Fallback   (* worker.go line 135 *)
| Verify.    (* worker.go line 167 *)

#[export] Instance QuerySite_eq_dec : EqDecision QuerySite.
Proof. solve_decision. Defined.

(** What the driver does for the query of [getExistingDays]. *)
Inductive QueryOutcome :=
| QueryFailed (e : string)
| ScanFailed (e : string)
| RowsRead (days : list DayKey) (rowsErr : option string).

(** What [getJSONRaw] returns: status, body, error. *)
Record HTTPOutcome := mkHTTP {
  hStatus : Z;
  hBody : string;
  hErr : option string
}.

Record World := mkWorld {
  wNow : Time;
  wQuery : QuerySite → string → string → Time → Time → QueryOutcome;
  wGet : Z → string → string → DayKey → DayKey → string → HTTPOutcome;
  wUnmarshal : string → MarketChartRangeResp + string;
  wExec : string → list DailyPoint → option string
}.

Inductive Call :=
| CallQuery (site : QuerySite) (table coin : string) (from to : Time)
| CallGet (attempt : Z) (id vs : string) (from to : DayKey) (interval : string)
| CallExec (table : string) (pts : list DailyPoint)
| CallSleep (d : Z)
| CallNow.

Definition M (A : Type) : Type := World → A * list Call.

#[export] Instance M_ret : MRet M := λ A a _, (a, []).
#[export] Instance M_bind : MBind M := λ A B f m w,
  let '(a, l1) := m w in
  let '(b, l2) := f a w in
  (b, l1 ++ l2).

Definition call {A : Type} (c : Call) (answer : World → A) : M A :=
  λ w, (answer w, [c]).

(** [getExistingDays]: the map is nil ([None]) exactly when the query or
    a scan failed. *)
Definition getExistingDays (site : QuerySite) (table coinID : string)
    (from to : Time) : M (option (gset DayKey) * option string) :=
  o ← call (CallQuery site table coinID from to)
           (λ w, wQuery w site table coinID from to);
  mret (match o with
        | QueryFailed e => (None, Some e)
        | ScanFailed e => (None, Some e)
        | RowsRead days rowsErr => (Some (list_to_set days), rowsErr)
        end).

(** [insertDailyPoints]: one statement for the whole batch. *)
Definition insertDailyPoints (table : string) (pts : list DailyPoint)
    : M (Z * option string) :=
  if bool_decide (length pts = 0%nat) then mret (0, None)
  else
    err ← call (CallExec table pts) (λ w, wExec w table pts);
    mret (match err with
          | Some e => (0, Some e)
          | None => (Z.of_nat (length pts), None)
          end).

Record FetchResult := mkFetch {
  fResp : MarketChartRangeResp;
  fStatus : Z;
  fBody : string;
  fErr : option string
}.

(** [json.Unmarshal(body, &out)] *)
Definition unmarshal (body : string) : M (MarketChartRangeResp + string) :=
  λ w, (wUnmarshal w body, []).

Definition MarketChartRange (attempt : Z) (id vs : string)
    (fromDate toDate : DayKey) (interval : string) : M FetchResult :=
  r ← call (CallGet attempt id vs fromDate toDate interval)
           (λ w, wGet w attempt id vs fromDate toDate interval);
  match hErr r with
  | Some e => mret (mkFetch emptyResp (hStatus r) (hBody r) (Some e))
  | None =>
      u ← unmarshal (hBody r);
      mret (match u with
            | inr e => mkFetch emptyResp (hStatus r) (hBody r) (Some e)
            | inl out => mkFetch out (hStatus r) (hBody r) None
            end)
  end.

Definition sleep (d : Z) : M unit := call (CallSleep d) (λ _, tt).

Definition timeNow : M Time := call CallNow wNow.

(** ** worker.go *)

Record dailyAgg := mkAgg {
  a_ts : Time;
  a_p : float;
  a_mc : float;
  a_v : float
}.

Definition setMetric (kind : string) (val : float) (a : dailyAgg) : dailyAgg :=
  if bool_decide (kind = "p") then mkAgg (a_ts a) val (a_mc a) (a_v a)
  else if bool_decide (kind = "mc") then mkAgg (a_ts a) (a_p a) val (a_v a)
  else if bool_decide (kind = "v") then mkAgg (a_ts a) (a_p a) (a_mc a) val
  else a.

(** The body of the closure [apply] for one row. *)
Definition applyRow (kind : string) (byDay : gmap DayKey dailyAgg)
    (row : list float) : gmap DayKey dailyAgg :=
  match row with
  | r0 :: val :: _ =>
      let ms := float_to_int64 r0 in
      let ts : Time := ms in
      let day := dayKey ts in
      let a := match byDay !! day with
               | Some a => a
               | None => mkAgg ts float_zero float_zero float_zero
               end in
      let a := if After ts (a_ts a) then mkAgg ts (a_p a) (a_mc a) (a_v a) else a in
      <[day := setMetric kind val a]> byDay
  | _ => byDay
  end.

Definition apply (arr : list (list float)) (kind : string)
    (byDay : gmap DayKey dailyAgg) : gmap DayKey dailyAgg :=
  fold_left (applyRow kind) arr byDay.

Definition aggregate (resp : MarketChartRangeResp) : gmap DayKey dailyAgg :=
  apply (TotalVolumes resp) "v"
    (apply (MarketCaps resp) "mc"
       (apply (Prices resp) "p" ∅)).

(** [sort.Strings] on day keys. *)
Definition sortDays (l : list DayKey) : list DayKey := merge_sort Z.le l.

(** [len(m)] and [_, ok := m[d]] on a map that may be nil. *)
Definition lenDays (m : option (gset DayKey)) : Z :=
  match m with
  | None => 0
  | Some s => Z.of_nat (size s)
  end.

Definition hasDay (m : option (gset DayKey)) (d : DayKey) : bool :=
  match m with
  | None => false
  | Some s => bool_decide (d ∈ s)
  end.

(** The retry loop, over the attempts [0 .. MaxRetriesPerBlock]; [last]
    holds [resp, status, lastBody, lastErr]. *)
Fixpoint fetchLoop (cfg : Config) (t : Task) (fromStr toStr : DayKey)
    (attempts : list Z) (last : FetchResult) : M FetchResult :=
  match attempts with
  | [] => mret last
  | attempt :: rest =>
      r ← MarketChartRange attempt (tCoinID t) (VsCurrency cfg) fromStr toStr
            (Interval cfg);
      match fErr r with
      | None => mret r
      | Some _ =>
          if negb (isRetryableStatus (fStatus r)) then mret r
          else
            _ ← sleep (backoffSleep attempt);
            fetchLoop cfg t fromStr toStr rest r
      end
  end.

Definition toInsertOf (cfg : Config) (t : Task) (byDay : gmap DayKey dailyAgg)
    (existing : option (gset DayKey)) (apiDays : list DayKey) : list DailyPoint :=
  omap (λ day,
          if hasDay existing day then None
          else
            a ← byDay !! day;
            Some (mkDailyPoint (tCoinID t) (tSymbol t) (VsCurrency cfg)
                    (a_ts a) (a_p a) (a_mc a) (a_v a)))
       apiDays.

Definition missingOf (after : option (gset DayKey)) (apiDays : list DayKey)
    : list DayKey :=
  sortDays (List.filter (λ d, negb (hasDay after d)) apiDays).

Definition activeNowOf (t : Task) (yday : Time) (apiDays : list DayKey) : bool :=
  if Equal (tTo t) yday || After (tTo t) (AddDays yday (-2)) then
    let maxDay := default 0 (last apiDays) in
    if formatDate (AddDays yday (-2)) <=? maxDay then true else false
  else false.

Definition handleTask (cfg : Config) (t : Task) : M TaskResult :=
  let fromStr := formatDate (tFrom t) in
  let toStr := formatDate (tTo t) in
  let allDays := daysInclusive (tFrom t) (tTo t) in
  '(existing, err) ← getExistingDays PreCheck (CHTable cfg) (tCoinID t) (tFrom t) (tTo t);
  if bool_decide (err = None) && (tRetry t =? 0)
     && (lenDays existing =? Z.of_nat (length allDays))
     && (0 <? Z.of_nat (length allDays))
  then mret (mkTaskResult t 0 0 false 200 "" [] false)
  else
    r ← fetchLoop cfg t fromStr toStr (seqZ 0 (MaxRetriesPerBlock cfg + 1))
          (mkFetch emptyResp 0 "" None);
    match fErr r with
    | Some lastErr =>
        mret (mkTaskResult t 0 0 true (fStatus r)
                (String.append lastErr (String.append "; body=" (truncate (fBody r) 300)))
                [] false)
    | None =>
        let byDay := aggregate (fResp r) in
        if bool_decide (size byDay = 0%nat)
        then mret (mkTaskResult t 0 0 true 200 "" [] false)
        else
          let apiDays := sortDays (elements (dom byDay)) in
          existing ← match existing with
                     | None =>
                         '(e, _) ← getExistingDays Fallback (CHTable cfg) (tCoinID t)
                                     (tFrom t) (tTo t);
                         mret e
                     | Some _ => mret existing
                     end;
          let toInsert := toInsertOf cfg t byDay existing apiDays in
          '(inserted, insErr) ← insertDailyPoints (CHTable cfg) toInsert;
          match insErr with
          | Some e =>
              mret (mkTaskResult t 0 (Z.of_nat (length apiDays)) false 200 e [] false)
          | None =>
              '(after, err2) ← getExistingDays Verify (CHTable cfg) (tCoinID t)
                                 (tFrom t) (tTo t);
              let missing := match err2 with
                             | None => missingOf after apiDays
                             | Some _ => []
                             end in
              now ← timeNow;
              let yday := yesterdayUTC now in
              let activeNow := activeNowOf t yday apiDays in
              mret (mkTaskResult t inserted (Z.of_nat (length apiDays)) false 200 ""
                      missing activeNow)
          end
    end.
End Worker.

(** ** scheduler.go: the backfill scheduler *)

(** [rt := res.Task; rt.Retry++] *)
Definition retryCopy (t : Task) : Task :=
  mkTask (tCoinID t) (tSymbol t) (tFrom t) (tTo t) (tRetry t + 1) (tPhase t).

(** [len(res.MissingDates) > 0 && res.Task.Retry < cfg.MaxRetriesPerBlock] *)
Definition needsRetry (cfg : Config) (res : TaskResult) : bool :=
  (0 <? Z.of_nat (length (rMissingDates res)))
  && (tRetry (rTask res) <? MaxRetriesPerBlock cfg).

(** The variables of one round of [RunBackfill] that decide its control
    flow. The sums kept for the log lines are left out. *)
Record Backfill := mkBackfill {
  pending : list Task;
  inFlight : Z;
  doneTasks : Z;
  states : gmap string CoinState;
  active : gmap string Coin
}.

(** [blockHasData] *)
Definition blockHasData (res : TaskResult) : bool :=
  bool_decide (rErr res = "") && negb (rEmpty res) && (0 <? rAPIDays res).

(** Lines 226-265: the counters of the coin after a terminal result. *)
Definition countResult (res : TaskResult) (st : CoinState) : CoinState :=
  if blockHasData res then
    mkCoinState (SearchEnd st) 0 true 0 (Done st)
  else if SeenData st then
    mkCoinState (SearchEnd st) (SearchEmpty st) (SeenData st)
      (ConsecutiveEmpty st + 1) (Done st)
  else
    mkCoinState (dateOnlyUTC (AddDays (tFrom (rTask res)) (-1)))
      (SearchEmpty st + 1) (SeenData st) (ConsecutiveEmpty st) (Done st).

Definition setDone (st : CoinState) : CoinState :=
  mkCoinState (SearchEnd st) (SearchEmpty st) (SeenData st) (ConsecutiveEmpty st) true.

(** Lines 267-283: the two completion tests. *)
Definition checkDone (cfg : Config) (st : CoinState) : CoinState :=
  let st := if SeenData st && (EmptyStopBlocks cfg <=? ConsecutiveEmpty st)
            then setDone st else st in
  if negb (SeenData st) && (MaxSearchBlocks cfg <=? SearchEmpty st)
  then setDone st else st.

Section Scheduler.
Context `{GoStrings}.

(** The branch [case res := <-results] of the drain loop. *)
Definition onResultBackfill (cfg : Config) (s : Backfill) (res : TaskResult)
    : Backfill :=
  let inFlight' := inFlight s - 1 in
  let doneTasks' := doneTasks s + 1 in
  let id := tCoinID (rTask res) in
  match states s !! id with
  | None => mkBackfill (pending s) inFlight' doneTasks' (states s) (active s)
  | Some st =>
      if Done st then
        mkBackfill (pending s) inFlight' doneTasks' (states s) (active s)
      else if needsRetry cfg res then
        mkBackfill (retryCopy (rTask res) :: pending s) inFlight' doneTasks'
          (states s) (active s)
      else
        let active' :=
          if rActiveNow res
          then <[id := mkCoin id (ToLower (tSymbol (rTask res))) ""]> (active s)
          else active s in
        let st := checkDone cfg (countResult res st) in
        mkBackfill (pending s) inFlight' doneTasks' (<[id := st]> (states s)) active'
  end.

(** The branch [default] of the drain loop when the send goes through:
    the head of [pending] is handed to a worker. With nothing pending the
    channel is nil and the loop only sleeps. *)
Definition dispatchBackfill (s : Backfill) : option (Task * Backfill) :=
  match pending s with
  | [] => None
  | next :: rest =>
      Some (next, mkBackfill rest (inFlight s + 1) (doneTasks s) (states s) (active s))
  end.

(** Lines 75-87: the coins that get a state, and the symbol table. *)
Definition initCoin (cfg : Config) (yday : Time)
    (acc : gmap string string * gmap string CoinState) (c : Coin)
    : gmap string string * gmap string CoinState :=
  let id := TrimSpace (cID c) in
  let sym := ToUpper (TrimSpace (cSymbol c)) in
  if bool_decide (id = "") || bool_decide (sym = "") then acc
  else
    let syms := <[id := sym]> acc.1 in
    if filteredOut cfg id then (syms, acc.2)
    else (syms, <[id := mkCoinState yday 0 false 0 false]> acc.2).

Definition initStates (cfg : Config) (yday : Time) (coins : list Coin)
    : gmap string string * gmap string CoinState :=
  fold_left (initCoin cfg yday) coins (∅, ∅).

(** Lines 120-131: where the window of this round ends. [minDate] is what
    [getMinDate] returned: the day, whether there is one, the error. *)
Definition windowEnd (round : Z) (yday : Time)
    (minDate : Time * bool * option string) (st : CoinState) : Time :=
  if round =? 0 then yday
  else
    let '(minD, ok, err) := minDate in
    if bool_decide (err = None) && ok then dateOnlyUTC (AddDays minD (-1))
    else SearchEnd st.

(** Lines 114-147, one coin: the task list and the states after it. The
    states are visited in the order of [map_to_list]; Go leaves the order
    of a map range unspecified. *)
Definition scheduleCoin (cfg : Config) (round : Z) (yday : Time)
    (getMinDate : string → Time * bool * option string)
    (coinSymbolByID : gmap string string)
    (acc : list Task * Z * gmap string CoinState) (entry : string * CoinState)
    : list Task * Z * gmap string CoinState :=
  let '(pend, doneCount, sts) := acc in
  let '(id, st) := entry in
  if Done st then (pend, doneCount + 1, sts)
  else
    let end_ := windowEnd round yday (getMinDate id) st in
    let sym := default "" (coinSymbolByID !! id) in
    let sym := if bool_decide (sym = "") then ToUpper id else sym in
    let '(t, ok) := makeTaskFixedWindow id sym end_ (StartDate cfg) in
    if negb ok then (pend, doneCount + 1, <[id := setDone st]> sts)
    else (pend ++ [t], doneCount, sts).

Definition scheduleRound (cfg : Config) (round : Z) (yday : Time)
    (getMinDate : string → Time * bool * option string)
    (coinSymbolByID : gmap string string) (sts : gmap string CoinState)
    : list Task * Z * gmap string CoinState :=
  fold_left (scheduleCoin cfg round yday getMinDate coinSymbolByID)
    (map_to_list sts) ([], 0, sts).

(** The drain loop of a round together with the worker pool: [fl] holds
    the tasks handed to workers whose results have not been drained yet.
    A worker answers a task with a result for that same task
    ([handleTask_task]); results come back in any order. *)
Inductive backfillStep (cfg : Config)
    : Backfill * list Task → Backfill * list Task → Prop :=
| backfill_result s fl1 fl2 res :
    backfillStep cfg (s, fl1 ++ rTask res :: fl2)
      (onResultBackfill cfg s res, fl1 ++ fl2)
| backfill_send s fl next s' :
    dispatchBackfill s = Some (next, s') →
    backfillStep cfg (s, fl) (s', fl ++ [next]).

(** ** main.go: the incremental scheduler *)

Record Incremental := mkIncremental {
  ipending : list Task;
  iinFlight : Z
}.

Definition onResultIncremental (cfg : Config) (s : Incremental)
    (res : TaskResult) : Incremental :=
  let inFlight' := iinFlight s - 1 in
  if negb (bool_decide (rErr res = "")) then mkIncremental (ipending s) inFlight'
  else if needsRetry cfg res then
    mkIncremental (retryCopy (rTask res) :: ipending s) inFlight'
  else mkIncremental (ipending s) inFlight'.

Definition dispatchIncremental (s : Incremental) : option (Task * Incremental) :=
  match ipending s with
  | [] => None
  | next :: rest => Some (next, mkIncremental rest (iinFlight s + 1))
  end.

(** The drain loop of [runIncrementalOnce] with the worker pool, as for
    the backfill. *)
Inductive incrementalStep (cfg : Config)
    : Incremental * list Task → Incremental * list Task → Prop :=
| incremental_result s fl1 fl2 res :
    incrementalStep cfg (s, fl1 ++ rTask res :: fl2)
      (onResultIncremental cfg s res, fl1 ++ fl2)
| incremental_send s fl next s' :
    dispatchIncremental s = Some (next, s') →
    incrementalStep cfg (s, fl) (s', fl ++ [next]).
End Scheduler.

(** ** Predicates of the specification *)

(** The invariant of the data model on a task. *)
Definition taskOK (cfg : Config) (t : Task) : Prop :=
  tFrom t ≤ tTo t
  ∧ tTo t - tFrom t ≤ 100 * msPerDay
  ∧ tRetry t ≤ MaxRetriesPerBlock cfg.

(** [covers a b ws]: the windows [ws], in order, start at [a], each starts
    the day after the one before it ends, and the last ends at [b]. *)
Inductive covers : Time → Time → list Task → Prop :=
| covers_last a b w :
    tFrom w = a → tTo w = b → a ≤ b → covers a b [w]
| covers_more a b w ws :
    tFrom w = a → a ≤ tTo w → tTo w < b →
    covers (AddDays (tTo w) 1) b ws → covers a b (w :: ws).

(** The number of calendar days of a window, both ends included. *)
Definition windowDays (t : Task) : Z := dayKey (tTo t) - dayKey (tFrom t) + 1.

(** The completion rule of the backfill state machine. *)
Definition completion (cfg : Config) (st : CoinState) : Prop :=
  (SeenData st = true ∧ EmptyStopBlocks cfg ≤ ConsecutiveEmpty st)
  ∨ (SeenData st = false ∧ MaxSearchBlocks cfg ≤ SearchEmpty st).

Section Eligible.
Context `{GoStrings}.

(** The guards of the loops over coins: the allow-list and the blank
    identifier or symbol. *)
Definition eligible (cfg : Config) (c : Coin) : bool :=
  negb (filteredOut cfg (cID c))
  && negb (bool_decide (TrimSpace (cID c) = ""))
  && negb (bool_decide (ToUpper (TrimSpace (cSymbol c)) = "")).
End Eligible.

(** ** A round of the backfill, from its start *)

(** Every task that waits or is with a worker belongs to a coin that has a
    state and is not done, and no coin has two such tasks. *)
Definition roundInv (x : Backfill * list Task) : Prop :=
  NoDup (tCoinID <$> (pending x.1 ++ x.2))
  ∧ Forall (λ t, ∃ st, states x.1 !! tCoinID t = Some st ∧ Done st = false)
      (pending x.1 ++ x.2).

(** What the scheduling loop maintains while it walks the entries [l] still
    to visit: the tasks made so far are for distinct coins, none of them
    still to visit, each with a live state; the entries to visit are
    untouched. *)
Definition schedInv (acc : list Task * Z * gmap string CoinState)
    (l : list (string * CoinState)) : Prop :=
  NoDup (tCoinID <$> acc.1.1)
  ∧ Forall (λ t, tCoinID t ∉ l.*1) acc.1.1
  ∧ Forall (λ t, ∃ st, acc.2 !! tCoinID t = Some st ∧ Done st = false) acc.1.1
  ∧ Forall (λ e, acc.2 !! e.1 = Some e.2) l.

Section Rounds.
Context `{GoStrings}.

(** The drain loop is entered with the tasks of [scheduleRound] pending
    and nothing in flight. *)
Definition roundStart (cfg : Config) (round : Z) (yday : Time)
    (getMinDate : string → Time * bool * option string)
    (coinSymbolByID : gmap string string) (sts : gmap string CoinState)
    (act : gmap string Coin) : Backfill * list Task :=
  let '(pend, _, sts') := scheduleRound cfg round yday getMinDate coinSymbolByID sts in
  (mkBackfill pend 0 0 sts' act, []).

(** The states of the drain loop and the pool that a round can reach. *)
Definition roundReach (cfg : Config) (round : Z) (yday : Time)
    (getMinDate : string → Time * bool * option string)
    (coinSymbolByID : gmap string string) (sts : gmap string CoinState)
    (act : gmap string Coin) (x : Backfill * list Task) : Prop :=
  rtc (backfillStep cfg)
    (roundStart cfg round yday getMinDate coinSymbolByID sts act) x.

(** An incremental pass, from the tasks of [BuildIncrementalTasks]. *)
Definition passReach (cfg : Config) (now : Time) (activeCoins : list Coin)
    (maxDates : gmap string Time) (x : Incremental * list Task) : Prop :=
  rtc (incrementalStep cfg)
    (mkIncremental (BuildIncrementalTasks cfg now activeCoins maxDates) 0, []) x.
End Rounds.

(** ** Observations on a run of [handleTask] *)

Section Observations.
Context `{Float64}.

(** What the fetch of attempt [a] answers for the window of [t]. *)
Definition fetchAt (w : World) (cfg : Config) (t : Task) (a : Z) : FetchResult :=
  (MarketChartRange a (tCoinID t) (VsCurrency cfg) (formatDate (tFrom t))
     (formatDate (tTo t)) (Interval cfg) w).1.

(** What [getExistingDays] returns at a call site for the window of [t]. *)
Definition existingAt (w : World) (cfg : Config) (t : Task) (site : QuerySite)
    : option (gset DayKey) * option string :=
  (getExistingDays site (CHTable cfg) (tCoinID t) (tFrom t) (tTo t) w).1.

(** The attempts of the fetch found in a log, in order. *)
Definition attemptsOf (log : list Call) : list Z :=
  omap (λ c, match c with CallGet a _ _ _ _ _ => Some a | _ => None end) log.

(** The batches handed to the store by the log. *)
Definition batchesOf (log : list Call) : list (list DailyPoint) :=
  omap (λ c, match c with CallExec _ pts => Some pts | _ => None end) log.

(** The call sites of [getExistingDays] found in a log. *)
Definition sitesOf (log : list Call) : list QuerySite :=
  omap (λ c, match c with CallQuery s _ _ _ _ => Some s | _ => None end) log.

Definition isFetchCall (c : Call) : Prop :=
  match c with
  | CallGet _ _ _ _ _ _ | CallSleep _ => True
  | _ => False
  end.

(** The values of the variables of [handleTask] in a world: the test of
    the fast path, the outcome of the retry loop, [byDay], [apiDays],
    [existing] at line 138, [toInsert], what the insert returns, and what
    the verification query returns. *)
Definition fastPath (w : World) (cfg : Config) (t : Task) : bool :=
  let '(existing, err) := existingAt w cfg t PreCheck in
  let allDays := daysInclusive (tFrom t) (tTo t) in
  bool_decide (err = None) && (tRetry t =? 0)
  && (lenDays existing =? Z.of_nat (length allDays))
  && (0 <? Z.of_nat (length allDays)).

Definition fetched (w : World) (cfg : Config) (t : Task) : FetchResult * list Call :=
  fetchLoop cfg t (formatDate (tFrom t)) (formatDate (tTo t))
    (seqZ 0 (MaxRetriesPerBlock cfg + 1)) (mkFetch emptyResp 0 "" None) w.

Definition byDayOf (w : World) (cfg : Config) (t : Task) : gmap DayKey dailyAgg :=
  aggregate (fResp (fetched w cfg t).1).

Definition apiDaysOf (w : World) (cfg : Config) (t : Task) : list DayKey :=
  sortDays (elements (dom (byDayOf w cfg t))).

Definition existingFor (w : World) (cfg : Config) (t : Task) : option (gset DayKey) :=
  match (existingAt w cfg t PreCheck).1 with
  | Some e => Some e
  | None => (existingAt w cfg t Fallback).1
  end.

Definition toInsertFor (w : World) (cfg : Config) (t : Task) : list DailyPoint :=
  toInsertOf cfg t (byDayOf w cfg t) (existingFor w cfg t) (apiDaysOf w cfg t).

Definition insertedFor (w : World) (cfg : Config) (t : Task)
    : Z * option string * list Call :=
  insertDailyPoints (CHTable cfg) (toInsertFor w cfg t) w.

Definition missingFor (w : World) (cfg : Config) (t : Task) : list DayKey :=
  let '(after, err2) := existingAt w cfg t Verify in
  match err2 with
  | None => missingOf after (apiDaysOf w cfg t)
  | Some _ => []
  end.

(** The five [return] statements of [handleTask]. *)
Inductive TaskPath :=
| FastPath       (* line 43 *)
| FetchFailed    (* line 72 *)
| NoDays         (* line 118 *)
| InsertFailed   (* line 157 *)
| Completed.     (* line 197 *)

Definition pathOf (w : World) (cfg : Config) (t : Task) : TaskPath :=
  if fastPath w cfg t then FastPath
  else
    match fErr (fetched w cfg t).1 with
    | Some _ => FetchFailed
    | None =>
        if bool_decide (size (byDayOf w cfg t) = 0%nat) then NoDays
        else
          match (insertedFor w cfg t).1.2 with
          | Some _ => InsertFailed
          | None => Completed
          end
    end.

Definition queryCall (cfg : Config) (t : Task) (site : QuerySite) : Call :=
  CallQuery site (CHTable cfg) (tCoinID t) (tFrom t) (tTo t).

(** The calls of the fallback query, made when [existing] is nil. *)
Definition fallbackCalls (w : World) (cfg : Config) (t : Task) : list Call :=
  match (existingAt w cfg t PreCheck).1 with
  | Some _ => []
  | None => [queryCall cfg t Fallback]
  end.

(** The result of a failed window: lines 71-80. *)
Definition failedResult (res : TaskResult) (log : list Call) : Prop :=
  rEmpty res = true ∧ rErr res ≠ "" ∧ rInserted res = 0 ∧ rAPIDays res = 0
  ∧ batchesOf log = [].
End Observations.

Section MoreObservations.
Context `{Float64}.



(** A well-formed row of a series: its timestamp and its value. *)
Definition sampleOf (row : list float) : option (Time * float) :=
  match row with
  | r0 :: val :: _ => Some (float_to_int64 r0, val)
  | _ => None
  end.

(** The samples of a series that fall on the day [d], in the order of the
    series. *)
Definition samplesOn (d : DayKey) (arr : list (list float)) : list (Time * float) :=
  List.filter (λ s, dayKey s.1 =? d) (omap sampleOf arr).
End MoreObservations.

Section AggregationSpec.
Context `{Float64}.

(** What a record of the day map stands for, given the samples of its day
    seen so far: their timestamps [seen] and, metric by metric, their
    values in the order met. *)
Definition represents (o : option dailyAgg) (seen : list Time)
    (ps mcs vs : list float) : Prop :=
  match o with
  | None => seen = [] ∧ ps = [] ∧ mcs = [] ∧ vs = []
  | Some a =>
      a_ts a ∈ seen ∧ (∀ x, x ∈ seen → x ≤ a_ts a)
      ∧ a_p a = default float_zero (last ps)
      ∧ a_mc a = default float_zero (last mcs)
      ∧ a_v a = default float_zero (last vs)
  end.

(** The record of a day after a sample [(ts, val)] of a series of the
    given kind, from the record [o] before it: lines 94-109. *)
Definition updated (kind : string) (ts : Time) (val : float)
    (o : option dailyAgg) : dailyAgg :=
  let a := default (mkAgg ts float_zero float_zero float_zero) o in
  let a := if After ts (a_ts a) then mkAgg ts (a_p a) (a_mc a) (a_v a) else a in
  setMetric kind val a.

(** The values that a series of the given kind adds to metric [k]. *)
Definition valuesFor (kind k : string) (ss : list (Time * float)) : list float :=
  if bool_decide (kind = k) then ss.*2 else [].
End AggregationSpec.

(** Values that are whole numbers, for examples. *)
Definition floatZ : Float64 :=
  {| float := Z; float_zero := 0; float_to_int64 := λ x, x |}.

(** ** Worlds for examples

    Day 19884 is 2024-06-10; the clock reads 2024-06-11 01:00 UTC, so
    yesterday is day 19884. The default configuration starts on 2018-01-01,
    day 17532. *)
Definition day (k : Z) : Time := k * msPerDay.

Definition exampleConfig : Config :=
  mkConfig "usd" "daily" None "coingecko_market_cap_daily" (day 17532) 2 30 3.

(** A store that holds [before] when asked before the insert and answers
    [verify] to the query after it, an API that answers [http attempt] and
    whose body decodes to [resp], and an insert that succeeds. *)
Definition exampleWorld (before : list DayKey) (verify : QueryOutcome)
    (http : Z → HTTPOutcome) (resp : @MarketChartRangeResp floatZ) : @World floatZ :=
  @mkWorld floatZ (day 19885 + 3600000)
    (λ site _ _ _ _,
       match site with
       | Verify => verify
       | _ => RowsRead before None
       end)
    (λ attempt _ _ _ _ _, http attempt)
    (λ _, inl resp)
    (λ _ _, None).

Definition okHTTP (attempt : Z) : HTTPOutcome := mkHTTP 200 "{}" None.

(** The first attempt is rate limited, the second one is refused. *)
Definition failingHTTP (attempt : Z) : HTTPOutcome :=
  if attempt =? 0 then mkHTTP 429 "slow down" (Some "http 429: slow down")
  else mkHTTP 404 "no such coin" (Some "http 404: no such coin").

(** One sample of each metric on day 19882 and one price on day 19883. *)
Definition exampleResp : @MarketChartRangeResp floatZ :=
  @mkResp floatZ [[day 19882 + 1000; 100]; [day 19883; 101]]
    [[day 19882 + 2000; 5]] [[day 19882 + 500; 7]].

(** The round 0 of a backfill over one coin, after its window was handed to
    a worker. *)
Definition exampleTask : Task :=
  mkTask "btc" "BTC" (day 19785) (day 19884) 0 PhaseBackfill.

Definition exampleStates : gmap string CoinState :=
  {[ "btc" := mkCoinState (day 19884) 0 false 0 false ]}.

Definition exampleRound : Backfill * list Task :=
  (mkBackfill [] 1 0 exampleStates ∅, [exampleTask]).

(** An instance of the string functions for ASCII text. *)
Definition isSpace (c : ascii) : bool :=
  let n := nat_of_ascii c in
  (n =? 32)%nat || ((9 <=? n)%nat && (n <=? 13)%nat).

Fixpoint trimLeft (s : string) : string :=
  match s with
  | EmptyString => EmptyString
  | String c s' => if isSpace c then trimLeft s' else s
  end.

Fixpoint trimRight (s : string) : string :=
  match s with
  | EmptyString => EmptyString
  | String c s' =>
      match trimRight s' with
      | EmptyString => if isSpace c then EmptyString else String c EmptyString
      | r => String c r
      end
  end.

Definition upperChar (c : ascii) : ascii :=
  let n := nat_of_ascii c in
  if (97 <=? n)%nat && (n <=? 122)%nat then ascii_of_nat (n - 32) else c.

Definition lowerChar (c : ascii) : ascii :=
  let n := nat_of_ascii c in
  if (65 <=? n)%nat && (n <=? 90)%nat then ascii_of_nat (n + 32) else c.

Fixpoint mapString (f : ascii → ascii) (s : string) : string :=
  match s with
  | EmptyString => EmptyString
  | String c s' => String (f c) (mapString f s')
  end.

Definition asciiStrings : GoStrings :=
  {| TrimSpace := λ s, trimRight (trimLeft s);
     ToUpper := mapString upperChar;
     ToLower := mapString lowerChar |}.

(** * The rest of the engine

    The parts of the program around the code of the claims: the scheduling
    loop and the rounds of [RunBackfill], the waits of the worker, the
    windows of an incremental pass, and the coin lists and the allow-list
    of [main.go] and [util.go]. *)

Section SchedulingSpec.
Context `{GoStrings}.

(** Lines 133-136: the symbol of the task of the coin [id]. *)
Definition symbolFor (coinSymbolByID : gmap string string) (id : string) : string :=
  let sym := default "" (coinSymbolByID !! id) in
  if bool_decide (sym = "") then ToUpper id else sym.

(** The task that one turn of the scheduling loop makes for the coin [id]
    in state [st], if any: lines 115-145. *)
Definition scheduled (cfg : Config) (round : Z) (yday : Time)
    (getMinDate : string → Time * bool * option string)
    (coinSymbolByID : gmap string string) (id : string) (st : CoinState)
    : option Task :=
  if Done st then None
  else
    let end_ := windowEnd round yday (getMinDate id) st in
    let '(t, ok) := makeTaskFixedWindow id (symbolFor coinSymbolByID id) end_
                      (StartDate cfg) in
    if ok then Some t else None.

(** The state of the coin after that turn. *)
Definition afterScheduling (cfg : Config) (round : Z) (yday : Time)
    (getMinDate : string → Time * bool * option string)
    (coinSymbolByID : gmap string string) (id : string) (st : CoinState)
    : CoinState :=
  if Done st then st
  else
    match scheduled cfg round yday getMinDate coinSymbolByID id st with
    | Some _ => st
    | None => setDone st
    end.
End SchedulingSpec.

(** The results that the tasks [ts] can still bring in a round: a task with
    retry count [r] can come back at most [MaxRetriesPerBlock + 1 - r]
    times. *)
Definition resultsLeft (cfg : Config) (ts : list Task) : Z :=
  foldr (λ t acc, (MaxRetriesPerBlock cfg + 1 - tRetry t) + acc) 0 ts.

Section RunSpec.
Context `{GoStrings}.

(** ** The rounds of [RunBackfill]

    [runReach cfg yday getMinDate coins round sts act]: the outer loop of
    [RunBackfill] can be at the top of round [round] with the states [sts]
    and the active map [act]. [getMinDate round id] is what the store
    answers in that round; [yday] is read once, at line 70. A round is left
    when its drain loop ends, with nothing pending and [inFlight] not
    positive. *)
Inductive runReach (cfg : Config) (yday : Time)
    (getMinDate : Z → string → Time * bool * option string) (coins : list Coin)
    : Z → gmap string CoinState → gmap string Coin → Prop :=
| run_first :
    runReach cfg yday getMinDate coins 0 (initStates cfg yday coins).2 ∅
| run_next round sts act s fl :
    runReach cfg yday getMinDate coins round sts act →
    (scheduleRound cfg round yday (getMinDate round) (initStates cfg yday coins).1 sts).1.2
      ≠ Z.of_nat (size (initStates cfg yday coins).2) →
    roundReach cfg round yday (getMinDate round) (initStates cfg yday coins).1
      sts act (s, fl) →
    pending s = [] → inFlight s ≤ 0 →
    runReach cfg yday getMinDate coins (round + 1) (states s) (active s).

(** What [RunBackfill] can return as its map: the empty map when no coin
    got a state (line 92); the map at the top of a round in which every
    coin is counted as done (lines 149 and 357); or, when the context is
    cancelled, the map at that point of a drain loop (lines 174 and 310). *)
Definition backfillReturns (cfg : Config) (yday : Time)
    (getMinDate : Z → string → Time * bool * option string) (coins : list Coin)
    (act : gmap string Coin) : Prop :=
  let syms := (initStates cfg yday coins).1 in
  let total := size (initStates cfg yday coins).2 in
  (total = 0%nat ∧ act = ∅)
  ∨ (∃ round sts,
       runReach cfg yday getMinDate coins round sts act
       ∧ (scheduleRound cfg round yday (getMinDate round) syms sts).1.2
         = Z.of_nat total)
  ∨ (∃ round sts act0 s fl,
       runReach cfg yday getMinDate coins round sts act0
       ∧ (scheduleRound cfg round yday (getMinDate round) syms sts).1.2
         ≠ Z.of_nat total
       ∧ roundReach cfg round yday (getMinDate round) syms sts act0 (s, fl)
       ∧ act = active s).
End RunSpec.

Section SleepObservations.
Context `{Float64}.

(** The waits found in a log, in order. *)
Definition sleepsOf (log : list Call) : list Z :=
  omap (λ c, match c with CallSleep d => Some d | _ => None end) log.

(** The fetch of attempt [a] failed with a status worth a retry: the test
    of lines 61-66. *)
Definition retryableFailure (w : World) (cfg : Config) (t : Task) (a : Z) : bool :=
  bool_decide (fErr (fetchAt w cfg t a) ≠ None)
  && isRetryableStatus (fStatus (fetchAt w cfg t a)).
End SleepObservations.

(** The [i]-th window of 100 days from the day [first], cut at the day
    [yd]. *)
Definition windowAt (id sym : string) (first yd : DayKey) (i : Z) : Task :=
  mkTask id sym (day (first + 100 * i)) (day (Z.min (first + 100 * i + 99) yd))
    0 PhaseIncremental.

(** ** util.go: parseCSVSet *)

(** [strings.Split(s, ",")]: the pieces of [s] between the commas; one
    piece more than there are commas. *)
Fixpoint splitComma (s : string) : list string :=
  match s with
  | EmptyString => [EmptyString]
  | String c s' =>
      if Ascii.eqb c "," then EmptyString :: splitComma s'
      else
        match splitComma s' with
        | p :: ps => String c p :: ps
        | [] => [String c EmptyString]
        end
  end.

(** [strings.Join(ps, ",")] *)
Fixpoint joinComma (ps : list string) : string :=
  match ps with
  | [] => EmptyString
  | [p] => p
  | p :: ps => p +:+ String "," (joinComma ps)
  end.

Section MainGo.
Context `{GoStrings}.

(** The body of the loop of [parseCSVSet]. *)
Definition addPiece (set : gmap string bool) (p : string) : gmap string bool :=
  let p := TrimSpace p in
  if bool_decide (p = EmptyString) then set else <[p := true]> set.

(** [parseCSVSet]: [None] is the nil map. *)
Definition parseCSVSet (s : string) : option (gmap string bool) :=
  let s := TrimSpace s in
  if bool_decide (s = EmptyString) then None
  else Some (fold_left addPiece (splitComma s) ∅).

(** ** main.go: fetchCoinsLists *)

(** Lines 111-118, the same in the three loops: the coin with identifier
    and symbol trimmed, unless it is skipped. *)
Definition listed (cfg : Config) (c : Coin) : option Coin :=
  let c := mkCoin (TrimSpace (cID c)) (TrimSpace (cSymbol c)) (cName c) in
  if bool_decide (cID c = EmptyString) then None
  else if filteredOut cfg (cID c) then None
  else Some c.

(** Line 119: the last coin of an identifier stays. *)
Definition addActive (cfg : Config) (m : gmap string Coin) (c : Coin)
    : gmap string Coin :=
  match listed cfg c with
  | None => m
  | Some c => <[cID c := c]> m
  end.

(** Lines 132-134 and 145-147: the first coin of an identifier stays. *)
Definition addSeen (cfg : Config) (m : gmap string Coin) (c : Coin)
    : gmap string Coin :=
  match listed cfg c with
  | None => m
  | Some c =>
      match m !! cID c with
      | Some _ => m
      | None => <[cID c := c]> m
      end
  end.

(** What [CoinsList] returned: the coins and the error. *)
Definition coinsOrNil (r : list Coin * option string) : list Coin :=
  match r.2 with
  | Some _ => []
  | None => r.1
  end.

(** [fetchCoinsLists], from the two answers of [CoinsList]. The slices are
    filled by ranging over the maps; as for the states of the backfill the
    order of [map_to_list] stands for the order Go leaves open. *)
Definition fetchCoinsLists (cfg : Config) (actR inactR : list Coin * option string)
    : list Coin * list Coin :=
  let act := coinsOrNil actR in
  let inact := coinsOrNil inactR in
  let activeByID := fold_left (addActive cfg) act ∅ in
  let seen := fold_left (addSeen cfg) act ∅ in
  let seen := fold_left (addSeen cfg) inact seen in
  ((map_to_list seen).*2, (map_to_list activeByID).*2).

(** ** main.go: coinFromIDMap *)

Definition fillID (e : string * Coin) : Coin :=
  if bool_decide (cID e.2 = EmptyString) then mkCoin e.1 (cSymbol e.2) (cName e.2)
  else e.2.

(** [out[i].ID < out[j].ID] compares the bytes of the strings;
    [lessEqID a b] says that [b] is not less than [a]. *)
Definition lessEqID (a b : Coin) : Prop := String.leb (cID a) (cID b) = true.

#[export] Instance lessEqID_dec : RelDecision lessEqID.
Proof. intros a b. unfold lessEqID. apply _. Defined.

(** [coinFromIDMap]. [sort.Slice] leaves the order of coins with equal
    identifiers open; the merge sort keeps them in the order of the
    range. *)
Definition coinFromIDMap (m : gmap string Coin) : list Coin :=
  merge_sort lessEqID (fillID <$> map_to_list m).

(** Lines 67-71 of [main]: the coins of the incremental passes. *)
Definition incrementalTargets (activeCoinsAPI : list Coin)
    (activeDetected : gmap string Coin) : list Coin :=
  if bool_decide (length activeCoinsAPI = 0%nat) then coinFromIDMap activeDetected
  else activeCoinsAPI.

(** ** main.go: runIncrementalOnce, before the drain loop *)

(** Lines 177-189: one coin of the loop that asks for the newest stored
    day. The workers are idle during this loop, so the answer depends on
    the identifier only. *)
Definition addMaxDate (getMaxDate : string → Time * bool * option string)
    (maxDates : gmap string Time) (c : Coin) : gmap string Time :=
  let id := TrimSpace (cID c) in
  if bool_decide (id = EmptyString) then maxDates
  else
    let '(md, ok, err) := getMaxDate id in
    if negb (bool_decide (err = None)) then maxDates
    else if ok then <[id := md]> maxDates else maxDates.

(** Lines 171-196: the tasks of a pass; none means that the pass ends
    there. *)
Definition passTasks (cfg : Config) (now : Time)
    (getMaxDate : string → Time * bool * option string) (activeCoins : list Coin)
    : list Task :=
  if bool_decide (length activeCoins = 0%nat) then []
  else
    let maxDates := fold_left (addMaxDate getMaxDate) activeCoins ∅ in
    BuildIncrementalTasks cfg now activeCoins maxDates.
End MainGo.

(** * Properties *)

(** ** Dates *)

Lemma msPerDay_pos : 0 < msPerDay.
Proof. reflexivity. Qed.

Lemma dateOnlyUTC_le t : dateOnlyUTC t ≤ t.
Proof. unfold dateOnlyUTC. apply Z.mul_div_le, msPerDay_pos. Qed.

Lemma dateOnlyUTC_lt t : t < dateOnlyUTC t + msPerDay.
Proof.
  unfold dateOnlyUTC.
  pose proof (Z.mod_pos_bound t msPerDay msPerDay_pos).
  pose proof (Z.div_mod t msPerDay). lia.
Qed.

Lemma dayKey_dateOnlyUTC t : dayKey (dateOnlyUTC t) = dayKey t.
Proof.
  unfold dayKey, dateOnlyUTC.
  rewrite Z.mul_comm, Z.div_mul; [done | discriminate].
Qed.

Lemma dateOnlyUTC_key t : dateOnlyUTC t = msPerDay * dayKey t.
Proof. reflexivity. Qed.

Lemma dateOnlyUTC_idemp t : dateOnlyUTC (dateOnlyUTC t) = dateOnlyUTC t.
Proof. by rewrite (dateOnlyUTC_key (dateOnlyUTC t)), dayKey_dateOnlyUTC. Qed.

Lemma dayKey_AddDays t k : dayKey (AddDays t k) = dayKey t + k.
Proof. unfold dayKey, AddDays. rewrite Z.div_add; [done | discriminate]. Qed.

Lemma dateOnlyUTC_AddDays t k :
  dateOnlyUTC (AddDays t k) = AddDays (dateOnlyUTC t) k.
Proof. rewrite !dateOnlyUTC_key, dayKey_AddDays. unfold AddDays. lia. Qed.

Lemma dayKey_mono a b : a ≤ b → dayKey a ≤ dayKey b.
Proof. intros. apply Z.div_le_mono; [apply msPerDay_pos | done]. Qed.

Lemma dateOnlyUTC_mono a b : a ≤ b → dateOnlyUTC a ≤ dateOnlyUTC b.
Proof. intros Hab. rewrite !dateOnlyUTC_key. pose proof (dayKey_mono _ _ Hab). unfold msPerDay. lia. Qed.

Lemma formatDate_key t : formatDate t = dayKey t.
Proof. apply dayKey_dateOnlyUTC. Qed.

Lemma yesterdayUTC_date now : dateOnlyUTC (yesterdayUTC now) = yesterdayUTC now.
Proof. apply dateOnlyUTC_idemp. Qed.

(** ** The bounded loops leave through their guard *)

Lemma tripCount_step d t :
  d ≤ t → tripCount d t = S (tripCount (AddDays d 1) t).
Proof.
  intros Hle. unfold tripCount, AddDays.
  replace (t - (d + 1 * msPerDay)) with (t - d + (-1) * msPerDay) by lia.
  rewrite Z.div_add by discriminate.
  assert (0 ≤ (t - d) / msPerDay) by (apply Z.div_pos; [lia | apply msPerDay_pos]).
  lia.
Qed.

Lemma daysLoop_enough n d t :
  (tripCount d t ≤ n)%nat → daysLoop n d t = daysLoop (tripCount d t) d t.
Proof.
  revert d. induction n as [|n IH]; intros d Hn.
  - by replace (tripCount d t) with 0%nat by lia.
  - simpl. destruct (After d t) eqn:Ha.
    + destruct (tripCount d t); simpl; by rewrite ?Ha.
    + unfold After in Ha. apply Z.ltb_ge in Ha.
      rewrite (tripCount_step d t Ha) in *. simpl.
      unfold After. rewrite (proj2 (Z.ltb_ge t d) Ha).
      f_equal. apply IH. lia.
Qed.

Lemma daysLoop_keys n d t :
  d ≤ t → (tripCount d t ≤ n)%nat →
  dayKey <$> daysLoop n d t = seqZ (dayKey d) ((t - d) / msPerDay + 1).
Proof.
  revert d. induction n as [|n IH]; intros d Hle Hn.
  - rewrite (tripCount_step d t Hle) in Hn. lia.
  - simpl. unfold After. rewrite (proj2 (Z.ltb_ge t d) Hle). simpl.
    assert (0 ≤ (t - d) / msPerDay) by (apply Z.div_pos; [lia | apply msPerDay_pos]).
    rewrite seqZ_cons by lia. f_equal.
    rewrite (tripCount_step d t Hle) in Hn.
    destruct (decide (AddDays d 1 ≤ t)) as [Hd|Hd].
    + rewrite IH by (done || lia). rewrite dayKey_AddDays.
      assert ((t - AddDays d 1) / msPerDay = (t - d) / msPerDay - 1) as ->.
      { unfold AddDays.
        replace (t - (d + 1 * msPerDay)) with (t - d + (-1) * msPerDay) by lia.
        rewrite Z.div_add by discriminate. lia. }
      f_equal; lia.
    + assert ((t - d) / msPerDay = 0) as ->.
      { apply Z.div_small. unfold AddDays in Hd. lia. }
      rewrite seqZ_nil by lia.
      destruct n; simpl; [done|].
      unfold After. by rewrite (proj2 (Z.ltb_lt t (AddDays d 1))) by lia.
Qed.

Lemma daysInclusive_keys from to :
  dayKey from ≤ dayKey to →
  formatDate <$> daysInclusive from to
  = seqZ (dayKey from) (dayKey to - dayKey from + 1).
Proof.
  intros Hle. unfold daysInclusive, Before.
  assert (dateOnlyUTC from ≤ dateOnlyUTC to) as Hd.
  { rewrite !dateOnlyUTC_key. unfold msPerDay. lia. }
  rewrite (proj2 (Z.ltb_ge _ _) Hd).
  erewrite list_fmap_ext; [|intros; apply formatDate_key].
  rewrite daysLoop_keys by done. rewrite dayKey_dateOnlyUTC. f_equal.
  rewrite !dateOnlyUTC_key.
  replace (msPerDay * dayKey to - msPerDay * dayKey from)
    with ((dayKey to - dayKey from) * msPerDay) by lia.
  rewrite Z.div_mul by discriminate. done.
Qed.

Lemma daysInclusive_length from to :
  dayKey from ≤ dayKey to →
  Z.of_nat (length (daysInclusive from to)) = dayKey to - dayKey from + 1.
Proof.
  intros Hle.
  rewrite <- (length_fmap formatDate), daysInclusive_keys, length_seqZ by done. lia.
Qed.

(** ** Windows of the incremental builder *)


Lemma windowsLoop_coin n id sym cur yday :
  Forall (λ t, tCoinID t = id ∧ tSymbol t = sym ∧ tRetry t = 0
               ∧ tPhase t = PhaseIncremental)
    (windowsLoop n id sym cur yday).
Proof.
  revert cur. induction n as [|n IH]; intros cur; simpl; [constructor|].
  destruct (After cur yday); [constructor|]. constructor; [done | apply IH].
Qed.

Lemma windowsLoop_days n id sym cur yday :
  Forall (λ t, windowDays t ≤ 100) (windowsLoop n id sym cur yday).
Proof.
  revert cur. induction n as [|n IH]; intros cur; simpl; [constructor|].
  unfold After. destruct (yday <? cur) eqn:Hc; [constructor|].
  apply Z.ltb_ge in Hc. constructor; [|apply IH].
  unfold windowDays. simpl.
  destruct (yday <? AddDays cur 99) eqn:He;
    [apply Z.ltb_lt in He | apply Z.ltb_ge in He].
  - pose proof (dayKey_mono _ _ (Z.lt_le_incl _ _ He)) as Hm.
    rewrite dayKey_AddDays in Hm. lia.
  - rewrite dayKey_AddDays. lia.
Qed.

Lemma tripCount_mono a b t : a ≤ b → (tripCount b t <= tripCount a t)%nat.
Proof.
  intros Hab. unfold tripCount.
  assert ((t - b) / msPerDay ≤ (t - a) / msPerDay)
    by (apply Z.div_le_mono; [apply msPerDay_pos | lia]).
  lia.
Qed.

(** More turns than the days from [cur] to [yday] change nothing. *)
Lemma windowsLoop_enough n m id sym cur yday :
  (tripCount cur yday <= n)%nat → (tripCount cur yday <= m)%nat →
  windowsLoop n id sym cur yday = windowsLoop m id sym cur yday.
Proof.
  revert m cur. induction n as [|n IH]; intros m cur Hn Hm.
  - destruct (decide (cur ≤ yday)) as [Hle|Hgt].
    + rewrite tripCount_step in Hn by done. lia.
    + destruct m; simpl; [done|]. unfold After.
      by rewrite (proj2 (Z.ltb_lt yday cur)) by lia.
  - simpl. unfold After. destruct (yday <? cur) eqn:Hc.
    + destruct m; simpl; [done|]. unfold After. by rewrite Hc.
    + apply Z.ltb_ge in Hc. rewrite tripCount_step in Hn, Hm by done.
      destruct m as [|m]; [lia|]. simpl. unfold After.
      rewrite (proj2 (Z.ltb_ge yday cur)) by done. f_equal.
      assert (AddDays cur 1
              ≤ AddDays (if yday <? AddDays cur 99 then yday else AddDays cur 99) 1)
        as Hstep.
      { unfold AddDays, msPerDay. destruct (yday <? _); lia. }
      pose proof (tripCount_mono _ _ yday Hstep).
      apply IH; lia.
Qed.

(** On calendar days the windows tile the range: with enough turns the loop
    ends on the window that ends at [yday]. *)
Lemma windowsLoop_covers n id sym c y :
  c ≤ y → (tripCount (msPerDay * c)%Z (msPerDay * y)%Z ≤ n)%nat →
  covers (msPerDay * c) (msPerDay * y)
    (windowsLoop n id sym (msPerDay * c) (msPerDay * y)).
Proof.
  revert c. induction n as [|n IH]; intros c Hle Hn.
  - rewrite tripCount_step in Hn by (unfold msPerDay; lia). lia.
  - simpl. unfold After.
    rewrite (proj2 (Z.ltb_ge (msPerDay * y) (msPerDay * c))) by (unfold msPerDay; lia).
    rewrite tripCount_step in Hn by (unfold msPerDay; lia).
    destruct (msPerDay * y <? AddDays (msPerDay * c) 99) eqn:He;
      [apply Z.ltb_lt in He | apply Z.ltb_ge in He].
    + replace (windowsLoop n id sym (AddDays (msPerDay * y) 1) (msPerDay * y))
        with (@nil Task).
      * apply covers_last; simpl; unfold msPerDay; lia.
      * destruct n; simpl; [done|]. unfold After, AddDays.
        by rewrite (proj2 (Z.ltb_lt _ _)) by (unfold msPerDay; lia).
    + destruct (decide (y = c + 99)) as [Heq|Hne].
      * subst y. replace (AddDays (msPerDay * c) 99) with (msPerDay * (c + 99))
          by (unfold AddDays; lia).
        replace (windowsLoop n id sym (AddDays (msPerDay * (c + 99)) 1)
                   (msPerDay * (c + 99))) with (@nil Task).
        -- apply covers_last; simpl; unfold msPerDay; lia.
        -- destruct n; simpl; [done|]. unfold After, AddDays.
           by rewrite (proj2 (Z.ltb_lt _ _)) by (unfold msPerDay; lia).
      * assert (c + 100 ≤ y) by (unfold AddDays, msPerDay in He; lia).
        apply covers_more; simpl; [done | unfold AddDays, msPerDay; lia
                                  | unfold AddDays, msPerDay in *; lia |].
        replace (AddDays (AddDays (msPerDay * c) 99) 1) with (msPerDay * (c + 100))
          by (unfold AddDays; lia).
        apply IH; [done|].
        assert (tripCount (msPerDay * (c + 100))%Z (msPerDay * y)%Z
                ≤ tripCount (AddDays (msPerDay * c)%Z 1%Z) (msPerDay * y)%Z)%nat; [|lia].
        unfold tripCount. apply Z2Nat.inj_le.
        -- assert (0 ≤ (msPerDay * y - msPerDay * (c + 100)) / msPerDay); [|lia].
           apply Z.div_pos; unfold msPerDay; lia.
        -- assert (0 ≤ (msPerDay * y - AddDays (msPerDay * c) 1) / msPerDay); [|lia].
           apply Z.div_pos; unfold AddDays, msPerDay; lia.
        -- apply Z.add_le_mono_r, Z.div_le_mono; unfold AddDays, msPerDay; lia.
Qed.

(** Every calendar day of the range lies in one window, and in one only. *)
Lemma covers_day a b ws k :
  covers a b ws → dayKey a ≤ k ≤ dayKey b →
  ∃ w, w ∈ ws ∧ dayKey (tFrom w) ≤ k ≤ dayKey (tTo w).
Proof.
  induction 1 as [a b w Hf Ht Hab|a b w ws Hf Hle Hlt Hc IH]; intros Hk.
  - exists w. subst. split; [apply list_elem_of_singleton; done | done].
  - destruct (decide (k ≤ dayKey (tTo w))) as [Hin|Hout].
    + exists w. subst. split; [left | lia].
    + destruct IH as (w' & Hw' & Hk'); [rewrite dayKey_AddDays; lia|].
      exists w'. split; [by right | done].
Qed.

Lemma covers_bounds a b ws w :
  covers a b ws → w ∈ ws → a ≤ tFrom w ∧ tTo w ≤ b ∧ tFrom w ≤ tTo w.
Proof.
  induction 1 as [a b w0 Hf Ht Hab|a b w0 ws Hf Hle Hlt Hc IH]; intros Hin.
  - apply list_elem_of_singleton in Hin. subst. lia.
  - apply elem_of_cons in Hin as [->|Hin]; [lia|].
    destruct (IH Hin) as (? & ? & ?). unfold AddDays, msPerDay in *. lia.
Qed.

Lemma covers_disjoint a b ws i j wi wj :
  covers a b ws → ws !! i = Some wi → ws !! j = Some wj → (i < j)%nat →
  tTo wi < tFrom wj.
Proof.
  intros Hc. revert i j. induction Hc as [a b w Hf Ht Hab|a b w ws Hf Hle Hlt Hc IH];
    intros i j Hi Hj Hij.
  - destruct i, j; simpl in *; try lia; by rewrite ?lookup_nil in *.
  - destruct j as [|j]; [lia|]. simpl in Hj.
    destruct i as [|i]; simpl in Hi.
    + injection Hi as ->.
      apply list_elem_of_lookup_2 in Hj.
      destruct (covers_bounds _ _ _ _ Hc Hj) as (? & _).
      unfold AddDays, msPerDay in *. lia.
    + apply (IH i j); [done | done | lia].
Qed.

Section IncrementalProps.
Context `{GoStrings}.

Lemma fold_tasks_app (f : Coin → list Task) cs acc :
  fold_left (λ tasks c, tasks ++ f c) cs acc = acc ++ fold_left (λ tasks c, tasks ++ f c) cs [].
Proof.
  revert acc. induction cs as [|c cs IH]; intros acc; simpl.
  - by rewrite app_nil_r.
  - rewrite IH, (IH (f c)). by rewrite app_assoc.
Qed.

Lemma BuildIncrementalTasks_cons cfg now c cs md :
  BuildIncrementalTasks cfg now (c :: cs) md
  = tasksForCoin cfg (yesterdayUTC now) md c ++ BuildIncrementalTasks cfg now cs md.
Proof. unfold BuildIncrementalTasks. simpl. apply fold_tasks_app. Qed.

Lemma BuildIncrementalTasks_app cfg now cs1 cs2 md :
  BuildIncrementalTasks cfg now (cs1 ++ cs2) md
  = BuildIncrementalTasks cfg now cs1 md ++ BuildIncrementalTasks cfg now cs2 md.
Proof.
  induction cs1 as [|c cs1 IH]; [done|].
  rewrite <- app_comm_cons, !BuildIncrementalTasks_cons, IH. by rewrite app_assoc.
Qed.



Lemma tasksForCoin_not_eligible cfg yday md c :
  eligible cfg c = false → tasksForCoin cfg yday md c = [].
Proof.
  unfold eligible, tasksForCoin. intros He.
  destruct (filteredOut cfg (cID c)); [done|].
  destruct (bool_decide (TrimSpace (cID c) = "")); [done|].
  destruct (bool_decide (ToUpper (TrimSpace (cSymbol c)) = "")); [done|].
  done.
Qed.

Lemma tasksForCoin_eligible cfg yday md c :
  eligible cfg c = true →
  tasksForCoin cfg yday md c
  = match md !! TrimSpace (cID c) with
    | None => []
    | Some maxD =>
        let start := dateOnlyUTC (AddDays maxD 1) in
        if After start yday then []
        else windowsLoop (tripCount start yday) (TrimSpace (cID c))
               (ToUpper (TrimSpace (cSymbol c))) start yday
    end.
Proof.
  unfold eligible, tasksForCoin. intros He.
  destruct (filteredOut cfg (cID c)); [done|].
  destruct (bool_decide (TrimSpace (cID c) = "")); [done|].
  destruct (bool_decide (ToUpper (TrimSpace (cSymbol c)) = "")); [done|].
  done.
Qed.
End IncrementalProps.

(** ** C8: the windows of the incremental builder *)

(** C8 (amended). Each coin of [activeCoins] contributes its own block of
    tasks to [BuildIncrementalTasks]. For a coin that passes the allow-list
    and has a non-blank identifier and symbol, with a recorded maximum day
    strictly before yesterday, the block is a run of consecutive,
    non-overlapping windows of at most 100 days that starts the day after
    the maximum day and ends yesterday. A coin whose maximum day is at or
    after yesterday, one with no recorded maximum day, and one the guards
    reject contribute no task. *)
Theorem C8_incremental_windows `{GoStrings} cfg now md cs1 c cs2 :
  let yday := yesterdayUTC now in
  let id := TrimSpace (cID c) in
  ∃ ws,
    BuildIncrementalTasks cfg now (cs1 ++ c :: cs2) md
    = BuildIncrementalTasks cfg now cs1 md ++ ws
      ++ BuildIncrementalTasks cfg now cs2 md
    ∧ if eligible cfg c then
        match md !! id with
        | Some maxD =>
            if decide (dateOnlyUTC maxD < yday)
            then covers (AddDays (dateOnlyUTC maxD) 1) yday ws
                 ∧ Forall (λ t, windowDays t ≤ 100 ∧ tCoinID t = id) ws
            else ws = []
        | None => ws = []
        end
      else ws = [].
Proof.
  intros yday id. exists (tasksForCoin cfg yday md c). split.
  { by rewrite BuildIncrementalTasks_app, BuildIncrementalTasks_cons. }
  destruct (eligible cfg c) eqn:He; [|by apply tasksForCoin_not_eligible].
  rewrite tasksForCoin_eligible by done. fold id.
  destruct (md !! id) as [maxD|]; [|done]. simpl.
  rewrite dateOnlyUTC_AddDays. unfold After.
  assert (yday = msPerDay * dayKey (AddDays now (-1))) as Hy by done.
  assert (AddDays (dateOnlyUTC maxD) 1 = msPerDay * (dayKey maxD + 1)) as Hs.
  { rewrite dateOnlyUTC_key. unfold AddDays. lia. }
  destruct (decide (dateOnlyUTC maxD < yday)) as [Hlt|Hge].
  - assert (dayKey maxD + 1 ≤ dayKey (AddDays now (-1))) as Hk.
    { rewrite dateOnlyUTC_key, Hy in Hlt. unfold msPerDay in Hlt. lia. }
    rewrite (proj2 (Z.ltb_ge _ _)) by (rewrite Hs, Hy; unfold msPerDay; lia).
    split.
    + rewrite Hs, Hy. by apply windowsLoop_covers.
    + eapply Forall_impl;
        [apply Forall_and; split; [apply windowsLoop_days | apply windowsLoop_coin]|].
      simpl. intros t (? & ? & _). done.
  - rewrite (proj2 (Z.ltb_lt _ _)); [done|].
    rewrite Hs, Hy. rewrite dateOnlyUTC_key, Hy in Hge. unfold msPerDay in *. lia.
Qed.

(** C8, as stated, fails: an active coin with a blank symbol and a recorded
    maximum day (day 10) strictly before yesterday (day 19) gets no window
    at all, so nothing covers the days 11 to 19. *)
Lemma C8_counterexample :
  let cfg := mkConfig "usd" "daily" None "coingecko_market_cap_daily" 0 2 30 3 in
  let now : Time := 20 * msPerDay + 3600000 in
  let c := mkCoin "btc" "" "Bitcoin" in
  let md : gmap string Time := {[ "btc" := 10 * msPerDay ]} in
  md !! "btc" = Some (10 * msPerDay)
  ∧ 10 * msPerDay < yesterdayUTC now
  ∧ @BuildIncrementalTasks asciiStrings cfg now [c] md = []
  ∧ ¬ covers (AddDays (10 * msPerDay) 1) (yesterdayUTC now)
        (@BuildIncrementalTasks asciiStrings cfg now [c] md).
Proof.
  intros cfg now c md.
  assert (@BuildIncrementalTasks asciiStrings cfg now [c] md = []) as Hb
    by (vm_compute; reflexivity).
  split; [by vm_compute|]. split; [by vm_compute|]. split; [done|].
  rewrite Hb. inversion 1.
Qed.

(** A coin the guards accept: maximum day 10, yesterday is day 19, one
    window from day 11 to day 19. *)
Example C8_example :
  let cfg := mkConfig "usd" "daily" None "coingecko_market_cap_daily" 0 2 30 3 in
  let now : Time := 20 * msPerDay + 3600000 in
  let md : gmap string Time := {[ "btc" := 10 * msPerDay ]} in
  @BuildIncrementalTasks asciiStrings cfg now [mkCoin " btc " "btc" "Bitcoin"] md
  = [mkTask "btc" "BTC" (11 * msPerDay) (19 * msPerDay) 0 PhaseIncremental].
Proof. vm_compute. reflexivity. Qed.

(** ** The backfill round keeps one live task per coin *)

Lemma makeTaskFixedWindow_coin id sym e lim t :
  makeTaskFixedWindow id sym e lim = (t, true) →
  tCoinID t = id ∧ tSymbol t = sym ∧ tRetry t = 0 ∧ tPhase t = PhaseBackfill.
Proof.
  unfold makeTaskFixedWindow. destruct (Before _ _); [done|].
  intros [= <-]. done.
Qed.

Lemma makeTaskFixedWindow_ok cfg id sym e lim t :
  0 ≤ MaxRetriesPerBlock cfg →
  makeTaskFixedWindow id sym e lim = (t, true) → taskOK cfg t.
Proof.
  unfold makeTaskFixedWindow, Before, taskOK. intros Hmax.
  destruct (dateOnlyUTC e <? lim) eqn:Hb; [done|]. apply Z.ltb_ge in Hb.
  intros [= <-]. simpl. unfold AddDays, msPerDay in *.
  destruct (_ <? lim) eqn:Hs; [apply Z.ltb_lt in Hs | apply Z.ltb_ge in Hs]; lia.
Qed.

Lemma retryCopy_ok cfg res :
  taskOK cfg (rTask res) → needsRetry cfg res = true →
  taskOK cfg (retryCopy (rTask res)).
Proof.
  unfold taskOK, needsRetry. intros (? & ? & ?) [_ Hr%Z.ltb_lt]%andb_true_iff.
  simpl. lia.
Qed.

Section RoundProps.
Context `{GoStrings}.

Lemma scheduleCoin_inv cfg round yday getMinDate syms acc e l :
  NoDup ((e :: l).*1) → schedInv acc (e :: l) →
  schedInv (scheduleCoin cfg round yday getMinDate syms acc e) l.
Proof.
  destruct acc as [[pend dc] cur], e as [id st]. simpl.
  intros Hnd (Ha & Hb & Hc & Hd). simpl in *.
  apply NoDup_cons in Hnd as [Hid Hnd].
  apply Forall_cons in Hd as [Hcur Hd]. simpl in Hcur.
  assert (Forall (λ t, tCoinID t ∉ l.*1) pend) as Hb'.
  { eapply Forall_impl; [exact Hb|]. simpl. intros t Ht Hin. apply Ht. by right. }
  assert (Forall (λ t, tCoinID t ≠ id) pend) as Hne.
  { eapply Forall_impl; [exact Hb|]. simpl. intros t Ht Heq. apply Ht.
    rewrite Heq. by left. }
  destruct (Done st) eqn:Hdone; [done|].
  destruct (makeTaskFixedWindow _ _ _ _) as [t ok] eqn:Hmk.
  destruct ok; simpl.
  - apply makeTaskFixedWindow_coin in Hmk as (Hcoin & _).
    repeat split; simpl.
    + rewrite fmap_app. simpl. apply NoDup_app. split; [done|]. split.
      * intros x Hx ->%list_elem_of_singleton.
        apply list_elem_of_fmap in Hx as (t' & Heq & Hin).
        rewrite Forall_forall in Hne. apply (Hne t' Hin). congruence.
      * apply NoDup_singleton.
    + apply Forall_app. split; [done|]. apply Forall_singleton.
      cbn beta. by rewrite Hcoin.
    + apply Forall_app. split; [done|]. apply Forall_singleton.
      cbn beta. exists st. by rewrite Hcoin.
    + done.
  - repeat split; simpl; [done | done | |].
    + rewrite Forall_forall in Hc, Hne |- *. intros t' Hin.
      destruct (Hc t' Hin) as (st' & Hl & Hdn). exists st'.
      rewrite lookup_insert_ne; [done|]. intros Heq. by apply (Hne t' Hin).
    + rewrite Forall_forall in Hd |- *. intros [id' st'] Hin. simpl.
      rewrite lookup_insert_ne; [by apply (Hd _ Hin)|].
      intros ->. apply Hid. apply list_elem_of_fmap. by exists (id', st').
Qed.

Lemma scheduleRound_inv cfg round yday getMinDate syms l acc :
  NoDup l.*1 → schedInv acc l →
  schedInv (fold_left (scheduleCoin cfg round yday getMinDate syms) l acc) [].
Proof.
  revert acc. induction l as [|e l IH]; intros acc Hnd Hinv; [done|].
  simpl. apply IH.
  - simpl in Hnd. by apply NoDup_cons in Hnd as [_ ?].
  - by apply scheduleCoin_inv.
Qed.

Lemma roundStart_inv cfg round yday getMinDate syms sts act :
  roundInv (roundStart cfg round yday getMinDate syms sts act).
Proof.
  unfold roundStart, scheduleRound.
  pose proof (scheduleRound_inv cfg round yday getMinDate syms
                (map_to_list sts) ([], 0, sts)) as Hinv.
  destruct (fold_left _ _ _) as [[pend dc] sts'].
  destruct Hinv as (Ha & _ & Hc & _).
  - apply NoDup_fst_map_to_list.
  - repeat split; simpl; [constructor | constructor | constructor |].
    apply Forall_forall. intros [id st] Hin. simpl.
    by apply elem_of_map_to_list.
  - unfold roundInv. simpl. rewrite app_nil_r. done.
Qed.

Lemma backfillStep_inv cfg x y :
  backfillStep cfg x y → roundInv x → roundInv y.
Proof.
  destruct 1 as [s fl1 fl2 res|s fl next s' Hd]; unfold roundInv; simpl.
  - intros [Hnd Hlive].
    assert (pending s ++ fl1 ++ rTask res :: fl2
            ≡ₚ rTask res :: pending s ++ fl1 ++ fl2) as Hp.
    { rewrite !app_assoc. by rewrite <- Permutation_middle. }
    rewrite Hp in Hnd, Hlive. simpl in Hnd.
    apply NoDup_cons in Hnd as [Hfresh Hnd].
    apply Forall_cons in Hlive as [(st & Hst & Hdone) Hlive].
    unfold onResultBackfill. rewrite Hst, Hdone.
    destruct (needsRetry cfg res); simpl.
    + split; [by constructor|]. constructor; [by exists st | done].
    + split; [done|].
      rewrite Forall_forall in Hlive |- *. intros t Hin.
      destruct (Hlive t Hin) as (st' & Hl & Hdn). exists st'.
      rewrite lookup_insert_ne; [done|].
      intros Heq. apply Hfresh. rewrite Heq.
      apply list_elem_of_fmap. by exists t.
  - unfold dispatchBackfill in Hd.
    destruct (pending s) as [|t rest] eqn:Hpend; [done|].
    injection Hd as <- <-. simpl.
    assert (rest ++ fl ++ [t] ≡ₚ (t :: rest) ++ fl) as Hp.
    { rewrite app_assoc. rewrite <- Permutation_cons_append. done. }
    rewrite Hp. done.
Qed.

Lemma roundReach_inv cfg round yday getMinDate syms sts act x :
  roundReach cfg round yday getMinDate syms sts act x → roundInv x.
Proof.
  unfold roundReach. intros Hr.
  eapply (rtc_ind_r (λ y, roundInv y)); [apply roundStart_inv | | exact Hr].
  intros y z _ Hstep Hy. by eapply backfillStep_inv.
Qed.

(** In a round, a drained result always belongs to a coin with a live
    state. *)
Lemma roundReach_live cfg round yday getMinDate syms sts act s fl res :
  roundReach cfg round yday getMinDate syms sts act (s, fl) →
  rTask res ∈ fl →
  ∃ st, states s !! tCoinID (rTask res) = Some st ∧ Done st = false.
Proof.
  intros [_ Hlive]%roundReach_inv Hin. simpl in Hlive.
  rewrite Forall_forall in Hlive. apply Hlive.
  apply elem_of_app. by right.
Qed.
End RoundProps.

(** ** C1: the completion rule *)

Lemma countResult_Done res st : Done (countResult res st) = Done st.
Proof. unfold countResult. by repeat case_match. Qed.

Lemma checkDone_completion cfg st :
  Done st = false → (Done (checkDone cfg st) = true ↔ completion cfg (checkDone cfg st)).
Proof.
  intros Hd. unfold checkDone, completion.
  destruct st as [se sem seen ce dn]. simpl in *. subst dn.
  destruct seen; simpl.
  - destruct (EmptyStopBlocks cfg <=? ce) eqn:He; simpl;
      [apply Z.leb_le in He | apply Z.leb_gt in He].
    + split; [intros _; left; done | done].
    + split; [done | intros [[_ ?]|[? _]]; [lia | done]].
  - destruct (MaxSearchBlocks cfg <=? sem) eqn:He; simpl;
      [apply Z.leb_le in He | apply Z.leb_gt in He].
    + split; [intros _; right; done | done].
    + split; [done | intros [[? _]|[_ ?]]; [done | lia]].
Qed.

Lemma onResultBackfill_terminal `{GoStrings} cfg s res st :
  states s !! tCoinID (rTask res) = Some st → Done st = false →
  needsRetry cfg res = false →
  states (onResultBackfill cfg s res) !! tCoinID (rTask res)
  = Some (checkDone cfg (countResult res st)).
Proof.
  intros Hst Hd Hr. unfold onResultBackfill. rewrite Hst, Hd, Hr. simpl.
  apply lookup_insert_eq.
Qed.

(** The state of a coin that has seen no data, after [k] empty windows. *)
Lemma search_progress `{GoStrings} cfg id rs : ∀ s st k,
  MaxSearchBlocks cfg = 30 →
  Forall (λ res, tCoinID (rTask res) = id ∧ rEmpty res = true
                 ∧ rMissingDates res = []) rs →
  states s !! id = Some st →
  0 ≤ k → SeenData st = false → SearchEmpty st = Z.min k 30 →
  Done st = bool_decide (30 ≤ k) →
  ∃ st', states (fold_left (onResultBackfill cfg) rs s) !! id = Some st'
         ∧ SeenData st' = false
         ∧ SearchEmpty st' = Z.min (k + Z.of_nat (length rs)) 30
         ∧ Done st' = bool_decide (30 ≤ k + Z.of_nat (length rs)).
Proof.
  induction rs as [|res rs IH]; intros s st k Hmax Hrs Hst Hk Hseen Hse Hdone.
  - exists st. simpl. rewrite Z.add_0_r. done.
  - apply Forall_cons in Hrs as [(Hid & Hempty & Hmiss) Hrs].
    replace (k + Z.of_nat (length (res :: rs)))
      with ((k + 1) + Z.of_nat (length rs)) by (simpl length; lia).
    simpl. destruct st as [se sem seen ce dn]. simpl in *. subst seen sem dn.
    destruct (decide (30 ≤ k)) as [Hge|Hlt].
    + rewrite (bool_decide_eq_true_2 _ Hge) in Hst.
      apply (IH _ (mkCoinState se (Z.min k 30) false ce true));
        try done; simpl; try lia.
      * unfold onResultBackfill. by rewrite Hid, Hst.
      * rewrite bool_decide_eq_true_2 by lia. done.
    + rewrite (bool_decide_eq_false_2 _ Hlt) in Hst.
      assert (states (onResultBackfill cfg s res) !! id
              = Some (mkCoinState (dateOnlyUTC (AddDays (tFrom (rTask res)) (-1)))
                        (k + 1) false ce (bool_decide (30 ≤ k + 1)))) as Hst'.
      { unfold onResultBackfill. rewrite Hid, Hst. simpl.
        unfold needsRetry. rewrite Hmiss. simpl.
        rewrite lookup_insert_eq. f_equal.
        unfold countResult, blockHasData. rewrite Hempty, andb_false_r. simpl.
        unfold checkDone. simpl. rewrite Hmax.
        replace (Z.min k 30 + 1) with (k + 1) by lia.
        destruct (30 <=? k + 1) eqn:He; simpl;
          [apply Z.leb_le in He | apply Z.leb_gt in He].
        - by rewrite bool_decide_eq_true_2.
        - by rewrite bool_decide_eq_false_2 by lia. }
      apply (IH _ _ (k + 1) Hmax Hrs Hst'); simpl; [lia | done | lia | done].
Qed.

(** C1. In a round of the backfill, draining a terminal (not requeued)
    result leaves the coin of the result done exactly when it has seen data
    and its count of consecutive empty windows has reached
    [EmptyStopBlocks], or it has seen no data and its count of empty search
    windows has reached [MaxSearchBlocks]. With [MaxSearchBlocks = 30], a
    coin starting from its initial state whose windows all come back empty
    (one terminal result per round, the floor never reached) has seen no
    data and is done exactly from the thirtieth such result on. *)
Theorem C1_completion_rule `{GoStrings} :
  (∀ cfg round yday getMinDate syms sts act s fl res,
     roundReach cfg round yday getMinDate syms sts act (s, fl) →
     rTask res ∈ fl →
     needsRetry cfg res = false →
     ∃ st', states (onResultBackfill cfg s res) !! tCoinID (rTask res) = Some st'
            ∧ (Done st' = true ↔ completion cfg st'))
  ∧ (∀ cfg id yday s rs,
       MaxSearchBlocks cfg = 30 →
       states s !! id = Some (mkCoinState yday 0 false 0 false) →
       Forall (λ res, tCoinID (rTask res) = id ∧ rEmpty res = true
                      ∧ rMissingDates res = []) rs →
       ∃ st', states (fold_left (onResultBackfill cfg) rs s) !! id = Some st'
              ∧ SeenData st' = false
              ∧ (Done st' = true ↔ (30 ≤ length rs)%nat)).
Proof.
  split.
  - intros cfg round yday getMinDate syms sts act s fl res Hreach Hin Hterm.
    destruct (roundReach_live _ _ _ _ _ _ _ _ _ _ Hreach Hin) as (st & Hst & Hd).
    eexists. split; [by apply onResultBackfill_terminal|].
    apply checkDone_completion. by rewrite countResult_Done.
  - intros cfg id yday s rs Hmax Hst Hrs.
    destruct (search_progress cfg id rs s _ 0 Hmax Hrs Hst) as (st' & ? & ? & _ & Hd);
      [done | done | done | done |].
    exists st'. split; [done|]. split; [done|]. rewrite Hd, bool_decide_eq_true. lia.
Qed.

(** ** handleTask: running the monad *)

Section WorkerProps.
Context `{Float64}.

Lemma run_bind {A B} (m : M A) (f : A → M B) w :
  (m ≫= f) w = let '(a, l1) := m w in let '(b, l2) := f a w in (b, l1 ++ l2).
Proof. reflexivity. Qed.

Lemma run_ret {A} (a : A) w : (mret a : M A) w = (a, []).
Proof. reflexivity. Qed.

Lemma getExistingDays_run site tbl coin from to w :
  getExistingDays site tbl coin from to w
  = ((getExistingDays site tbl coin from to w).1, [CallQuery site tbl coin from to]).
Proof. reflexivity. Qed.

(** [handleTask], return statement by return statement. *)
Lemma handleTask_run cfg t w :
  handleTask cfg t w
  = match pathOf w cfg t with
    | FastPath =>
        (mkTaskResult t 0 0 false 200 "" [] false, [queryCall cfg t PreCheck])
    | FetchFailed =>
        (mkTaskResult t 0 0 true (fStatus (fetched w cfg t).1)
           (default "" (fErr (fetched w cfg t).1) +:+ "; body="
              +:+ truncate (fBody (fetched w cfg t).1) 300) [] false,
         queryCall cfg t PreCheck :: (fetched w cfg t).2)
    | NoDays =>
        (mkTaskResult t 0 0 true 200 "" [] false,
         queryCall cfg t PreCheck :: (fetched w cfg t).2)
    | InsertFailed =>
        (mkTaskResult t 0 (Z.of_nat (length (apiDaysOf w cfg t))) false 200
           (default "" (insertedFor w cfg t).1.2) [] false,
         queryCall cfg t PreCheck :: (fetched w cfg t).2
           ++ fallbackCalls w cfg t ++ (insertedFor w cfg t).2)
    | Completed =>
        (mkTaskResult t (insertedFor w cfg t).1.1
           (Z.of_nat (length (apiDaysOf w cfg t))) false 200 ""
           (missingFor w cfg t)
           (activeNowOf t (yesterdayUTC (wNow w)) (apiDaysOf w cfg t)),
         queryCall cfg t PreCheck :: (fetched w cfg t).2
           ++ fallbackCalls w cfg t ++ (insertedFor w cfg t).2
           ++ [queryCall cfg t Verify; CallNow])
    end.
Proof.
  unfold handleTask, pathOf, fastPath, insertedFor, toInsertFor, missingFor,
    fallbackCalls, existingFor, apiDaysOf, byDayOf.
  rewrite run_bind, (getExistingDays_run PreCheck). fold (queryCall cfg t PreCheck).
  fold (existingAt w cfg t PreCheck).
  destruct (existingAt w cfg t PreCheck) as [existing err] eqn:Hpre. simpl fst.
  match goal with
  | |- context [if ?c then FastPath else _] => destruct c eqn:Hfast
  end; [done|].
  rewrite run_bind. fold (fetched w cfg t).
  destruct (fetched w cfg t) as [r l2] eqn:Hf. simpl fst; simpl snd.
  destruct (fErr r) as [e|] eqn:He; [by rewrite run_ret, app_nil_r|].
  match goal with
  | |- context [if ?c then NoDays else _] => destruct c eqn:Hsize
  end; [by rewrite run_ret, app_nil_r|].
  rewrite run_bind.
  assert ((match existing with
           | Some _ => mret existing
           | None => getExistingDays Fallback (CHTable cfg) (tCoinID t) (tFrom t) (tTo t)
                     ≫= λ '(e, _), mret e
           end : M _) w
          = (match existing with
             | Some e => Some e
             | None => (existingAt w cfg t Fallback).1
             end,
             match existing with
             | Some _ => []
             | None => [queryCall cfg t Fallback]
             end)) as ->.
  { destruct existing; [done|]. rewrite run_bind, (getExistingDays_run Fallback).
    fold (existingAt w cfg t Fallback).
    by destruct (existingAt w cfg t Fallback). }
  rewrite run_bind.
  destruct (insertDailyPoints _ _ w) as [[ins insErr] l4]. simpl fst; simpl snd.
  destruct insErr as [e|]; [by rewrite run_ret, app_nil_r|].
  rewrite run_bind, (getExistingDays_run Verify). fold (existingAt w cfg t Verify).
  destruct (existingAt w cfg t Verify) as [after err2].
  rewrite run_bind. unfold timeNow, call. rewrite run_ret. simpl.
  done.
Qed.


(** *** The retry loop *)

Lemma MarketChartRange_run a id vs from to interval w :
  MarketChartRange a id vs from to interval w
  = ((MarketChartRange a id vs from to interval w).1,
     [CallGet a id vs from to interval]).
Proof.
  unfold MarketChartRange. rewrite run_bind. unfold call.
  destruct (hErr _); [done|].
  rewrite run_bind. unfold unmarshal. by destruct (wUnmarshal _ _).
Qed.

Lemma fetchLoop_run cfg t attempts lastr w :
  ∃ tried rest,
    attempts = tried ++ rest
    ∧ attemptsOf (fetchLoop cfg t (formatDate (tFrom t)) (formatDate (tTo t))
                    attempts lastr w).2 = tried
    ∧ Forall isFetchCall (fetchLoop cfg t (formatDate (tFrom t))
                            (formatDate (tTo t)) attempts lastr w).2
    ∧ (∀ i a, tried !! i = Some a → (S i < length tried)%nat →
         fErr (fetchAt w cfg t a) ≠ None
         ∧ isRetryableStatus (fStatus (fetchAt w cfg t a)) = true)
    ∧ (fetchLoop cfg t (formatDate (tFrom t)) (formatDate (tTo t))
         attempts lastr w).1
      = from_option (fetchAt w cfg t) lastr (last tried)
    ∧ (tried = [] → attempts = [])
    ∧ (∀ a, last tried = Some a → fErr (fetchAt w cfg t a) ≠ None →
         isRetryableStatus (fStatus (fetchAt w cfg t a)) = true → rest = []).
Proof.
  revert lastr. induction attempts as [|a attempts IH]; intros lastr.
  { exists [], []. simpl. split_and!; try done. }
  simpl. rewrite run_bind, MarketChartRange_run.
  fold (fetchAt w cfg t a).
  destruct (fErr (fetchAt w cfg t a)) as [e|] eqn:He.
  - destruct (isRetryableStatus (fStatus (fetchAt w cfg t a))) eqn:Hr; simpl.
    + rewrite run_bind. unfold sleep at 1, call at 1.
      destruct (IH (fetchAt w cfg t a)) as (tried & rest & Hsplit & Hlog & Hcalls
                                            & Hretry & Hres & Hnil & Hlast).
      destruct (fetchLoop _ _ _ _ _ _ w) as [r log]. simpl in *.
      exists (a :: tried), rest. split_and!.
      * by rewrite Hsplit.
      * by rewrite Hlog.
      * by repeat constructor.
      * intros [|i] a0; simpl.
        -- intros [= <-] _. by rewrite He.
        -- intros Hi Hlen. apply (Hretry i a0 Hi). lia.
      * rewrite Hres. destruct tried as [|a' tried]; [done|].
        rewrite last_cons_cons.
        destruct (proj2 (last_is_Some (a' :: tried))) as [x ->]; done.
      * done.
      * destruct tried as [|a' tried].
        -- intros _ _ _ _. rewrite Hnil in Hsplit by done. by destruct rest.
        -- rewrite last_cons_cons. apply Hlast.
    + exists [a], attempts. simpl.
      split_and!; try done.
      * by repeat constructor.
      * intros i a0 _ Hlen. lia.
      * intros a0 [= <-] _ Hr'. congruence.
  - exists [a], attempts. simpl.
    split_and!; try done.
    * by repeat constructor.
    * intros i a0 _ Hlen. lia.
    * intros a0 [= <-] He'. congruence.
Qed.

(** *** What the log of a run contains *)

Lemma fetch_calls_only l :
  Forall isFetchCall l → batchesOf l = [] ∧ sitesOf l = [].
Proof.
  induction 1 as [|c l Hc _ [IH1 IH2]]; [done|].
  unfold batchesOf, sitesOf in *. destruct c; simpl in *; done.
Qed.

Lemma fetched_calls w cfg t : Forall isFetchCall (fetched w cfg t).2.
Proof.
  unfold fetched.
  destruct (fetchLoop_run cfg t (seqZ 0 (MaxRetriesPerBlock cfg + 1))
              (mkFetch emptyResp 0 "" None) w) as (? & ? & _ & _ & Hc & _).
  done.
Qed.

Lemma insertedFor_log w cfg t :
  (insertedFor w cfg t).2
  = if bool_decide (length (toInsertFor w cfg t) = 0%nat) then []
    else [CallExec (CHTable cfg) (toInsertFor w cfg t)].
Proof.
  unfold insertedFor, insertDailyPoints. case_bool_decide; [done|].
  rewrite run_bind. unfold call. by destruct (wExec _ _ _).
Qed.

Lemma attemptsOf_app l1 l2 : attemptsOf (l1 ++ l2) = attemptsOf l1 ++ attemptsOf l2.
Proof. apply omap_app. Qed.

Lemma batchesOf_app l1 l2 : batchesOf (l1 ++ l2) = batchesOf l1 ++ batchesOf l2.
Proof. apply omap_app. Qed.

Lemma sitesOf_app l1 l2 : sitesOf (l1 ++ l2) = sitesOf l1 ++ sitesOf l2.
Proof. apply omap_app. Qed.

Lemma attemptsOf_cons c l : attemptsOf (c :: l) = attemptsOf [c] ++ attemptsOf l.
Proof. apply (omap_app _ [c]). Qed.

Lemma batchesOf_cons c l : batchesOf (c :: l) = batchesOf [c] ++ batchesOf l.
Proof. apply (omap_app _ [c]). Qed.

Lemma sitesOf_cons c l : sitesOf (c :: l) = sitesOf [c] ++ sitesOf l.
Proof. apply (omap_app _ [c]). Qed.

Lemma handleTask_attempts cfg t w :
  attemptsOf (handleTask cfg t w).2
  = match pathOf w cfg t with
    | FastPath => []
    | _ => attemptsOf (fetched w cfg t).2
    end.
Proof.
  rewrite handleTask_run.
  assert (attemptsOf (fallbackCalls w cfg t) = []) as Hfb.
  { unfold fallbackCalls. by case_match. }
  assert (attemptsOf (insertedFor w cfg t).2 = []) as Hins.
  { rewrite insertedFor_log. by case_match. }
  destruct (pathOf w cfg t); cbn [snd]; try done;
    rewrite attemptsOf_cons, ?attemptsOf_app, ?Hfb, ?Hins; simpl;
    by rewrite ?app_nil_r.
Qed.

Lemma handleTask_batches cfg t w :
  batchesOf (handleTask cfg t w).2
  = match pathOf w cfg t with
    | InsertFailed | Completed =>
        if bool_decide (length (toInsertFor w cfg t) = 0%nat) then []
        else [toInsertFor w cfg t]
    | _ => []
    end.
Proof.
  rewrite handleTask_run.
  destruct (fetch_calls_only _ (fetched_calls w cfg t)) as [Hf _].
  assert (batchesOf (fallbackCalls w cfg t) = []) as Hfb.
  { unfold fallbackCalls. by case_match. }
  assert (batchesOf (insertedFor w cfg t).2
          = if bool_decide (length (toInsertFor w cfg t) = 0%nat) then []
            else [toInsertFor w cfg t]) as Hins.
  { rewrite insertedFor_log. by case_match. }
  destruct (pathOf w cfg t); cbn [snd]; try done;
    rewrite batchesOf_cons, ?batchesOf_app, ?Hf, ?Hfb, ?Hins; simpl;
    by rewrite ?app_nil_r.
Qed.

Lemma handleTask_sites cfg t w :
  sitesOf (handleTask cfg t w).2
  = match pathOf w cfg t with
    | FastPath | FetchFailed | NoDays => [PreCheck]
    | InsertFailed => PreCheck :: sitesOf (fallbackCalls w cfg t)
    | Completed => PreCheck :: sitesOf (fallbackCalls w cfg t) ++ [Verify]
    end.
Proof.
  rewrite handleTask_run.
  destruct (fetch_calls_only _ (fetched_calls w cfg t)) as [_ Hf].
  assert (sitesOf (insertedFor w cfg t).2 = []) as Hins.
  { rewrite insertedFor_log. by case_match. }
  destruct (pathOf w cfg t); cbn [snd]; try done;
    rewrite sitesOf_cons, ?sitesOf_app, ?Hf, ?Hins; simpl;
    by rewrite ?app_nil_r.
Qed.

Lemma fallback_not_verify w cfg t : Verify ∉ sitesOf (fallbackCalls w cfg t).
Proof.
  unfold fallbackCalls. case_match; simpl.
  - apply not_elem_of_nil.
  - intros [=]%list_elem_of_singleton.
Qed.

(** The verification query is made on the last return only. *)
Lemma verify_completed cfg t w :
  Verify ∈ sitesOf (handleTask cfg t w).2 ↔ pathOf w cfg t = Completed.
Proof.
  rewrite handleTask_sites. pose proof (fallback_not_verify w cfg t) as Hfb.
  destruct (pathOf w cfg t); split; try done.
  - intros [=]%list_elem_of_singleton.
  - intros [=]%list_elem_of_singleton.
  - intros [=]%list_elem_of_singleton.
  - intros [[=]|?]%elem_of_cons. done.
  - intros _. right. apply elem_of_app. right. by left.
Qed.
End WorkerProps.

(** ** C5: the fast path *)

(** C5. For a task with retry count 0 and [From <= To], when the first
    query of the store succeeds and returns every calendar day of the
    window, [handleTask] returns a result with [Inserted = 0] and
    [Empty = false], and the log of the run holds no call of the remote
    fetch. *)
Theorem C5_fast_path `{Float64} cfg t w rows :
  tRetry t = 0 →
  tFrom t ≤ tTo t →
  wQuery w PreCheck (CHTable cfg) (tCoinID t) (tFrom t) (tTo t) = RowsRead rows None →
  (list_to_set rows : gset DayKey)
  = list_to_set (formatDate <$> daysInclusive (tFrom t) (tTo t)) →
  rInserted (handleTask cfg t w).1 = 0
  ∧ rEmpty (handleTask cfg t w).1 = false
  ∧ attemptsOf (handleTask cfg t w).2 = [].
Proof.
  intros Hretry Hle Hq Hrows.
  assert (pathOf w cfg t = FastPath) as Hpath.
  { unfold pathOf, fastPath, existingAt, getExistingDays.
    rewrite run_bind. unfold call. rewrite Hq. simpl.
    rewrite Hretry, Hrows. simpl.
    pose proof (dayKey_mono _ _ Hle) as Hk.
    rewrite size_list_to_set.
    - rewrite length_fmap, Z.eqb_refl. simpl.
      rewrite (daysInclusive_length _ _ Hk).
      by rewrite (proj2 (Z.ltb_lt _ _)) by lia.
    - rewrite daysInclusive_keys by done. apply NoDup_seqZ. }
  rewrite handleTask_attempts, handleTask_run, Hpath. done.
Qed.


(** ** C6: the retry loop of the fetch *)

Lemma seqZ_prefix a n (l1 l2 : list Z) :
  seqZ a n = l1 ++ l2 → l1 = seqZ a (Z.of_nat (length l1)).
Proof.
  revert a n. induction l1 as [|x l1 IH]; intros a n Heq; [done|].
  destruct (decide (0 < n)) as [Hn|Hn]; [|by rewrite seqZ_nil in Heq by lia].
  rewrite seqZ_cons in Heq by done. simpl in Heq. injection Heq as <- Heq.
  rewrite seqZ_cons by (simpl; lia). f_equal.
  rewrite (IH _ _ Heq) at 1. f_equal. simpl. lia.
Qed.

Lemma append_not_empty (a b : string) : b ≠ "" → a +:+ b ≠ "".
Proof. intros Hb. destruct a; simpl; [done | discriminate]. Qed.

Section FetchProps.
Context `{Float64}.

(** The attempts of a run that leaves the fast path. *)
Lemma fetched_attempts w cfg t :
  ∃ tried rest,
    seqZ 0 (MaxRetriesPerBlock cfg + 1) = tried ++ rest
    ∧ attemptsOf (fetched w cfg t).2 = tried
    ∧ tried = seqZ 0 (Z.of_nat (length tried))
    ∧ (∀ a, a ∈ tried → a + 1 ∈ tried →
         fErr (fetchAt w cfg t a) ≠ None
         ∧ isRetryableStatus (fStatus (fetchAt w cfg t a)) = true)
    ∧ (∀ a, last tried = Some a → (fetched w cfg t).1 = fetchAt w cfg t a)
    ∧ (∀ a, last tried = Some a → fErr (fetchAt w cfg t a) ≠ None →
         isRetryableStatus (fStatus (fetchAt w cfg t a)) = true → rest = []).
Proof.
  unfold fetched.
  destruct (fetchLoop_run cfg t (seqZ 0 (MaxRetriesPerBlock cfg + 1))
              (mkFetch emptyResp 0 "" None) w)
    as (tried & rest & Hsplit & Hlog & _ & Hretry & Hres & _ & Hlast).
  exists tried, rest. pose proof (seqZ_prefix _ _ _ _ Hsplit) as Hseq.
  split_and!; try done.
  - intros a Ha Ha'. rewrite Hseq in Ha, Ha'.
    apply elem_of_seqZ in Ha, Ha'.
    apply (Hretry (Z.to_nat a)); [|lia].
    rewrite Hseq. rewrite lookup_seqZ_lt by lia. f_equal. lia.
  - intros a Ha. by rewrite Hres, Ha.
Qed.

Lemma fetch_failed_result w cfg t :
  pathOf w cfg t = FetchFailed →
  failedResult (handleTask cfg t w).1 (handleTask cfg t w).2.
Proof.
  intros Hpath. unfold failedResult.
  rewrite handleTask_batches, handleTask_run, Hpath. simpl.
  split_and!; try done.
  apply append_not_empty. simpl. done.
Qed.

Lemma pathOf_fetch_failed w cfg t :
  attemptsOf (handleTask cfg t w).2 ≠ [] →
  fErr (fetched w cfg t).1 ≠ None → pathOf w cfg t = FetchFailed.
Proof.
  rewrite handleTask_attempts. unfold pathOf.
  destruct (fastPath w cfg t); [done|]. intros _.
  by destruct (fErr (fetched w cfg t).1).
Qed.
End FetchProps.

(** C6. In a run of [handleTask] the fetch attempts are numbered 0, 1, 2,
    ... and never exceed [MaxRetriesPerBlock]; an attempt is followed by
    another one only when it failed with a status in 0, 408, 425, 429, 500,
    502, 503, 504 and the budget is not exhausted. When an attempt fails
    with any other status, or attempt number [MaxRetriesPerBlock] fails, the
    result has [Empty = true], a non-empty error text, [Inserted = 0],
    [APIDays = 0], and no batch is handed to the store. *)
Theorem C6_fetch_retry `{Float64} cfg t w :
  let res := (handleTask cfg t w).1 in
  let log := (handleTask cfg t w).2 in
  let tried := attemptsOf log in
  let failed a := fErr (fetchAt w cfg t a) ≠ None in
  let status a := fStatus (fetchAt w cfg t a) in
  (∀ code, isRetryableStatus code = true
           ↔ code ∈ [0; 408; 425; 429; 500; 502; 503; 504])
  ∧ tried = seqZ 0 (Z.of_nat (length tried))
  ∧ Z.of_nat (length tried) ≤ Z.max 0 (MaxRetriesPerBlock cfg + 1)
  ∧ (∀ a, a ∈ tried → a + 1 ∈ tried →
       failed a ∧ isRetryableStatus (status a) = true ∧ a < MaxRetriesPerBlock cfg)
  ∧ (∀ a, a ∈ tried → failed a → isRetryableStatus (status a) = false →
       failedResult res log)
  ∧ (MaxRetriesPerBlock cfg ∈ tried → failed (MaxRetriesPerBlock cfg) →
       failedResult res log).
Proof.
  intros res log tried failed status. subst failed status. cbv beta.
  split.
  { intros code. unfold isRetryableStatus.
    destruct (code =? 0) eqn:H0; [apply Z.eqb_eq in H0 | apply Z.eqb_neq in H0].
    - subst. split; [intros _; left | done].
    - case_bool_decide as Hin.
      + split; [intros _; by right | done].
      + split; [done|]. intros [?|?]%elem_of_cons; done. }
  destruct (fetched_attempts w cfg t)
    as (tr & rest & Hsplit & Hlog & Hseq & Hretry & Hres & Hlast).
  assert (tried = [] ∨ tried = tr) as [Hnil|Htr].
  { subst tried log. rewrite handleTask_attempts.
    destruct (pathOf w cfg t); auto. }
  { rewrite Hnil. simpl. split_and!; try done; try lia.
    - intros a []%elem_of_nil.
    - intros a []%elem_of_nil.
    - intros []%elem_of_nil. }
  assert (Z.of_nat (length tr) ≤ Z.max 0 (MaxRetriesPerBlock cfg + 1)) as Hlen.
  { apply (f_equal length) in Hsplit.
    rewrite length_seqZ, length_app in Hsplit. lia. }
  rewrite Htr. split_and!; try done.
  - intros a Ha Ha'. destruct (Hretry a Ha Ha') as [? ?]. split_and!; try done.
    rewrite Hseq in Ha'. apply elem_of_seqZ in Ha'. lia.
  - intros a Ha Hfail Hperm.
    assert (last tr = Some a) as Hl.
    { destruct (decide (a + 1 ∈ tr)) as [Hin|Hout].
      - destruct (Hretry a Ha Hin). congruence.
      - rewrite Hseq in Ha, Hout |- *. rewrite elem_of_seqZ in Ha, Hout.
        destruct (length tr) as [|n] eqn:Hn; [lia|].
        rewrite seqZ_S, last_snoc. f_equal. lia. }
    apply fetch_failed_result, pathOf_fetch_failed.
    + fold log tried. rewrite Htr. by intros ->.
    + by rewrite (Hres a Hl).
  - intros Ha Hfail.
    assert (last tr = Some (MaxRetriesPerBlock cfg)) as Hl.
    { rewrite Hseq in Ha |- *. rewrite elem_of_seqZ in Ha.
      destruct (length tr) as [|n] eqn:Hn; [lia|].
      rewrite seqZ_S, last_snoc. f_equal. lia. }
    apply fetch_failed_result, pathOf_fetch_failed.
    + fold log tried. rewrite Htr. by intros ->.
    + by rewrite (Hres _ Hl).
Qed.

(** ** Sorted day lists *)


Lemma sortDays_length l : length (sortDays l) = length l.
Proof. unfold sortDays. by rewrite merge_sort_Permutation. Qed.




Section VerifyProps.
Context `{Float64}.


Lemma apiDaysOf_length w cfg t :
  length (apiDaysOf w cfg t) = size (byDayOf w cfg t).
Proof. unfold apiDaysOf. by rewrite sortDays_length, <- size_dom. Qed.


Lemma pathOf_has_days w cfg t :
  pathOf w cfg t = InsertFailed ∨ pathOf w cfg t = Completed →
  (0 < length (apiDaysOf w cfg t))%nat.
Proof.
  rewrite apiDaysOf_length. unfold pathOf.
  destruct (fastPath w cfg t); [by intros [|]|].
  destruct (fErr _); [by intros [|]|].
  case_bool_decide; [by intros [|]|]. lia.
Qed.
End VerifyProps.

(** ** C10: a failed verification query *)

Lemma onResultBackfill_pending `{GoStrings} cfg s res :
  needsRetry cfg res = false → pending (onResultBackfill cfg s res) = pending s.
Proof.
  intros Hr. unfold onResultBackfill. rewrite Hr.
  destruct (states s !! _) as [st|]; [|done]. by destruct (Done st).
Qed.

Lemma onResultIncremental_pending cfg s res :
  needsRetry cfg res = false → ipending (onResultIncremental cfg s res) = ipending s.
Proof. intros Hr. unfold onResultIncremental. rewrite Hr. by case_match. Qed.

(** C10. When [handleTask] makes its verification query after the insert
    and the query fails, the result carries no missing date and no error
    text; it counts as a window with data, and neither scheduler requeues
    the task: the pending queue of the backfill and of the incremental pass
    are left as they were. *)
Theorem C10_verify_failure `{Float64} `{GoStrings} cfg t w e :
  Verify ∈ sitesOf (handleTask cfg t w).2 →
  (existingAt w cfg t Verify).2 = Some e →
  let res := (handleTask cfg t w).1 in
  rMissingDates res = []
  ∧ rErr res = ""
  ∧ blockHasData res = true
  ∧ needsRetry cfg res = false
  ∧ (∀ s, pending (onResultBackfill cfg s res) = pending s)
  ∧ (∀ s, ipending (onResultIncremental cfg s res) = ipending s).
Proof.
  intros Hsite%verify_completed Hfail res.
  assert (rMissingDates res = [] ∧ rErr res = "" ∧ blockHasData res = true)
    as (Hm & He & Hd).
  { subst res. rewrite handleTask_run, Hsite. simpl.
    unfold missingFor. destruct (existingAt w cfg t Verify) as [after err2].
    simpl in Hfail. subst err2. split_and!; try done.
    unfold blockHasData. simpl.
    pose proof (pathOf_has_days w cfg t (or_intror Hsite)).
    apply Z.ltb_lt. lia. }
  assert (needsRetry cfg res = false) as Hr.
  { unfold needsRetry. by rewrite Hm. }
  split_and!; try done.
  - intros s. by apply onResultBackfill_pending.
  - intros s. by apply onResultIncremental_pending.
Qed.

(** ** C9: the liveness tag *)




(** ** C7: aggregation by calendar day *)

Section AggregationProps.
Context `{Float64}.

Lemma samplesOn_cons d row arr :
  samplesOn d (row :: arr)
  = match sampleOf row with
    | Some s => if dayKey s.1 =? d then s :: samplesOn d arr else samplesOn d arr
    | None => samplesOn d arr
    end.
Proof. unfold samplesOn. simpl. by destruct (sampleOf row). Qed.

Lemma applyRow_other kind m row d :
  (∀ s, sampleOf row = Some s → dayKey s.1 ≠ d) →
  applyRow kind m row !! d = m !! d.
Proof.
  intros Hs. unfold applyRow. destruct row as [|r0 [|val row]]; [done | done |].
  rewrite lookup_insert_ne; [done|]. by apply (Hs (float_to_int64 r0, val)).
Qed.

Lemma applyRow_same kind m r0 val row :
  applyRow kind m (r0 :: val :: row) !! dayKey (float_to_int64 r0)
  = Some (updated kind (float_to_int64 r0) val (m !! dayKey (float_to_int64 r0))).
Proof.
  unfold applyRow, updated. rewrite lookup_insert_eq.
  by destruct (m !! dayKey (float_to_int64 r0)).
Qed.

Lemma last_app_singleton {A} (l : list A) x d : default d (last (l ++ [x])) = x.
Proof. by rewrite last_snoc. Qed.

Lemma represents_step kind o ts val seen ps mcs vs :
  kind ∈ ["p"; "mc"; "v"] →
  represents o seen ps mcs vs →
  represents (Some (updated kind ts val o)) (seen ++ [ts])
    (ps ++ valuesFor kind "p" [(ts, val)])
    (mcs ++ valuesFor kind "mc" [(ts, val)])
    (vs ++ valuesFor kind "v" [(ts, val)]).
Proof.
  intros Hkind Hr. unfold updated. cbv zeta.
  assert (∀ a, a_ts (setMetric kind val a) = a_ts a) as Hts.
  { intros a. unfold setMetric. by repeat case_bool_decide. }
  assert (∃ b, (let a := default (mkAgg ts float_zero float_zero float_zero) o in
                if After ts (a_ts a) then mkAgg ts (a_p a) (a_mc a) (a_v a) else a) = b
               ∧ a_ts b ∈ seen ++ [ts]
               ∧ (∀ x, x ∈ seen ++ [ts] → x ≤ a_ts b)
               ∧ a_p b = default float_zero (last ps)
               ∧ a_mc b = default float_zero (last mcs)
               ∧ a_v b = default float_zero (last vs))
    as (b & Hb & Hin & Hmax & Hp & Hm & Hv).
  { destruct o as [a|]; simpl in *.
    - destruct Hr as (Hin & Hmax & Hp & Hm & Hv). unfold After.
      destruct (a_ts a <? ts) eqn:Hlt;
        [apply Z.ltb_lt in Hlt | apply Z.ltb_ge in Hlt]; eexists; split; try done;
        simpl; split_and!; try done.
      + apply elem_of_app. right. by left.
      + intros x [Hx|Hx%list_elem_of_singleton]%elem_of_app; [|by subst].
        specialize (Hmax x Hx). lia.
      + apply elem_of_app. by left.
      + intros x [Hx|Hx%list_elem_of_singleton]%elem_of_app;
          [by apply Hmax | by subst].
    - destruct Hr as (-> & -> & -> & ->). unfold After. rewrite Z.ltb_irrefl.
      eexists; split; [done|]. simpl. split_and!; try done.
      + by left.
      + by intros x ->%list_elem_of_singleton. }
  cbv zeta in Hb. rewrite Hb. unfold represents. rewrite Hts. split; [done|]. split; [done|].
  unfold valuesFor, setMetric.
  apply elem_of_cons in Hkind as [->|Hkind]; [|apply elem_of_cons in Hkind as [->|Hkind];
    [|apply list_elem_of_singleton in Hkind as ->]]; simpl;
    rewrite ?app_nil_r, ?last_snoc; simpl; done.
Qed.

Lemma apply_represents kind arr : ∀ m d seen ps mcs vs,
  kind ∈ ["p"; "mc"; "v"] →
  represents (m !! d) seen ps mcs vs →
  represents (apply arr kind m !! d)
    (seen ++ (samplesOn d arr).*1)
    (ps ++ valuesFor kind "p" (samplesOn d arr))
    (mcs ++ valuesFor kind "mc" (samplesOn d arr))
    (vs ++ valuesFor kind "v" (samplesOn d arr)).
Proof.
  induction arr as [|row arr IH]; intros m d seen ps mcs vs Hkind Hr.
  { unfold valuesFor. simpl. repeat case_bool_decide; by rewrite !app_nil_r. }
  unfold apply. simpl. fold (apply arr kind (applyRow kind m row)).
  rewrite samplesOn_cons.
  destruct (sampleOf row) as [[ts val]|] eqn:Hs.
  - destruct row as [|r0 [|val' row]]; [done | done |].
    injection Hs as Hts ->. cbn [fst].
    destruct (dayKey ts =? d) eqn:Hd;
      [apply Z.eqb_eq in Hd | apply Z.eqb_neq in Hd].
    + pose proof (represents_step kind (m !! d) ts val seen ps mcs vs Hkind Hr) as Hstep.
      pose proof (applyRow_same kind m r0 val row) as Hsame.
      rewrite Hts, Hd in Hsame. rewrite <- Hsame in Hstep.
      specialize (IH _ d _ _ _ _ Hkind Hstep).
      unfold valuesFor in *. simpl. rewrite <- !app_assoc in IH. simpl in IH.
      repeat case_bool_decide; simpl in *; by rewrite <- ?app_assoc in IH.
    + apply IH; [done|]. rewrite applyRow_other; [done|].
      intros s [= <-]. cbn [fst]. by rewrite Hts.
  - apply IH; [done|]. rewrite applyRow_other; [done|]. by rewrite Hs.
Qed.

Lemma samplesOn_day d arr ts v : (ts, v) ∈ samplesOn d arr → dayKey ts = d.
Proof.
  unfold samplesOn. intros Hs.
  apply list_elem_of_In, filter_In in Hs as [_ Hs]. by apply Z.eqb_eq in Hs.
Qed.

Lemma aggregate_represents resp d :
  represents (aggregate resp !! d)
    (samplesOn d (Prices resp) ++ samplesOn d (MarketCaps resp)
       ++ samplesOn d (TotalVolumes resp)).*1
    (samplesOn d (Prices resp)).*2
    (samplesOn d (MarketCaps resp)).*2
    (samplesOn d (TotalVolumes resp)).*2.
Proof.
  assert (represents ((∅ : gmap DayKey dailyAgg) !! d) [] [] [] []) as H0.
  { by rewrite lookup_empty. }
  apply (apply_represents "p" (Prices resp)) in H0; [|set_solver].
  apply (apply_represents "mc" (MarketCaps resp)) in H0; [|set_solver].
  apply (apply_represents "v" (TotalVolumes resp)) in H0; [|set_solver].
  unfold valuesFor in H0. simpl in H0. rewrite !app_nil_r in H0.
  by rewrite !fmap_app, app_assoc.
Qed.

(** The timestamp of a record lies on the day it is filed under. *)
Lemma aggregate_key resp d a :
  aggregate resp !! d = Some a → dayKey (a_ts a) = d.
Proof.
  intros Ha. pose proof (aggregate_represents resp d) as Hr.
  rewrite Ha in Hr. destruct Hr as (Hin & _).
  apply list_elem_of_fmap in Hin as ([ts v] & -> & Hin). simpl.
  rewrite !elem_of_app in Hin. destruct Hin as [?|[?|?]]; by eapply samplesOn_day.
Qed.
End AggregationProps.

(** C7. [aggregate] folds the three fetched series into a map with at most
    one record per calendar day. A day with no well-formed sample in any of
    the three series has no record. The record of any other day carries, for
    each metric, the value of the last sample of that metric's series on
    that day (the zero value when the series has none), and as timestamp
    the latest timestamp among all the samples of that day, which lies on
    that day. *)
Theorem C7_aggregation `{Float64} resp d :
  let sp := samplesOn d (Prices resp) in
  let sm := samplesOn d (MarketCaps resp) in
  let sv := samplesOn d (TotalVolumes resp) in
  let seen := (sp ++ sm ++ sv).*1 in
  match aggregate resp !! d with
  | None => seen = []
  | Some a =>
      a_ts a ∈ seen
      ∧ (∀ x, x ∈ seen → x ≤ a_ts a)
      ∧ dayKey (a_ts a) = d
      ∧ a_p a = default float_zero (last sp.*2)
      ∧ a_mc a = default float_zero (last sm.*2)
      ∧ a_v a = default float_zero (last sv.*2)
  end.
Proof.
  intros sp sm sv seen.
  pose proof (aggregate_represents resp d) as H0. fold sp sm sv seen in H0.
  destruct (aggregate resp !! d) as [a|]; simpl in H0.
  - destruct H0 as (Hin & Hmax & Hp & Hm & Hv). split_and!; try done.
    unfold seen in Hin. apply list_elem_of_fmap in Hin as ([ts v] & -> & Hin).
    simpl. rewrite !elem_of_app in Hin.
    destruct Hin as [?|[?|?]]; by eapply samplesOn_day.
  - by destruct H0 as (? & _).
Qed.

(** ** C2: the diff against the store *)

Section DiffProps.
Context `{Float64}.


(** Every row of the batch is the record of one aggregated day. *)
Lemma toInsertOf_points cfg t byDay ex (apiDays : list DayKey) p :
  p ∈ toInsertOf cfg t byDay ex apiDays →
  ∃ d a, d ∈ apiDays ∧ hasDay ex d = false ∧ byDay !! d = Some a
         ∧ p = mkDailyPoint (tCoinID t) (tSymbol t) (VsCurrency cfg)
                 (a_ts a) (a_p a) (a_mc a) (a_v a).
Proof.
  unfold toInsertOf. intros (d & Hd & Hp)%list_elem_of_omap.
  destruct (hasDay ex d) eqn:Hex; [done|].
  destruct (byDay !! d) as [a|] eqn:Ha; [|done].
  injection Hp as <-. by exists d, a.
Qed.





End DiffProps.


(** ** C3 and C4: requeued tasks *)

Lemma needsRetry_true cfg res :
  needsRetry cfg res = true
  ↔ rMissingDates res ≠ [] ∧ tRetry (rTask res) < MaxRetriesPerBlock cfg.
Proof.
  unfold needsRetry. rewrite andb_true_iff, Z.ltb_lt, Z.ltb_lt.
  destruct (rMissingDates res); simpl; split; intros [? ?]; split; try done; lia.
Qed.

Section RequeueProps.
Context `{GoStrings}.


Lemma scheduleCoin_ok cfg round yday getMinDate syms acc e :
  0 ≤ MaxRetriesPerBlock cfg →
  Forall (taskOK cfg) acc.1.1 →
  Forall (taskOK cfg) (scheduleCoin cfg round yday getMinDate syms acc e).1.1.
Proof.
  intros Hmax Hacc. destruct acc as [[pend dc] cur], e as [id st]. simpl in *.
  destruct (Done st); [done|].
  destruct (makeTaskFixedWindow _ _ _ _) as [t ok] eqn:Hmk.
  destruct ok; simpl; [|done].
  apply Forall_app. split; [done|]. apply Forall_singleton.
  by eapply makeTaskFixedWindow_ok.
Qed.

Lemma scheduleRound_ok cfg round yday getMinDate syms l acc :
  0 ≤ MaxRetriesPerBlock cfg →
  Forall (taskOK cfg) acc.1.1 →
  Forall (taskOK cfg)
    (fold_left (scheduleCoin cfg round yday getMinDate syms) l acc).1.1.
Proof.
  intros Hmax. revert acc. induction l as [|e l IH]; intros acc Hacc; [done|].
  simpl. apply IH. by apply scheduleCoin_ok.
Qed.

Lemma backfillStep_ok cfg x y :
  backfillStep cfg x y →
  Forall (taskOK cfg) (pending x.1 ++ x.2) → Forall (taskOK cfg) (pending y.1 ++ y.2).
Proof.
  destruct 1 as [s fl1 fl2 res|s fl next s' Hd]; simpl.
  - rewrite !Forall_app, Forall_cons. intros (Hp & Hf1 & Hres & Hf2).
    assert (Forall (taskOK cfg) (pending (onResultBackfill cfg s res))) as Hp'.
    { unfold onResultBackfill.
      destruct (states s !! _) as [st|]; [|done].
      destruct (Done st); [done|].
      destruct (needsRetry cfg res) eqn:Hr; simpl; [|done].
      constructor; [by apply retryCopy_ok | done]. }
    done.
  - unfold dispatchBackfill in Hd.
    destruct (pending s) as [|t rest] eqn:Hpend; [done|].
    injection Hd as <- <-. simpl.
    rewrite Forall_cons, !Forall_app, Forall_singleton. tauto.
Qed.

Lemma roundReach_ok cfg round yday getMinDate syms sts act x :
  0 ≤ MaxRetriesPerBlock cfg →
  roundReach cfg round yday getMinDate syms sts act x →
  Forall (taskOK cfg) (pending x.1 ++ x.2).
Proof.
  intros Hmax Hr. unfold roundReach in Hr.
  eapply (rtc_ind_r (λ y, Forall (taskOK cfg) (pending y.1 ++ y.2))); [| |exact Hr].
  - unfold roundStart, scheduleRound.
    pose proof (scheduleRound_ok cfg round yday getMinDate syms
                  (map_to_list sts) ([], 0, sts) Hmax) as Hok.
    destruct (fold_left _ _ _) as [[pend dc] sts']. simpl in *.
    rewrite app_nil_r. apply Hok. constructor.
  - intros y z _ Hstep Hy. by eapply backfillStep_ok.
Qed.


End RequeueProps.




(** ** The claims at concrete inputs *)

(** Round 0 of a backfill over one coin, with yesterday on day 19884
    (2024-06-10) and the floor on 2018-01-01: the window is 2024-03-03 to
    2024-06-10, and handing it to a worker is a step of the round. *)
Lemma example_reach :
  @roundReach asciiStrings exampleConfig 0 (day 19884)
    (λ _, (zeroTime, false, None)) {[ "btc" := "BTC" ]} exampleStates ∅ exampleRound.
Proof.
  unfold roundReach. eapply rtc_l; [|apply rtc_refl].
  replace (@roundStart asciiStrings exampleConfig 0 (day 19884)
             (λ _, (zeroTime, false, None)) {[ "btc" := "BTC" ]} exampleStates ∅)
    with (mkBackfill [exampleTask] 0 0 exampleStates ∅, @nil Task)
    by (vm_compute; reflexivity).
  apply (backfill_send exampleConfig (mkBackfill [exampleTask] 0 0 exampleStates ∅)
           [] exampleTask (mkBackfill [] 1 0 exampleStates ∅)).
  reflexivity.
Qed.

(** C5 at a window of three days, all three in the store. *)
Lemma C5_witness :
  let t := mkTask "btc" "BTC" (day 19882) (day 19884) 0 PhaseBackfill in
  let w := exampleWorld [19882; 19883; 19884] (RowsRead [] None) okHTTP exampleResp in
  tRetry t = 0 ∧ tFrom t ≤ tTo t
  ∧ rInserted (@handleTask floatZ exampleConfig t w).1 = 0
  ∧ rEmpty (@handleTask floatZ exampleConfig t w).1 = false
  ∧ @attemptsOf floatZ (@handleTask floatZ exampleConfig t w).2 = [].
Proof.
  intros t w. split; [reflexivity|]. split; [by vm_compute|].
  apply (@C5_fast_path floatZ exampleConfig t w [19882; 19883; 19884]).
  - reflexivity.
  - by vm_compute.
  - reflexivity.
  - vm_compute. reflexivity.
Defined.

(** C1 at the example round: one empty window, then thirty of them. *)
Lemma C1_witness :
  let res := mkTaskResult exampleTask 0 0 true 200 "" [] false in
  (∃ st', states (@onResultBackfill asciiStrings exampleConfig exampleRound.1 res)
            !! "btc" = Some st'
          ∧ (Done st' = true ↔ completion exampleConfig st'))
  ∧ (∃ st', states (fold_left (@onResultBackfill asciiStrings exampleConfig)
                      (replicate 30 res) exampleRound.1) !! "btc" = Some st'
            ∧ SeenData st' = false
            ∧ (Done st' = true ↔ (30 ≤ length (replicate 30 res))%nat)).
Proof.
  intros res. split.
  - apply (proj1 (@C1_completion_rule asciiStrings) exampleConfig 0 (day 19884)
             (λ _, (zeroTime, false, None)) {[ "btc" := "BTC" ]} exampleStates ∅
             exampleRound.1 exampleRound.2 res).
    + exact example_reach.
    + by left.
    + reflexivity.
  - apply (proj2 (@C1_completion_rule asciiStrings) exampleConfig "btc" (day 19884)
             exampleRound.1 (replicate 30 res)).
    + reflexivity.
    + by vm_compute.
    + apply Forall_replicate. done.
Defined.



(** C6 at an API that answers 429, then 404. *)
Lemma C6_witness :
  let t := mkTask "btc" "BTC" (day 19882) (day 19884) 0 PhaseBackfill in
  let w := exampleWorld [] (RowsRead [] None) failingHTTP exampleResp in
  @attemptsOf floatZ (@handleTask floatZ exampleConfig t w).2 = [0; 1]
  ∧ fStatus (@fetchAt floatZ w exampleConfig t 0) = 429
  ∧ fStatus (@fetchAt floatZ w exampleConfig t 1) = 404
  ∧ @failedResult floatZ (@handleTask floatZ exampleConfig t w).1
      (@handleTask floatZ exampleConfig t w).2.
Proof.
  intros t w.
  assert (@attemptsOf floatZ (@handleTask floatZ exampleConfig t w).2 = [0; 1]) as Htried
    by (vm_compute; reflexivity).
  split; [exact Htried|]. split; [reflexivity|]. split; [reflexivity|].
  pose proof (@C6_fetch_retry floatZ exampleConfig t w) as Hc. cbv zeta in Hc.
  destruct Hc as (_ & _ & _ & _ & Hperm & _).
  apply (Hperm 1).
  - rewrite Htried. right. left.
  - discriminate.
  - reflexivity.
Defined.

(** C10 at a store whose verification query fails. *)
Lemma C10_witness :
  let t := mkTask "btc" "BTC" (day 19882) (day 19884) 0 PhaseBackfill in
  let w := exampleWorld [] (QueryFailed "connection reset") okHTTP exampleResp in
  let res := (@handleTask floatZ exampleConfig t w).1 in
  rAPIDays res = 2
  ∧ rMissingDates res = []
  ∧ rErr res = ""
  ∧ needsRetry exampleConfig res = false.
Proof.
  intros t w res.
  destruct (@C10_verify_failure floatZ asciiStrings exampleConfig t w "connection reset")
    as (Hm & He & _ & Hr & _).
  - replace (@sitesOf floatZ (@handleTask floatZ exampleConfig t w).2)
      with [PreCheck; Verify] by (vm_compute; reflexivity).
    right. left.
  - reflexivity.
  - split; [reflexivity|]. split; [exact Hm|]. split; [exact He | exact Hr].
Defined.


(** The aggregation of the example response: day 19882 has a sample of each
    metric and takes the latest of their timestamps, day 19883 has a price
    only. *)
Example aggregate_example :
  @aggregate floatZ exampleResp !! 19882
  = Some (@mkAgg floatZ (day 19882 + 2000) 100 5 7)
  ∧ @aggregate floatZ exampleResp !! 19883 = Some (@mkAgg floatZ (day 19883) 101 0 0)
  ∧ size (@aggregate floatZ exampleResp) = 2%nat.
Proof. split_and!; vm_compute; reflexivity. Qed.

(** Scenario 1 of the specification: floor 2018-01-01, yesterday 2024-06-10;
    the first window is 2024-03-03 to 2024-06-10, and after an empty result
    the search moves to the window that ends on 2024-03-02. *)
Example scenario_1 :
  makeTaskFixedWindow "btc" "BTC" (day 19884) (StartDate exampleConfig)
  = (exampleTask, true)
  ∧ states (@onResultBackfill asciiStrings exampleConfig exampleRound.1
              (mkTaskResult exampleTask 0 0 true 200 "" [] false)) !! "btc"
    = Some (mkCoinState (day 19784) 1 false 0 false).
Proof. split; vm_compute; reflexivity. Qed.

(** * Further properties of the engine *)

(** ** backoffSleep *)

Lemma backoffSleep_table :
  Forall (λ a, backoffSleep a = 1000000000 * Z.min (2 ^ a) 30) (seqZ 0 34).
Proof. apply (bool_decide_unpack _). vm_compute. exact I. Qed.

Lemma backoffSleep_overflow_table :
  Forall (λ a, (backoffSleep a = 30000000000 ∨ backoffSleep a ≤ 0)
               ∧ (55 ≤ a → backoffSleep a = 0)) (seqZ 34 30).
Proof. apply (bool_decide_unpack _). vm_compute. exact I. Qed.

(** X1. For the attempts 0 to 33 the delay of [backoffSleep] is
    [min(2^attempt, 30)] seconds, so it does not decrease with the attempt
    there; for every attempt from 0 on the delay is at most 30 seconds. *)
Theorem X1_backoff_in_range :
  (∀ a, 0 ≤ a ≤ 33 → backoffSleep a = 1000000000 * Z.min (2 ^ a) 30)
  ∧ (∀ a b, 0 ≤ a ≤ b → b ≤ 33 → backoffSleep a ≤ backoffSleep b)
  ∧ (∀ a, 0 ≤ a → backoffSleep a ≤ 30 * 1000000000).
Proof.
  assert (∀ a, 0 ≤ a ≤ 33 → backoffSleep a = 1000000000 * Z.min (2 ^ a) 30) as Hin.
  { intros a Ha. pose proof backoffSleep_table as Ht.
    rewrite Forall_seqZ in Ht. apply Ht. lia. }
  split_and!; [done | |].
  - intros a b Hab Hb. rewrite !Hin by lia.
    assert (2 ^ a ≤ 2 ^ b) by (apply Z.pow_le_mono_r; lia). lia.
  - intros a _. unfold backoffSleep. case_match; [lia|].
    match goal with H : (_ <? _) = false |- _ => apply Z.ltb_ge in H end. lia.
Qed.

(** X2. From attempt 34 on the product overflows [int64]: the delay is
    then either the cap of 30 seconds or not positive (no wait at all), the
    first such attempt has a negative delay, and from attempt 55 on the
    delay is always zero. *)
Theorem X2_backoff_overflow :
  (∀ a, 34 ≤ a → backoffSleep a = 30 * 1000000000 ∨ backoffSleep a ≤ 0)
  ∧ backoffSleep 34 < 0
  ∧ (∀ a, 55 ≤ a → backoffSleep a = 0).
Proof.
  assert (∀ a, 64 ≤ a → backoffSleep a = 0) as Hbig.
  { intros a Ha. unfold backoffSleep. rewrite (proj2 (Z.ltb_ge a 64)) by lia. done. }
  pose proof backoffSleep_overflow_table as Ht. rewrite Forall_seqZ in Ht.
  split_and!.
  - intros a Ha. destruct (decide (a < 64)) as [Hlt|Hge].
    + destruct (Ht a) as [Hor _]; [lia|]. exact Hor.
    + right. rewrite Hbig by lia. done.
  - by vm_compute.
  - intros a Ha. destruct (decide (a < 64)) as [Hlt|Hge].
    + destruct (Ht a) as [_ Hz]; [lia|]. by apply Hz.
    + apply Hbig. lia.
Qed.

(** ** truncate *)

Lemma string_length_append (a b : string) :
  String.length (a +:+ b) = (String.length a + String.length b)%nat.
Proof. induction a as [|c a IH]; simpl; [done | by rewrite IH]. Qed.

Lemma substring_prefix n (b : string) :
  (n <= String.length b)%nat →
  String.length (String.substring 0 n b) = n
  ∧ ∃ rest, b = String.substring 0 n b +:+ rest.
Proof.
  revert b. induction n as [|n IH]; intros b Hn.
  - destruct b; simpl; split; try done; by eexists.
  - destruct b as [|c b]; simpl in *; [lia|].
    destruct (IH b) as (Hl & rest & Hr); [lia|].
    split; [by rewrite Hl|]. exists rest.
    change (String c b = String c (String.substring 0 n b +:+ rest)). by f_equal.
Qed.

(** X3. [truncate b n] returns [b] unchanged when it has at most [n] bytes;
    otherwise it returns the first [n] bytes of [b] followed by three dots.
    The result never has more than [n + 3] bytes. *)
Theorem X3_truncate b n :
  ((String.length b <= n)%nat → truncate b n = b)
  ∧ ((n < String.length b)%nat →
       ∃ rest, b = String.substring 0 n b +:+ rest
               ∧ truncate b n = String.substring 0 n b +:+ "..."
               ∧ String.length (truncate b n) = (n + 3)%nat)
  ∧ (String.length (truncate b n) <= n + 3)%nat.
Proof.
  unfold truncate. split_and!.
  - intros Hle. by rewrite (proj2 (Nat.leb_le _ _) Hle).
  - intros Hlt. rewrite (proj2 (Nat.leb_gt _ _) Hlt).
    destruct (substring_prefix n b) as (Hl & rest & Hr); [lia|].
    exists rest. split_and!; [done | done |].
    rewrite string_length_append, Hl. done.
  - destruct (String.length b <=? n)%nat eqn:Hc.
    + apply Nat.leb_le in Hc. lia.
    + apply Nat.leb_gt in Hc.
      destruct (substring_prefix n b) as (Hl & _); [lia|].
      rewrite string_length_append, Hl. simpl. lia.
Qed.

(** ** daysInclusive *)

Lemma daysLoop_dates n d t :
  dateOnlyUTC d = d → Forall (λ x, dateOnlyUTC x = x) (daysLoop n d t).
Proof.
  revert d. induction n as [|n IH]; intros d Hd; simpl; [constructor|].
  destruct (After d t); [constructor|]. constructor; [done|].
  apply IH. by rewrite dateOnlyUTC_AddDays, Hd.
Qed.

(** X4. [daysInclusive from to] is empty when the day of [to] is before the
    day of [from]; otherwise it lists the midnights of the calendar days
    from the day of [from] to the day of [to], each once, in increasing
    order. *)
Theorem X4_daysInclusive from to :
  (dayKey to < dayKey from → daysInclusive from to = [])
  ∧ (dayKey from ≤ dayKey to →
       daysInclusive from to
       = (λ k, msPerDay * k) <$> seqZ (dayKey from) (dayKey to - dayKey from + 1)).
Proof.
  split.
  - intros Hlt. unfold daysInclusive, Before.
    rewrite (proj2 (Z.ltb_lt _ _)); [done|].
    rewrite !dateOnlyUTC_key. unfold msPerDay. lia.
  - intros Hle. rewrite <- (daysInclusive_keys from to Hle).
    rewrite <- list_fmap_compose.
    assert (Forall (λ x, dateOnlyUTC x = x) (daysInclusive from to)) as Hd.
    { unfold daysInclusive. destruct (Before _ _); [constructor|].
      apply daysLoop_dates, dateOnlyUTC_idemp. }
    induction Hd as [|x l Hx _ IH]; [done|]. simpl. f_equal; [|done].
    unfold formatDate. by rewrite dayKey_dateOnlyUTC, <- dateOnlyUTC_key.
Qed.

(** ** makeTaskFixedWindow *)

(** X5. [makeTaskFixedWindow] refuses exactly when the day of [end] is
    before the floor. Otherwise the window ends on the day of [end] and
    starts 99 days earlier or at the floor, whichever is later: it never
    starts before the floor, and with the floor at a midnight it holds 100
    calendar days, or the days from the floor to the end when these are
    fewer. *)
Theorem X5_fixed_window id sym end_ startLimit :
  let r := makeTaskFixedWindow id sym end_ startLimit in
  (r.2 = true ↔ startLimit ≤ dateOnlyUTC end_)
  ∧ (r.2 = false → r.1 = zeroTask)
  ∧ (r.2 = true →
       tTo r.1 = dateOnlyUTC end_
       ∧ tFrom r.1 = Z.max (AddDays (dateOnlyUTC end_) (-99)) startLimit
       ∧ startLimit ≤ tFrom r.1
       ∧ (dateOnlyUTC startLimit = startLimit →
            windowDays r.1 = Z.min 100 (dayKey end_ - dayKey startLimit + 1))).
Proof.
  intros r. subst r. unfold makeTaskFixedWindow, Before.
  destruct (dateOnlyUTC end_ <? startLimit) eqn:Hb;
    [apply Z.ltb_lt in Hb | apply Z.ltb_ge in Hb]; simpl.
  { split_and!; [split; [done | lia] | done | done]. }
  split_and!; [done | done |]. intros _.
  destruct (AddDays (dateOnlyUTC end_) (-99) <? startLimit) eqn:Hs;
    [apply Z.ltb_lt in Hs | apply Z.ltb_ge in Hs].
  - split_and!; [done | lia | lia |].
    intros Hdate. unfold windowDays. simpl. rewrite dayKey_dateOnlyUTC.
    rewrite <- Hdate, dateOnlyUTC_key in Hs, Hb.
    rewrite dateOnlyUTC_key in Hs, Hb. unfold AddDays, msPerDay in *. lia.
  - split_and!; [done | lia | lia |].
    intros Hdate. unfold windowDays. simpl.
    rewrite dayKey_AddDays, !dayKey_dateOnlyUTC.
    rewrite <- Hdate, dateOnlyUTC_key in Hs.
    rewrite dateOnlyUTC_key in Hs. unfold AddDays, msPerDay in *. lia.
Qed.

Section SchedulerExtras.
Context `{GoStrings}.

Lemma scheduleCoin_fst cfg round yday gm syms pend dc sts id st :
  (scheduleCoin cfg round yday gm syms (pend, dc, sts) (id, st)).1
  = (pend ++ option_list (scheduled cfg round yday gm syms id st),
     dc + (if scheduled cfg round yday gm syms id st is Some _ then 0 else 1)).
Proof.
  unfold scheduleCoin, scheduled, symbolFor.
  destruct (Done st); [by rewrite app_nil_r|].
  destruct (makeTaskFixedWindow _ _ _ _) as [t ok].
  destruct ok; simpl; [by rewrite Z.add_0_r | by rewrite app_nil_r].
Qed.

Lemma scheduleCoin_snd cfg round yday gm syms pend dc sts id st id' :
  sts !! id = Some st →
  (scheduleCoin cfg round yday gm syms (pend, dc, sts) (id, st)).2 !! id'
  = if decide (id' = id) then Some (afterScheduling cfg round yday gm syms id st)
    else sts !! id'.
Proof.
  intros Hst. unfold scheduleCoin, afterScheduling, scheduled, symbolFor.
  destruct (Done st); simpl.
  { case_decide; [by subst | done]. }
  destruct (makeTaskFixedWindow _ _ _ _) as [t ok]. destruct ok; simpl.
  - case_decide; [by subst | done].
  - case_decide; [subst; by rewrite lookup_insert_eq | by rewrite lookup_insert_ne].
Qed.

Lemma scheduleRound_fold cfg round yday gm syms l : ∀ acc,
  NoDup l.*1 →
  Forall (λ e, acc.2 !! e.1 = Some e.2) l →
  let r := fold_left (scheduleCoin cfg round yday gm syms) l acc in
  r.1.1 = acc.1.1 ++ omap (λ e, scheduled cfg round yday gm syms e.1 e.2) l
  ∧ r.1.2 + Z.of_nat (length (omap (λ e, scheduled cfg round yday gm syms e.1 e.2) l))
    = acc.1.2 + Z.of_nat (length l)
  ∧ ∀ id, r.2 !! id
          = match (list_to_map l : gmap string CoinState) !! id with
            | Some st => Some (afterScheduling cfg round yday gm syms id st)
            | None => acc.2 !! id
            end.
Proof.
  induction l as [|[id st] l IH]; intros [[pend dc] sts] Hnd Hall r.
  { subst r. simpl. rewrite app_nil_r. split_and!; [done | lia | done]. }
  simpl in Hnd. apply NoDup_cons in Hnd as [Hid Hnd].
  apply Forall_cons in Hall as [Hst Hall]. simpl in Hst.
  pose proof (scheduleCoin_fst cfg round yday gm syms pend dc sts id st) as H1.
  pose proof (scheduleCoin_snd cfg round yday gm syms pend dc sts id st) as H2.
  subst r. cbn [fold_left].
  destruct (scheduleCoin cfg round yday gm syms (pend, dc, sts) (id, st))
    as [[pend' dc'] sts'] eqn:Hstep.
  simpl in H1, H2. injection H1 as -> ->.
  destruct (IH (pend ++ option_list (scheduled cfg round yday gm syms id st),
                dc + (if scheduled cfg round yday gm syms id st is Some _ then 0 else 1),
                sts')) as (Hp & Hc & Hm); [done | |].
  { rewrite Forall_forall in Hall |- *. intros [id' st'] Hin. simpl.
    rewrite (H2 id' Hst). case_decide as Heq; [|by apply (Hall _ Hin)].
    subst. exfalso. apply Hid. apply list_elem_of_fmap. by exists (id, st'). }
  cbn [fst snd] in *.
  assert (omap (λ e : string * CoinState, scheduled cfg round yday gm syms e.1 e.2)
            ((id, st) :: l)
          = option_list (scheduled cfg round yday gm syms id st)
            ++ omap (λ e, scheduled cfg round yday gm syms e.1 e.2) l) as Hcons.
  { cbn [omap list_omap fst snd]. by destruct (scheduled cfg round yday gm syms id st). }
  rewrite Hcons. split_and!.
  - rewrite Hp. by rewrite <- app_assoc.
  - rewrite length_app. cbn [length].
    destruct (scheduled cfg round yday gm syms id st);
      unfold option_list in *; cbn [length option_rect] in *; lia.
  - intros id'. rewrite Hm. cbn [list_to_map foldr]. simpl uncurry.
    destruct (decide (id' = id)) as [->|Hne].
    + rewrite lookup_insert_eq.
      rewrite (not_elem_of_list_to_map_1 _ _ Hid).
      rewrite (H2 id Hst). by rewrite decide_True.
    + rewrite lookup_insert_ne by done.
      destruct (list_to_map l !! id'); [done|].
      rewrite (H2 id' Hst). by rewrite decide_False.
Qed.

Lemma scheduleRound_spec cfg round yday getMinDate syms sts :
  let r := scheduleRound cfg round yday getMinDate syms sts in
  r.1.1 = omap (λ e, scheduled cfg round yday getMinDate syms e.1 e.2) (map_to_list sts)
  ∧ r.1.2 + Z.of_nat (length r.1.1) = Z.of_nat (size sts)
  ∧ (r.1.2 = Z.of_nat (size sts) ↔ r.1.1 = [])
  ∧ (∀ id, r.2 !! id = afterScheduling cfg round yday getMinDate syms id <$> sts !! id).
Proof.
  intros r. subst r. unfold scheduleRound.
  destruct (scheduleRound_fold cfg round yday getMinDate syms (map_to_list sts)
              ([], 0, sts)) as (Hp & Hc & Hm).
  { apply NoDup_fst_map_to_list. }
  { apply Forall_forall. intros [id st] Hin. by apply elem_of_map_to_list. }
  simpl in Hp, Hc. rewrite <- Hp in Hc. rewrite length_map_to_list in Hc.
  split_and!; [done | lia | |].
  - split; [intros Hd|intros Hn].
    + apply length_zero_iff_nil. lia.
    + rewrite Hn in Hc. simpl in Hc. lia.
  - intros id. rewrite Hm, list_to_map_to_list. destruct (sts !! id) eqn:E; simpl in *; done.
Qed.

(** X6. The scheduling loop of a round visits every coin once: it makes one
    task for each coin that is not done and whose window is not refused,
    marks done the coins whose window is refused and leaves the others as
    they are; the count [doneCount] and the number of tasks add up to the
    number of coins, so the round loop ends ([doneCount == total]) exactly
    when no task was made. *)
Theorem X6_schedule_round cfg round yday getMinDate syms sts :
  let r := scheduleRound cfg round yday getMinDate syms sts in
  r.1.1 = omap (λ e, scheduled cfg round yday getMinDate syms e.1 e.2) (map_to_list sts)
  ∧ r.1.2 + Z.of_nat (length r.1.1) = Z.of_nat (size sts)
  ∧ (r.1.2 = Z.of_nat (size sts) ↔ r.1.1 = [])
  ∧ (∀ id, r.2 !! id = afterScheduling cfg round yday getMinDate syms id <$> sts !! id).
Proof. apply scheduleRound_spec. Qed.

(** *** Steps of a round *)

Lemma onResultBackfill_states cfg s res id :
  states (onResultBackfill cfg s res) !! id
  = match states s !! id with
    | Some st =>
        if bool_decide (id = tCoinID (rTask res)) && negb (Done st)
           && negb (needsRetry cfg res)
        then Some (checkDone cfg (countResult res st))
        else Some st
    | None => None
    end.
Proof.
  unfold onResultBackfill.
  destruct (states s !! tCoinID (rTask res)) as [st0|] eqn:Hst0.
  - destruct (Done st0) eqn:Hd0; simpl.
    + destruct (states s !! id) as [st|] eqn:Hst; [|done].
      case_bool_decide as Heq; [|done]. subst. rewrite Hst0 in Hst.
      injection Hst as <-. by rewrite Hd0.
    + destruct (needsRetry cfg res); simpl.
      * destruct (states s !! id); [|done]. by rewrite andb_false_r.
      * destruct (decide (id = tCoinID (rTask res))) as [->|Hne].
        -- rewrite lookup_insert_eq, Hst0, Hd0, bool_decide_eq_true_2; done.
        -- rewrite lookup_insert_ne by done.
           destruct (states s !! id); [|done].
           by rewrite bool_decide_eq_false_2.
  - simpl. destruct (states s !! id) as [st|] eqn:Hst; [|done].
    case_bool_decide as Heq; [|done]. subst. congruence.
Qed.

Lemma checkDone_fields cfg st :
  SeenData (checkDone cfg st) = SeenData st
  ∧ (Done st = true → checkDone cfg st = st).
Proof.
  unfold checkDone. destruct st as [se sem seen ce dn]. simpl.
  split.
  - by repeat case_match.
  - intros ->. by repeat case_match.
Qed.

Lemma countResult_seen res st :
  SeenData st = true → SeenData (countResult res st) = true.
Proof. intros Hs. unfold countResult. rewrite Hs. by case_match. Qed.

Lemma backfillStep_states cfg x y id st :
  backfillStep cfg x y → states x.1 !! id = Some st →
  ∃ st', states y.1 !! id = Some st'
         ∧ (Done st = true → st' = st)
         ∧ (SeenData st = true → SeenData st' = true).
Proof.
  destruct 1 as [s fl1 fl2 res|s fl next s' Hd]; simpl; intros Hst.
  - rewrite onResultBackfill_states, Hst.
    case_match eqn:Hc; [|by exists st].
    eexists. split; [done|]. split.
    + intros Hdn. rewrite Hdn in Hc. by rewrite andb_false_r in Hc.
    + intros Hs. rewrite (proj1 (checkDone_fields _ _)). by apply countResult_seen.
  - unfold dispatchBackfill in Hd. destruct (pending s); [done|].
    injection Hd as <- <-. simpl. by exists st.
Qed.

Lemma backfillStep_dom cfg x y :
  backfillStep cfg x y → dom (states y.1) = dom (states x.1).
Proof.
  intros Hstep. apply set_eq. intros id. rewrite !elem_of_dom.
  destruct Hstep as [s fl1 fl2 res|s fl next s' Hd]; simpl.
  - rewrite onResultBackfill_states. destruct (states s !! id); [|done].
    case_match; split; intros _; by eexists.
  - unfold dispatchBackfill in Hd. destruct (pending s); [done|].
    by injection Hd as <- <-.
Qed.

(** X7. Within a round, the state of a coin that is done never changes
    again, whatever results are drained; a coin that has seen data keeps
    that flag; and no coin state is added or removed. *)
Theorem X7_done_is_final cfg x y :
  rtc (backfillStep cfg) x y →
  dom (states y.1) = dom (states x.1)
  ∧ ∀ id st, states x.1 !! id = Some st →
      ∃ st', states y.1 !! id = Some st'
             ∧ (Done st = true → st' = st)
             ∧ (SeenData st = true → SeenData st' = true).
Proof.
  induction 1 as [x|x y z Hstep _ IH].
  { split; [done|]. intros id st Hst. by exists st. }
  destruct IH as [Hdom Hst]. split.
  - rewrite Hdom. by apply (backfillStep_dom cfg).
  - intros id st Hx.
    destruct (backfillStep_states cfg x y id st Hstep Hx) as (st1 & Hy & Hd1 & Hs1).
    destruct (Hst id st1 Hy) as (st2 & Hz & Hd2 & Hs2).
    exists st2. split; [done|]. split.
    + intros Hd. specialize (Hd1 Hd). subst st1. by apply Hd2.
    + intros Hs. by apply Hs2, Hs1.
Qed.

(** *** The counters of the loop *)

Lemma backfillStep_inFlight cfg x y :
  backfillStep cfg x y →
  inFlight y.1 - Z.of_nat (length y.2) = inFlight x.1 - Z.of_nat (length x.2).
Proof.
  destruct 1 as [s fl1 fl2 res|s fl next s' Hd]; simpl.
  - rewrite !length_app. simpl.
    assert (inFlight (onResultBackfill cfg s res) = inFlight s - 1) as ->; [|lia].
    unfold onResultBackfill. by repeat case_match.
  - unfold dispatchBackfill in Hd. destruct (pending s); [done|].
    injection Hd as <- <-. simpl. rewrite length_app. simpl. lia.
Qed.

Lemma incrementalStep_inFlight cfg x y :
  incrementalStep cfg x y →
  iinFlight y.1 - Z.of_nat (length y.2) = iinFlight x.1 - Z.of_nat (length x.2).
Proof.
  destruct 1 as [s fl1 fl2 res|s fl next s' Hd]; simpl.
  - rewrite !length_app. simpl.
    assert (iinFlight (onResultIncremental cfg s res) = iinFlight s - 1) as ->; [|lia].
    unfold onResultIncremental. by repeat case_match.
  - unfold dispatchIncremental in Hd. destruct (ipending s); [done|].
    injection Hd as <- <-. simpl. rewrite length_app. simpl. lia.
Qed.

Lemma backfill_rtc_inFlight cfg x y :
  rtc (backfillStep cfg) x y →
  inFlight y.1 - Z.of_nat (length y.2) = inFlight x.1 - Z.of_nat (length x.2).
Proof.
  induction 1 as [x|x y z Hstep _ IH]; [done|].
  by rewrite IH, (backfillStep_inFlight _ _ _ Hstep).
Qed.

Lemma incremental_rtc_inFlight cfg x y :
  rtc (incrementalStep cfg) x y →
  iinFlight y.1 - Z.of_nat (length y.2) = iinFlight x.1 - Z.of_nat (length x.2).
Proof.
  induction 1 as [x|x y z Hstep _ IH]; [done|].
  by rewrite IH, (incrementalStep_inFlight _ _ _ Hstep).
Qed.

(** X8. In a backfill round and in an incremental pass the counter
    [inFlight] is always the number of tasks handed to workers whose result
    has not been drained; so the drain loop stops ([pending] empty and
    [inFlight] zero) only when no task is left anywhere. *)
Theorem X8_in_flight cfg :
  (∀ round yday getMinDate syms sts act s fl,
     roundReach cfg round yday getMinDate syms sts act (s, fl) →
     inFlight s = Z.of_nat (length fl)
     ∧ (pending s = [] ∧ inFlight s = 0 ↔ pending s ++ fl = []))
  ∧ (∀ now coins md s fl,
       passReach cfg now coins md (s, fl) →
       iinFlight s = Z.of_nat (length fl)
       ∧ (ipending s = [] ∧ iinFlight s = 0 ↔ ipending s ++ fl = [])).
Proof.
  split.
  - intros round yday getMinDate syms sts act s fl Hr.
    assert (inFlight s = Z.of_nat (length fl)) as Hin.
    { apply backfill_rtc_inFlight in Hr. revert Hr. unfold roundStart.
      destruct (scheduleRound _ _ _ _ _ _) as [[? ?] ?]. simpl. lia. }
    split; [done|]. rewrite Hin. split.
    + intros [-> Hl]. destruct fl; [done | simpl in Hl; lia].
    + intros [-> ->]%app_eq_nil. done.
  - intros now coins md s fl Hr.
    assert (iinFlight s = Z.of_nat (length fl)) as Hin.
    { apply incremental_rtc_inFlight in Hr. simpl in Hr. lia. }
    split; [done|]. rewrite Hin. split.
    + intros [-> Hl]. destruct fl; [done | simpl in Hl; lia].
    + intros [-> ->]%app_eq_nil. done.
Qed.
End SchedulerExtras.

Lemma X7_witness :
  let res := mkTaskResult exampleTask 0 0 true 200 "" [] false in
  let y := (@onResultBackfill asciiStrings exampleConfig exampleRound.1 res, @nil Task) in
  rtc (@backfillStep asciiStrings exampleConfig) exampleRound y
  ∧ dom (states y.1) = dom (states exampleRound.1)
  ∧ ∀ id st, states exampleRound.1 !! id = Some st →
      ∃ st', states y.1 !! id = Some st'
             ∧ (Done st = true → st' = st)
             ∧ (SeenData st = true → SeenData st' = true).
Proof.
  intros res y.
  assert (rtc (@backfillStep asciiStrings exampleConfig) exampleRound y) as Hr.
  { apply rtc_once.
    apply (backfill_result exampleConfig exampleRound.1 [] [] res). }
  split; [exact Hr|].
  exact (@X7_done_is_final asciiStrings exampleConfig exampleRound y Hr).
Defined.

Section RunProps.
Context `{GoStrings}.

(** *** The results a round can drain *)

Lemma resultsLeft_app cfg a b :
  resultsLeft cfg (a ++ b) = resultsLeft cfg a + resultsLeft cfg b.
Proof. induction a as [|t a IH]; simpl; [done|]. rewrite IH. lia. Qed.

Lemma resultsLeft_length cfg ts :
  Forall (taskOK cfg) ts → Z.of_nat (length ts) ≤ resultsLeft cfg ts.
Proof.
  induction 1 as [|t ts (_ & _ & Hr) _ IH]; simpl; [done|]. lia.
Qed.

Lemma resultsLeft_fresh cfg ts :
  Forall (λ t, tRetry t = 0) ts →
  resultsLeft cfg ts = (MaxRetriesPerBlock cfg + 1) * Z.of_nat (length ts).
Proof.
  induction 1 as [|t ts Hr _ IH]; simpl; [lia|]. rewrite IH, Hr. lia.
Qed.

Lemma backfillStep_resultsLeft cfg x y :
  backfillStep cfg x y →
  Forall (taskOK cfg) (pending x.1 ++ x.2) →
  doneTasks x.1 ≤ doneTasks y.1
  ∧ doneTasks y.1 + resultsLeft cfg (pending y.1 ++ y.2)
    ≤ doneTasks x.1 + resultsLeft cfg (pending x.1 ++ x.2).
Proof.
  destruct 1 as [s fl1 fl2 res|s fl next s' Hd]; simpl; intros Hok.
  - rewrite Forall_app, Forall_app, Forall_cons in Hok.
    destruct Hok as (_ & _ & (_ & _ & Hr) & _).
    rewrite !resultsLeft_app. simpl.
    unfold onResultBackfill.
    destruct (states s !! tCoinID (rTask res)) as [st|]; simpl; [|lia].
    destruct (Done st); simpl; [lia|].
    destruct (needsRetry cfg res) eqn:Hn; simpl; [|lia].
    apply needsRetry_true in Hn as [_ Hlt]. lia.
  - unfold dispatchBackfill in Hd. destruct (pending s) as [|n rest]; [done|].
    injection Hd as <- <-. simpl. rewrite !resultsLeft_app. simpl. lia.
Qed.

Lemma scheduleRound_tasks cfg round yday gm syms sts t :
  t ∈ (scheduleRound cfg round yday gm syms sts).1.1 →
  ∃ st, sts !! tCoinID t = Some st ∧ Done st = false
        ∧ tSymbol t = symbolFor syms (tCoinID t) ∧ tRetry t = 0
        ∧ tPhase t = PhaseBackfill.
Proof.
  destruct (scheduleRound_spec cfg round yday gm syms sts) as (Hp & _).
  rewrite Hp. intros Hin. apply list_elem_of_omap in Hin as ([id st] & Hin & Hs).
  apply elem_of_map_to_list in Hin. simpl in Hs.
  unfold scheduled in Hs. destruct (Done st) eqn:Hd; [done|].
  destruct (makeTaskFixedWindow _ _ _ _) as [t' ok] eqn:Hm.
  destruct ok; [|done]. injection Hs as ->.
  apply makeTaskFixedWindow_coin in Hm as (-> & -> & -> & ->).
  by exists st.
Qed.

Lemma roundReach_resultsLeft cfg round yday getMinDate syms sts act x :
  0 ≤ MaxRetriesPerBlock cfg →
  roundReach cfg round yday getMinDate syms sts act x →
  0 ≤ doneTasks x.1
  ∧ doneTasks x.1 + resultsLeft cfg (pending x.1 ++ x.2)
    ≤ (MaxRetriesPerBlock cfg + 1)
      * Z.of_nat (length (scheduleRound cfg round yday getMinDate syms sts).1.1).
Proof.
  intros Hmax Hr. unfold roundReach in Hr. revert x Hr.
  apply rtc_ind_r; [|intros y z Hxy Hstep IH].
  - unfold roundStart.
    destruct (scheduleRound cfg round yday getMinDate syms sts) as [[pend dc] sts'] eqn:Hs.
    simpl. rewrite app_nil_r. split; [done|].
    rewrite resultsLeft_fresh; [lia|].
    apply Forall_forall. intros t Ht.
    destruct (scheduleRound_tasks cfg round yday getMinDate syms sts t) as (? & ? & ? & ? & ? & ?);
      [by rewrite Hs | done].
  - pose proof (roundReach_ok cfg round yday getMinDate syms sts act y Hmax Hxy) as Hok.
    destruct (backfillStep_resultsLeft cfg y z Hstep Hok) as [Hd Hm]. lia.
Qed.

(** X9. In a round of the backfill the number of results drained,
    [doneTasks], together with the tasks still waiting or with a worker,
    never exceeds [MaxRetriesPerBlock + 1] times the number of tasks the
    round scheduled: every scheduled window is answered at most
    [MaxRetriesPerBlock + 1] times. *)
Theorem X9_results_bound cfg round yday getMinDate syms sts act s fl :
  0 ≤ MaxRetriesPerBlock cfg →
  roundReach cfg round yday getMinDate syms sts act (s, fl) →
  0 ≤ doneTasks s
  ∧ doneTasks s + Z.of_nat (length (pending s ++ fl))
    ≤ (MaxRetriesPerBlock cfg + 1)
      * Z.of_nat (length (scheduleRound cfg round yday getMinDate syms sts).1.1).
Proof.
  intros Hmax Hr.
  pose proof (roundReach_ok cfg round yday getMinDate syms sts act (s, fl) Hmax Hr) as Hok.
  destruct (roundReach_resultsLeft _ _ _ _ _ _ _ _ Hmax Hr) as [H0 H1].
  simpl in *. split; [done|].
  pose proof (resultsLeft_length cfg _ Hok). lia.
Qed.

(** *** The active map *)

(** The entries of the active map: coins that have a state, under their own
    identifier, with the lower-cased symbol of their tasks and no name. *)
Lemma backfillStep_active cfg syms (D : gset string) x y :
  backfillStep cfg x y →
  dom (states x.1) = D →
  Forall (λ t, tSymbol t = symbolFor syms (tCoinID t)) (pending x.1 ++ x.2) →
  (∀ id c, active x.1 !! id = Some c →
     id ∈ D ∧ c = mkCoin id (ToLower (symbolFor syms id)) EmptyString) →
  Forall (λ t, tSymbol t = symbolFor syms (tCoinID t)) (pending y.1 ++ y.2)
  ∧ dom (active x.1) ⊆ dom (active y.1)
  ∧ (∀ id c, active y.1 !! id = Some c →
       id ∈ D ∧ c = mkCoin id (ToLower (symbolFor syms id)) EmptyString).
Proof.
  destruct 1 as [s fl1 fl2 res|s fl next s' Hd]; simpl; intros HD Hsym Hact.
  - rewrite Forall_app, Forall_app, Forall_cons in Hsym.
    destruct Hsym as (Hp & H1 & Ht & H2).
    unfold onResultBackfill.
    destruct (states s !! tCoinID (rTask res)) as [st|] eqn:Hst; simpl.
    2:{ rewrite !Forall_app. done. }
    destruct (Done st); simpl.
    { rewrite !Forall_app. done. }
    destruct (needsRetry cfg res); simpl.
    { rewrite Forall_cons, !Forall_app. done. }
    split; [by rewrite !Forall_app|].
    destruct (rActiveNow res); [|done]. split.
    + rewrite dom_insert. set_solver.
    + intros id c. destruct (decide (id = tCoinID (rTask res))) as [->|Hne].
      * rewrite lookup_insert_eq. intros [= <-]. split.
        -- rewrite <- HD. apply elem_of_dom. by eexists.
        -- by rewrite Ht.
      * rewrite lookup_insert_ne by done. apply Hact.
  - unfold dispatchBackfill in Hd. destruct (pending s) as [|n rest]; [done|].
    injection Hd as <- <-. simpl. split_and!; [|done|done].
    simpl in Hsym. rewrite Forall_cons, Forall_app in Hsym. destruct Hsym as (Hn & Hrest & Hfl).
    rewrite !Forall_app, Forall_singleton. done.
Qed.

Lemma roundReach_active cfg round yday gm syms sts act x :
  roundReach cfg round yday gm syms sts act x →
  (∀ id c, act !! id = Some c →
     id ∈ dom sts ∧ c = mkCoin id (ToLower (symbolFor syms id)) EmptyString) →
  dom (states x.1) = dom sts
  ∧ Forall (λ t, tSymbol t = symbolFor syms (tCoinID t)) (pending x.1 ++ x.2)
  ∧ dom act ⊆ dom (active x.1)
  ∧ (∀ id c, active x.1 !! id = Some c →
       id ∈ dom sts ∧ c = mkCoin id (ToLower (symbolFor syms id)) EmptyString).
Proof.
  intros Hr Hact. unfold roundReach in Hr. revert x Hr.
  apply rtc_ind_r; [|intros y z Hxy Hstep IH].
  - unfold roundStart.
    destruct (scheduleRound cfg round yday gm syms sts) as [[pend dc] sts'] eqn:Hs.
    simpl. rewrite app_nil_r. split_and!; [| |done|done].
    + destruct (scheduleRound_spec cfg round yday gm syms sts) as (_ & _ & _ & Hm).
      rewrite Hs in Hm. simpl in Hm. apply set_eq. intros id.
      rewrite !elem_of_dom, Hm. unfold is_Some.
      destruct (sts !! id); simpl; naive_solver.
    + apply Forall_forall. intros t Ht.
      destruct (scheduleRound_tasks cfg round yday gm syms sts t) as (? & ? & ? & ? & ? & ?);
        [by rewrite Hs | done].
  - destruct IH as (Hdom & Hsym & Hsub & Hin).
    destruct (backfillStep_active cfg syms (dom sts) y z Hstep Hdom Hsym Hin)
      as (Hsym' & Hsub' & Hin').
    split_and!; [|done| |done].
    + rewrite <- Hdom. apply (backfillStep_dom cfg y z Hstep).
    + set_solver.
Qed.

Lemma runReach_active cfg yday gm coins round sts act :
  runReach cfg yday gm coins round sts act →
  dom sts = dom (initStates cfg yday coins).2
  ∧ (∀ id c, act !! id = Some c →
       id ∈ dom (initStates cfg yday coins).2
       ∧ c = mkCoin id (ToLower (symbolFor (initStates cfg yday coins).1 id)) EmptyString).
Proof.
  induction 1 as [|round sts act s fl Hrun [Hdom Hact] Hne Hr Hp Hfl].
  - split; [done|]. intros id c. by rewrite lookup_empty.
  - rewrite <- Hdom in Hact.
    destruct (roundReach_active _ _ _ _ _ _ _ _ Hr Hact) as (Hd & _ & _ & Ha).
    simpl in Hd, Ha. rewrite Hdom in Hd, Ha. done.
Qed.

(** X10. Every coin of the map that [RunBackfill] returns, at its end or
    when it is cancelled, is one of the coins that got a backfill state at
    the start; it is stored under its own identifier and carries the
    lower-cased symbol of its tasks and an empty name. *)
Theorem X10_active_coins cfg yday getMinDate coins act :
  backfillReturns cfg yday getMinDate coins act →
  ∀ id c, act !! id = Some c →
    id ∈ dom (initStates cfg yday coins).2
    ∧ c = mkCoin id (ToLower (symbolFor (initStates cfg yday coins).1 id)) EmptyString.
Proof.
  intros [[_ ->]|[(round & sts & Hrun & _)|(round & sts & act0 & s & fl & Hrun & _ & Hr & ->)]].
  - intros id c. by rewrite lookup_empty.
  - by apply (runReach_active _ _ _ _ _ _ _ Hrun).
  - destruct (runReach_active _ _ _ _ _ _ _ Hrun) as [Hdom Hact].
    rewrite <- Hdom in Hact.
    destruct (roundReach_active _ _ _ _ _ _ _ _ Hr Hact) as (_ & _ & _ & Ha).
    simpl in Ha. by rewrite <- Hdom.
Qed.

(** *** The search towards older windows *)

(** X11. While a coin has shown no data, a window that comes back without
    data (and is not retried) moves its search end to the day before that
    window and counts one more empty block. The coin is then done exactly
    when the count has reached [MaxSearchBlocks]; otherwise, in a later
    round in which the store still holds no day of the coin, its next
    window ends on the day before the window just answered, or is refused
    because that day is before the start date. *)
Theorem X11_search_moves_back cfg round yday getMinDate syms s res st :
  states s !! tCoinID (rTask res) = Some st →
  Done st = false → SeenData st = false →
  needsRetry cfg res = false → blockHasData res = false →
  round ≠ 0 → (getMinDate (tCoinID (rTask res))).1.2 = false →
  let id := tCoinID (rTask res) in
  let before := AddDays (dateOnlyUTC (tFrom (rTask res))) (-1) in
  ∃ st', states (onResultBackfill cfg s res) !! id = Some st'
    ∧ SearchEnd st' = before
    ∧ SearchEmpty st' = SearchEmpty st + 1
    ∧ SeenData st' = false
    ∧ (Done st' = true ↔ MaxSearchBlocks cfg ≤ SearchEmpty st + 1)
    ∧ (Done st' = false →
         match scheduled cfg round yday getMinDate syms id st' with
         | Some t => tTo t = before ∧ StartDate cfg ≤ before
         | None => before < StartDate cfg
         end).
Proof.
  intros Hst Hd Hseen Hn Hb Hround Hmin id before.
  exists (checkDone cfg (countResult res st)).
  split; [by apply onResultBackfill_terminal|].
  subst id before. rewrite <- (dateOnlyUTC_AddDays (tFrom (rTask res)) (-1)).
  unfold countResult. rewrite Hb, Hseen, Hd. unfold checkDone. simpl.
  set (e := dateOnlyUTC (AddDays (tFrom (rTask res)) (-1))).
  destruct (MaxSearchBlocks cfg <=? SearchEmpty st + 1) eqn:Hmax;
    [apply Z.leb_le in Hmax | apply Z.leb_gt in Hmax]; simpl.
  { split_and!; [done | done | done | done | done]. }
  split_and!; [done | done | done | split; [done | lia] |]. intros _.
  unfold scheduled, windowEnd. simpl.
  rewrite (proj2 (Z.eqb_neq round 0) Hround).
  destruct (getMinDate (tCoinID (rTask res))) as [[minD ok] err].
  simpl in Hmin. subst ok.
  rewrite andb_false_r. simpl.
  unfold makeTaskFixedWindow, Before.
  assert (dateOnlyUTC e = e) as -> by apply dateOnlyUTC_idemp.
  destruct (e <? StartDate cfg) eqn:He;
    [by apply Z.ltb_lt in He | apply Z.ltb_ge in He].
  simpl. done.
Qed.

(** *** The states at the start *)

Lemma initStates_snoc cfg yday coins c :
  initStates cfg yday (coins ++ [c]) = initCoin cfg yday (initStates cfg yday coins) c.
Proof. unfold initStates. by rewrite fold_left_app. Qed.

(** X12. At the start of the backfill a coin identifier has a state exactly
    when some listed coin has it as its trimmed identifier, not blank, with
    a symbol that is not blank, and the identifier passes the allow-list.
    Every such state is the initial one, with the search end at yesterday;
    every coin with a state has its symbol in the symbol table, and every
    symbol of the table is the upper-cased trimmed symbol of a listed coin
    with that identifier. *)
Theorem X12_initial_states cfg yday coins :
  let syms := (initStates cfg yday coins).1 in
  let sts := (initStates cfg yday coins).2 in
  (∀ id, id ∈ dom sts
         ↔ ∃ c, c ∈ coins ∧ TrimSpace (cID c) = id ∧ id ≠ EmptyString
                ∧ ToUpper (TrimSpace (cSymbol c)) ≠ EmptyString
                ∧ filteredOut cfg id = false)
  ∧ (∀ id st, sts !! id = Some st → st = mkCoinState yday 0 false 0 false)
  ∧ (∀ id sym, syms !! id = Some sym →
       sym ≠ EmptyString ∧ id ≠ EmptyString ∧ symbolFor syms id = sym
       ∧ ∃ c, c ∈ coins ∧ TrimSpace (cID c) = id
              ∧ sym = ToUpper (TrimSpace (cSymbol c)))
  ∧ dom sts ⊆ dom syms.
Proof.
  induction coins as [|c coins IH] using rev_ind.
  { simpl. split_and!.
    - intros id. rewrite dom_empty. split; [set_solver|].
      intros (c & Hc & _). by apply elem_of_nil in Hc.
    - intros id st. by rewrite lookup_empty.
    - intros id sym. by rewrite lookup_empty.
    - done. }
  rewrite initStates_snoc.
  destruct (initStates cfg yday coins) as [syms sts]. simpl in IH.
  destruct IH as (Hdom & Hinit & Hsym & Hsub).
  assert (∀ id sym, syms !! id = Some sym → sym ≠ EmptyString) as Hne.
  { intros id sym Hs. by destruct (Hsym id sym Hs). }
  unfold initCoin. simpl.
  destruct (bool_decide (TrimSpace (cID c) = EmptyString)
            || bool_decide (ToUpper (TrimSpace (cSymbol c)) = EmptyString)) eqn:Hblank.
  { simpl. split_and!; [| done | | done].
    - intros id. rewrite Hdom. split.
      + intros (c' & Hc' & Hrest). exists c'. split; [|done].
        apply elem_of_app. by left.
      + intros (c' & Hc' & Hid & Hn1 & Hn2 & Hf).
        apply elem_of_app in Hc' as [Hc'|Hc'%list_elem_of_singleton].
        * by exists c'.
        * subst c'. exfalso. apply orb_true_iff in Hblank as [Hb|Hb];
            apply bool_decide_eq_true in Hb; congruence.
    - intros id sym Hs. destruct (Hsym id sym Hs) as (H1 & H2 & H3 & c' & Hc' & Hrest).
      split_and!; [done | done | done |]. exists c'. split; [|done].
      apply elem_of_app. by left. }
  apply orb_false_iff in Hblank as [Hb1 Hb2].
  apply bool_decide_eq_false in Hb1, Hb2.
  set (id0 := TrimSpace (cID c)) in *.
  set (sym0 := ToUpper (TrimSpace (cSymbol c))) in *.
  assert (∀ id sym, <[id0 := sym0]> syms !! id = Some sym →
            sym ≠ EmptyString ∧ id ≠ EmptyString
            ∧ symbolFor (<[id0 := sym0]> syms) id = sym
            ∧ ∃ c', c' ∈ coins ++ [c] ∧ TrimSpace (cID c') = id
                    ∧ sym = ToUpper (TrimSpace (cSymbol c'))) as Hsym'.
  { intros id sym. destruct (decide (id = id0)) as [->|Hne0].
    - rewrite lookup_insert_eq. intros [= <-]. split_and!; [done | done | |].
      + unfold symbolFor. rewrite lookup_insert_eq. simpl.
        by rewrite bool_decide_eq_false_2.
      + exists c. split; [|done]. apply elem_of_app. right. by left.
    - rewrite lookup_insert_ne by done. intros Hs.
      destruct (Hsym id sym Hs) as (H1 & H2 & H3 & c' & Hc' & Hrest).
      split_and!; [done | done | |].
      + unfold symbolFor. rewrite lookup_insert_ne by done. exact H3.
      + exists c'. split; [|done]. apply elem_of_app. by left. }
  destruct (filteredOut cfg id0) eqn:Hf; simpl.
  - split_and!; [| done | done |].
    + intros id. rewrite Hdom. split.
      * intros (c' & Hc' & Hrest). exists c'. split; [|done].
        apply elem_of_app. by left.
      * intros (c' & Hc' & Hid & Hn1 & Hn2 & Hf').
        apply elem_of_app in Hc' as [Hc'|Hc'%list_elem_of_singleton].
        -- by exists c'.
        -- subst c'. fold id0 in Hid. subst id. congruence.
    + rewrite dom_insert. set_solver.
  - split_and!; [| | done |].
    + intros id. rewrite dom_insert, elem_of_union, elem_of_singleton, Hdom. split.
      * intros [->|(c' & Hc' & Hrest)].
        -- exists c. split; [apply elem_of_app; right; by left | done].
        -- exists c'. split; [|done]. apply elem_of_app. by left.
      * intros (c' & Hc' & Hid & Hn1 & Hn2 & Hf').
        apply elem_of_app in Hc' as [Hc'|Hc'%list_elem_of_singleton].
        -- right. by exists c'.
        -- subst c'. by left.
    + intros id st. destruct (decide (id = id0)) as [->|Hne0].
      * rewrite lookup_insert_eq. by intros [= <-].
      * rewrite lookup_insert_ne by done. apply Hinit.
    + rewrite !dom_insert. set_solver.
Qed.
End RunProps.

Lemma X9_witness :
  0 ≤ MaxRetriesPerBlock exampleConfig
  ∧ 0 ≤ doneTasks exampleRound.1
  ∧ doneTasks exampleRound.1
      + Z.of_nat (length (pending exampleRound.1 ++ exampleRound.2))
    ≤ (MaxRetriesPerBlock exampleConfig + 1) * 1.
Proof.
  split; [by vm_compute|].
  exact (@X9_results_bound asciiStrings exampleConfig 0 (day 19884)
           (λ _, (zeroTime, false, None)) {[ "btc" := "BTC" ]} exampleStates ∅
           exampleRound.1 exampleRound.2 ltac:(by vm_compute) example_reach).
Defined.

Lemma X11_witness :
  let res := mkTaskResult exampleTask 0 0 true 200 "" [] false in
  let gm : string → Time * bool * option string := λ _, (zeroTime, false, None) in
  ∃ st', states (@onResultBackfill asciiStrings exampleConfig exampleRound.1 res)
           !! "btc" = Some st'
    ∧ SearchEnd st' = day 19784
    ∧ SearchEmpty st' = 1
    ∧ SeenData st' = false
    ∧ (Done st' = true ↔ MaxSearchBlocks exampleConfig ≤ 0 + 1)
    ∧ (Done st' = false →
         match @scheduled asciiStrings exampleConfig 1 (day 19884) gm
                 {[ "btc" := "BTC" ]} "btc" st' with
         | Some t => tTo t = day 19784 ∧ StartDate exampleConfig ≤ day 19784
         | None => day 19784 < StartDate exampleConfig
         end).
Proof.
  intros res gm.
  exact (@X11_search_moves_back asciiStrings exampleConfig 1 (day 19884) gm
           {[ "btc" := "BTC" ]} exampleRound.1 res
           (mkCoinState (day 19884) 0 false 0 false)
           eq_refl eq_refl eq_refl eq_refl eq_refl ltac:(done) eq_refl).
Defined.

Lemma X10_witness :
  let coins := [mkCoin "btc" "btc" "Bitcoin"] in
  let gm : Z → string → Time * bool * option string := λ _ _, (zeroTime, false, None) in
  let act : gmap string Coin := {[ "btc" := mkCoin "btc" "btc" "" ]} in
  @backfillReturns asciiStrings exampleConfig (day 19884) gm coins act
  ∧ act !! "btc" = Some (mkCoin "btc" "btc" "")
  ∧ "btc" ∈ dom (@initStates asciiStrings exampleConfig (day 19884) coins).2.
Proof.
  intros coins gm act.
  assert (@backfillReturns asciiStrings exampleConfig (day 19884) gm coins act) as Hret.
  { right. right. exists 0, exampleStates, ∅.
    exists (@onResultBackfill asciiStrings exampleConfig exampleRound.1
              (mkTaskResult exampleTask 1 1 false 200 "" [] true)), [].
    split_and!.
    - exact (@run_first asciiStrings exampleConfig (day 19884) gm coins).
    - by vm_compute.
    - change (@roundReach asciiStrings exampleConfig 0 (day 19884)
                (λ _, (zeroTime, false, None)) {[ "btc" := "BTC" ]} exampleStates ∅
                (@onResultBackfill asciiStrings exampleConfig exampleRound.1
                   (mkTaskResult exampleTask 1 1 false 200 "" [] true), [])).
      eapply rtc_r; [apply example_reach|].
      apply (backfill_result exampleConfig exampleRound.1 [] []
               (mkTaskResult exampleTask 1 1 false 200 "" [] true)).
    - by vm_compute. }
  split; [exact Hret|]. split; [done|].
  exact (proj1 (@X10_active_coins asciiStrings exampleConfig (day 19884) gm coins act
                  Hret "btc" (mkCoin "btc" "btc" "") eq_refl)).
Defined.

Section WorkerExtras.
Context `{Float64}.

Lemma pathOf_insert w cfg t :
  pathOf w cfg t = InsertFailed ∨ pathOf w cfg t = Completed →
  fastPath w cfg t = false
  ∧ fErr (fetched w cfg t).1 = None
  ∧ size (byDayOf w cfg t) ≠ 0%nat.
Proof.
  unfold pathOf. destruct (fastPath w cfg t); [by intros [?|?]|].
  destruct (fErr (fetched w cfg t).1); [by intros [?|?]|].
  case_bool_decide as Hs; [by intros [?|?]|]. done.
Qed.

Lemma aggregate_emptyResp : aggregate emptyResp = ∅.
Proof. reflexivity. Qed.

Lemma fetched_none w cfg t :
  attemptsOf (fetched w cfg t).2 = [] →
  (fetched w cfg t).1 = mkFetch emptyResp 0 "" None.
Proof.
  unfold fetched.
  destruct (fetchLoop_run cfg t (seqZ 0 (MaxRetriesPerBlock cfg + 1))
              (mkFetch emptyResp 0 "" None) w)
    as (tried & rest & _ & Hlog & _ & _ & Hres & _).
  intros Hnil. rewrite Hres, <- Hlog, Hnil. done.
Qed.

(** X13. [handleTask] hands at most one batch of rows to the store, never an
    empty one, and only after the API was called and its last answer came
    without error. Every row of the batch carries the identifier and the
    symbol of the task and the currency of the configuration; its day is
    not among the days read from the store before, and its timestamp and
    values are those of the aggregated record of that day. *)
Theorem X13_rows_written cfg t w :
  let log := (handleTask cfg t w).2 in
  (length (batchesOf log) ≤ 1)%nat
  ∧ ∀ pts, pts ∈ batchesOf log →
      pts ≠ []
      ∧ attemptsOf log ≠ []
      ∧ fErr (fetched w cfg t).1 = None
      ∧ ∀ p, p ∈ pts →
          pID p = tCoinID t ∧ pSymbol p = tSymbol t
          ∧ pVsCurrency p = VsCurrency cfg
          ∧ hasDay (existingFor w cfg t) (dayKey (pTimestamp p)) = false
          ∧ byDayOf w cfg t !! dayKey (pTimestamp p)
            = Some (mkAgg (pTimestamp p) (pPrice p) (pMarketCap p) (pVolume p)).
Proof.
  intros log. subst log. rewrite handleTask_batches, handleTask_attempts.
  split.
  { destruct (pathOf w cfg t); try case_bool_decide; simpl; lia. }
  intros pts Hin.
  assert ((pathOf w cfg t = InsertFailed ∨ pathOf w cfg t = Completed)
          ∧ pts = toInsertFor w cfg t ∧ pts ≠ []) as (Hpath & -> & Hne).
  { destruct (pathOf w cfg t); try (by apply elem_of_nil in Hin);
      (case_bool_decide as Hlen; [by apply elem_of_nil in Hin|]);
      apply list_elem_of_singleton in Hin; subst pts;
      (split_and!; [by auto | done |]); intros Heq; by rewrite Heq in Hlen. }
  destruct (pathOf_insert w cfg t Hpath) as (Hfast & Herr & Hsize).
  split_and!; [done | | done |].
  - intros Hnil.
    assert (attemptsOf (fetched w cfg t).2 = []) as Hf.
    { by destruct Hpath as [Hp|Hp]; rewrite Hp in Hnil. }
    apply Hsize. unfold byDayOf. rewrite (fetched_none w cfg t Hf). done.
  - intros p Hp. unfold toInsertFor in Hp.
    apply toInsertOf_points in Hp as (d & a & Hd & Hex & Ha & ->). simpl.
    pose proof (aggregate_key _ _ _ Ha) as Hkey. rewrite Hkey.
    split_and!; [done | done | done | done |]. rewrite Ha. by destruct a.
Qed.

Lemma omap_length_le {A B} (f : A → option B) (l : list A) :
  (length (omap f l) ≤ length l)%nat.
Proof.
  induction l as [|x l IH]; [done|]. cbn [omap list_omap length].
  destruct (f x); cbn [length]; lia.
Qed.

Lemma toInsertOf_length cfg t byDay ex (apiDays : list DayKey) :
  (length (toInsertOf cfg t byDay ex apiDays) ≤ length apiDays)%nat.
Proof. apply omap_length_le. Qed.

Lemma insertedFor_count w cfg t :
  (insertedFor w cfg t).1.2 = None →
  (insertedFor w cfg t).1.1 = Z.of_nat (length (toInsertFor w cfg t)).
Proof.
  unfold insertedFor, insertDailyPoints. case_bool_decide as Hlen.
  - intros _. rewrite run_ret. simpl. by rewrite Hlen.
  - rewrite run_bind. unfold call. by destruct (wExec _ _ _).
Qed.

Lemma pathOf_completed w cfg t :
  pathOf w cfg t = Completed → (insertedFor w cfg t).1.2 = None.
Proof.
  unfold pathOf. repeat case_match; done.
Qed.

(** X14. The counters of a result agree with what was done: [Inserted] is
    never negative nor above [APIDays]; a result with [Inserted] not zero
    has no error, and exactly one batch of that many rows went to the
    store; [APIDays] not zero is the number of aggregated days, on a result
    that is not empty; and a result marked empty has both counters at zero
    and wrote nothing. *)
Theorem X14_result_counters cfg t w :
  let res := (handleTask cfg t w).1 in
  let log := (handleTask cfg t w).2 in
  0 ≤ rInserted res ≤ rAPIDays res
  ∧ (rInserted res ≠ 0 →
       rErr res = EmptyString
       ∧ batchesOf log = [toInsertFor w cfg t]
       ∧ rInserted res = Z.of_nat (length (toInsertFor w cfg t)))
  ∧ (rAPIDays res ≠ 0 →
       rAPIDays res = Z.of_nat (size (byDayOf w cfg t)) ∧ rEmpty res = false)
  ∧ (rEmpty res = true →
       rInserted res = 0 ∧ rAPIDays res = 0 ∧ batchesOf log = []).
Proof.
  intros res log. subst res log.
  rewrite handleTask_batches, handleTask_run.
  pose proof (apiDaysOf_length w cfg t) as Hlen.
  pose proof (toInsertOf_length cfg t (byDayOf w cfg t) (existingFor w cfg t)
                (apiDaysOf w cfg t)) as Hle.
  fold (toInsertFor w cfg t) in Hle.
  destruct (pathOf w cfg t) eqn:Hpath; cbn [fst rInserted rAPIDays rErr rEmpty].
  - split_and!; [lia | lia | done | done | done].
  - split_and!; [lia | lia | done | done | done].
  - split_and!; [lia | lia | done | done | done].
  - split_and!; [lia | lia | done | | done]. intros _. by rewrite Hlen.
  - rewrite (insertedFor_count w cfg t (pathOf_completed w cfg t Hpath)).
    split_and!; [lia | lia | | | done].
    + intros Hne. split_and!; [done | | done].
      rewrite bool_decide_eq_false_2; [done|]. lia.
    + intros _. by rewrite Hlen.
Qed.

(** *** The waits of the retry loop *)

Lemma sleepsOf_app l1 l2 : sleepsOf (l1 ++ l2) = sleepsOf l1 ++ sleepsOf l2.
Proof. apply omap_app. Qed.

Lemma sleepsOf_cons c l : sleepsOf (c :: l) = sleepsOf [c] ++ sleepsOf l.
Proof. apply (omap_app _ [c]). Qed.

Lemma fetchLoop_sleeps cfg t attempts : ∀ lastr w,
  sleepsOf (fetchLoop cfg t (formatDate (tFrom t)) (formatDate (tTo t))
              attempts lastr w).2
  = backoffSleep
    <$> List.filter (retryableFailure w cfg t)
          (attemptsOf (fetchLoop cfg t (formatDate (tFrom t)) (formatDate (tTo t))
                         attempts lastr w).2).
Proof.
  induction attempts as [|a attempts IH]; intros lastr w; [done|].
  cbn [fetchLoop]. rewrite run_bind, MarketChartRange_run.
  fold (fetchAt w cfg t a).
  assert (retryableFailure w cfg t a
          = match fErr (fetchAt w cfg t a) with
            | Some _ => isRetryableStatus (fStatus (fetchAt w cfg t a))
            | None => false
            end) as Hrf.
  { unfold retryableFailure. destruct (fErr (fetchAt w cfg t a)).
    - by rewrite bool_decide_eq_true_2.
    - rewrite bool_decide_eq_false_2; [done|]. by intros []. }
  destruct (fErr (fetchAt w cfg t a)) as [e|] eqn:He.
  - destruct (isRetryableStatus (fStatus (fetchAt w cfg t a))) eqn:Hr; cbn [negb].
    + rewrite run_bind. unfold sleep, call.
      specialize (IH (fetchAt w cfg t a) w).
      destruct (fetchLoop _ _ _ _ _ _ w) as [r log]. cbn [fst snd] in *.
      change (sleepsOf ([CallGet a (tCoinID t) (VsCurrency cfg) (formatDate (tFrom t))
                           (formatDate (tTo t)) (Interval cfg)]
                          ++ [CallSleep (backoffSleep a)] ++ log))
        with (backoffSleep a :: sleepsOf log).
      change (attemptsOf ([CallGet a (tCoinID t) (VsCurrency cfg) (formatDate (tFrom t))
                           (formatDate (tTo t)) (Interval cfg)]
                          ++ [CallSleep (backoffSleep a)] ++ log))
        with (a :: attemptsOf log).
      cbn [List.filter]. rewrite Hrf. cbn [fmap list_fmap]. by rewrite IH.
    + rewrite run_ret. cbn [snd]. rewrite app_nil_r.
      change (attemptsOf [CallGet a (tCoinID t) (VsCurrency cfg) (formatDate (tFrom t))
                           (formatDate (tTo t)) (Interval cfg)]) with [a].
      cbn [List.filter]. by rewrite Hrf.
  - rewrite run_ret. cbn [snd]. rewrite app_nil_r.
    change (attemptsOf [CallGet a (tCoinID t) (VsCurrency cfg) (formatDate (tFrom t))
                         (formatDate (tTo t)) (Interval cfg)]) with [a].
    cbn [List.filter]. by rewrite Hrf.
Qed.

Lemma handleTask_sleeps cfg t w :
  sleepsOf (handleTask cfg t w).2
  = match pathOf w cfg t with
    | FastPath => []
    | _ => sleepsOf (fetched w cfg t).2
    end.
Proof.
  rewrite handleTask_run.
  assert (sleepsOf (fallbackCalls w cfg t) = []) as Hfb.
  { unfold fallbackCalls. by case_match. }
  assert (sleepsOf (insertedFor w cfg t).2 = []) as Hins.
  { rewrite insertedFor_log. by case_match. }
  destruct (pathOf w cfg t); cbn [snd]; try done;
    rewrite sleepsOf_cons, ?sleepsOf_app, ?Hfb, ?Hins; simpl;
    by rewrite ?app_nil_r.
Qed.

(** X15. The worker waits once after every attempt of the fetch that
    failed with a status worth a retry, for [backoffSleep] of that attempt,
    and at no other time: also after the last attempt allowed, before it
    reports the failure. *)
Theorem X15_waits cfg t w :
  let log := (handleTask cfg t w).2 in
  sleepsOf log
  = backoffSleep <$> List.filter (retryableFailure w cfg t) (attemptsOf log).
Proof.
  intros log. subst log. rewrite handleTask_sleeps, handleTask_attempts.
  destruct (pathOf w cfg t); [done|..]; apply fetchLoop_sleeps.
Qed.

(** *** Whether the API is called *)

Lemma fastPath_path w cfg t : pathOf w cfg t = FastPath ↔ fastPath w cfg t = true.
Proof.
  unfold pathOf. destruct (fastPath w cfg t); [done|].
  split; [|done]. by repeat case_match.
Qed.

Lemma fetched_no_budget w cfg t :
  MaxRetriesPerBlock cfg < 0 →
  fetched w cfg t = (mkFetch emptyResp 0 "" None, []).
Proof. intros Hneg. unfold fetched. by rewrite seqZ_nil by lia. Qed.

Lemma fetched_first w cfg t :
  0 ≤ MaxRetriesPerBlock cfg → head (attemptsOf (fetched w cfg t).2) = Some 0.
Proof.
  intros Hmax.
  destruct (fetched_attempts w cfg t) as (tried & rest & Hsplit & Hlog & Hseq & _).
  rewrite Hlog. unfold fetched in Hlog.
  destruct (fetchLoop_run cfg t (seqZ 0 (MaxRetriesPerBlock cfg + 1))
              (mkFetch emptyResp 0 "" None) w)
    as (tried' & rest' & Hsplit' & Hlog' & _ & _ & _ & Hnil & _).
  rewrite Hlog in Hlog'. subst tried'.
  destruct tried as [|a tried].
  - specialize (Hnil eq_refl). apply (f_equal length) in Hnil.
    rewrite length_seqZ in Hnil. simpl in Hnil. lia.
  - rewrite Hseq. rewrite seqZ_cons by (simpl; lia). done.
Qed.

Lemma daysInclusive_nil from to :
  dayKey to < dayKey from → daysInclusive from to = [].
Proof.
  intros Hlt. unfold daysInclusive, Before.
  rewrite (proj2 (Z.ltb_lt _ _)); [done|].
  rewrite !dateOnlyUTC_key. unfold msPerDay. lia.
Qed.

(** X16. [handleTask] calls the API unless it takes the fast path or the
    retry budget is negative, and the first attempt has number 0. A task
    that is a retry, or whose window ends on a day before it starts, never
    takes the fast path. With a negative budget and no fast path the
    window is reported as empty, without error, after the first query of
    the store alone. *)
Theorem X16_api_called cfg t w :
  let res := (handleTask cfg t w).1 in
  let log := (handleTask cfg t w).2 in
  (attemptsOf log = [] ↔ fastPath w cfg t = true ∨ MaxRetriesPerBlock cfg < 0)
  ∧ (attemptsOf log ≠ [] → head (attemptsOf log) = Some 0)
  ∧ (tRetry t ≠ 0 ∨ dayKey (tTo t) < dayKey (tFrom t) → fastPath w cfg t = false)
  ∧ (fastPath w cfg t = false → MaxRetriesPerBlock cfg < 0 →
       res = mkTaskResult t 0 0 true 200 EmptyString [] false
       ∧ log = [queryCall cfg t PreCheck]).
Proof.
  intros res log. subst res log.
  assert (attemptsOf (handleTask cfg t w).2 = []
          ↔ fastPath w cfg t = true ∨ MaxRetriesPerBlock cfg < 0) as Hiff.
  { rewrite handleTask_attempts. pose proof (fastPath_path w cfg t) as Hfp.
    destruct (decide (MaxRetriesPerBlock cfg < 0)) as [Hneg|Hpos].
    - rewrite (fetched_no_budget w cfg t Hneg). simpl.
      split; [by right|]. intros _. by destruct (pathOf w cfg t).
    - pose proof (fetched_first w cfg t ltac:(lia)) as Hhd.
      destruct (pathOf w cfg t) eqn:Hpath;
        try (split; [intros Hnil; by rewrite Hnil in Hhd
                    |intros [Hf|Hn]; [apply Hfp in Hf; congruence | lia]]).
      split; [intros _; left; by apply Hfp | done]. }
  split_and!; [exact Hiff | | |].
  - intros Hne. rewrite handleTask_attempts in *.
    assert (0 ≤ MaxRetriesPerBlock cfg) as Hmax.
    { destruct (decide (MaxRetriesPerBlock cfg < 0)) as [Hneg|]; [|lia].
      exfalso. apply Hne. rewrite (fetched_no_budget w cfg t Hneg).
      by destruct (pathOf w cfg t). }
    pose proof (fetched_first w cfg t Hmax) as Hhd.
    by destruct (pathOf w cfg t).
  - intros Hor. unfold fastPath. destruct (existingAt w cfg t PreCheck) as [ex err].
    destruct Hor as [Hr|Hinv].
    + rewrite (proj2 (Z.eqb_neq _ _) Hr). by rewrite andb_false_r.
    + rewrite (daysInclusive_nil _ _ Hinv). simpl. by rewrite andb_false_r.
  - intros Hfast Hneg.
    assert (pathOf w cfg t = NoDays) as Hpath.
    { unfold pathOf, byDayOf. rewrite Hfast, (fetched_no_budget w cfg t Hneg).
      cbn [fst fErr fResp]. rewrite aggregate_emptyResp, map_size_empty.
      by rewrite bool_decide_eq_true_2. }
    rewrite handleTask_run, Hpath, (fetched_no_budget w cfg t Hneg). done.
Qed.

(** X17. When the fetch fails, the result carries the status of the last
    attempt made, and its error text is the error of that attempt followed
    by [; body=] and the body cut by [truncate] at 300 bytes. *)
Theorem X17_failure_report cfg t w :
  pathOf w cfg t = FetchFailed →
  let res := (handleTask cfg t w).1 in
  let log := (handleTask cfg t w).2 in
  ∃ a e,
    last (attemptsOf log) = Some a
    ∧ fErr (fetchAt w cfg t a) = Some e
    ∧ rHTTPStatus res = fStatus (fetchAt w cfg t a)
    ∧ rErr res = e +:+ "; body=" +:+ truncate (fBody (fetchAt w cfg t a)) 300.
Proof.
  intros Hpath res log. subst res log.
  rewrite handleTask_attempts, handleTask_run, Hpath. cbn [fst].
  destruct (fetched_attempts w cfg t) as (tried & rest & _ & Hlog & _ & _ & Hlast & _).
  assert (fErr (fetched w cfg t).1 ≠ None) as Herr.
  { unfold pathOf in Hpath. destruct (fastPath w cfg t); [done|].
    destruct (fErr (fetched w cfg t).1); [done|]. by repeat case_match. }
  rewrite Hlog. destruct (last tried) as [a|] eqn:Ha.
  - rewrite (Hlast a eq_refl) in *.
    destruct (fErr (fetchAt w cfg t a)) as [e|] eqn:He; [|done].
    exists a, e. by rewrite He.
  - exfalso. apply Herr. apply last_None in Ha. rewrite Ha in Hlog.
    by rewrite (fetched_none w cfg t Hlog).
Qed.
End WorkerExtras.

Lemma X17_witness :
  let t := mkTask "btc" "BTC" (day 19882) (day 19884) 0 PhaseBackfill in
  let w := exampleWorld [] (RowsRead [] None) failingHTTP exampleResp in
  let res := (@handleTask floatZ exampleConfig t w).1 in
  @pathOf floatZ w exampleConfig t = FetchFailed
  ∧ ∃ a e,
      last (@attemptsOf floatZ (@handleTask floatZ exampleConfig t w).2) = Some a
      ∧ fErr (@fetchAt floatZ w exampleConfig t a) = Some e
      ∧ rHTTPStatus res = fStatus (@fetchAt floatZ w exampleConfig t a)
      ∧ rErr res = e +:+ "; body="
                   +:+ truncate (fBody (@fetchAt floatZ w exampleConfig t a)) 300.
Proof.
  intros t w res.
  assert (@pathOf floatZ w exampleConfig t = FetchFailed) as Hpath
    by (vm_compute; reflexivity).
  split; [exact Hpath|].
  exact (@X17_failure_report floatZ exampleConfig t w Hpath).
Defined.

Lemma windowsLoop_done n id sym cur yday :
  yday < cur → windowsLoop n id sym cur yday = [].
Proof.
  intros Hlt. destruct n; simpl; [done|]. unfold After.
  by rewrite (proj2 (Z.ltb_lt _ _)) by done.
Qed.

Lemma windowsLoop_explicit n id sym c y :
  c ≤ y → (tripCount (day c) (day y) <= n)%nat →
  windowsLoop n id sym (day c) (day y)
  = windowAt id sym c y <$> seqZ 0 ((y - c) / 100 + 1).
Proof.
  revert c. induction n as [|n IH]; intros c Hle Hn.
  - rewrite tripCount_step in Hn by (unfold day, msPerDay; lia). lia.
  - simpl. unfold After.
    rewrite (proj2 (Z.ltb_ge (day y) (day c))) by (unfold day, msPerDay; lia).
    rewrite tripCount_step in Hn by (unfold day, msPerDay; lia).
    assert (0 ≤ (y - c) / 100) as Hq by (apply Z.div_pos; lia).
    rewrite seqZ_cons by lia. rewrite fmap_cons.
    replace (Z.pred ((y - c) / 100 + 1)) with ((y - c) / 100) by lia.
    assert ((if day y <? AddDays (day c) 99 then day y else AddDays (day c) 99)
            = day (Z.min (c + 99) y)) as ->.
    { destruct (day y <? AddDays (day c) 99) eqn:He;
        [apply Z.ltb_lt in He | apply Z.ltb_ge in He];
        unfold AddDays, day, msPerDay in *; f_equal; lia. }
    f_equal.
    { unfold windowAt. by rewrite Z.mul_0_r, !Z.add_0_r. }
    destruct (decide (y < c + 100)) as [Hlt|Hge].
    + rewrite windowsLoop_done by (unfold AddDays, day, msPerDay; lia).
      rewrite Z.div_small by lia. done.
    + replace (AddDays (day (Z.min (c + 99) y)) 1) with (day (c + 100))
        by (unfold AddDays, day; lia).
      rewrite IH; [|lia|].
      * replace ((y - (c + 100)) / 100 + 1) with ((y - c) / 100).
        2:{ replace (y - c) with ((y - (c + 100)) + 1 * 100) by lia.
            rewrite Z.div_add by lia. lia. }
        change (Z.succ 0) with (1 + 0). rewrite <- fmap_add_seqZ.
        rewrite <- list_fmap_compose. apply list_fmap_ext.
        intros _ i _. unfold windowAt. simpl. f_equal; f_equal; lia.
      * assert (tripCount (day (c + 100)) (day y)
                ≤ tripCount (AddDays (day c) 1) (day y))%nat; [|lia].
        apply tripCount_mono. unfold AddDays, day, msPerDay. lia.
Qed.

Section IncrementalExtras.
Context `{GoStrings}.

Lemma dayKey_day k : dayKey (day k) = k.
Proof. unfold dayKey, day. apply Z.div_mul. unfold msPerDay. lia. Qed.

Lemma tasksForCoin_windows cfg yd md c maxD :
  eligible cfg c = true →
  md !! TrimSpace (cID c) = Some maxD →
  tasksForCoin cfg (day yd) md c
  = if decide (dayKey maxD < yd)
    then windowAt (TrimSpace (cID c)) (ToUpper (TrimSpace (cSymbol c)))
           (dayKey maxD + 1) yd
         <$> seqZ 0 ((yd - (dayKey maxD + 1)) / 100 + 1)
    else [].
Proof.
  intros Hel Hmd. rewrite (tasksForCoin_eligible _ _ _ _ Hel), Hmd. cbv zeta.
  assert (dateOnlyUTC (AddDays maxD 1) = day (dayKey maxD + 1)) as ->.
  { rewrite dateOnlyUTC_key, dayKey_AddDays. unfold day. lia. }
  unfold After. case_decide as Hlt.
  - rewrite (proj2 (Z.ltb_ge (day yd) (day (dayKey maxD + 1))))
      by (unfold day, msPerDay; lia).
    apply windowsLoop_explicit; [lia | done].
  - by rewrite (proj2 (Z.ltb_lt (day yd) (day (dayKey maxD + 1))))
      by (unfold day, msPerDay; lia).
Qed.

Lemma yesterdayUTC_day now : yesterdayUTC now = day (dayKey (yesterdayUTC now)).
Proof.
  rewrite <- (yesterdayUTC_date now) at 1. rewrite dateOnlyUTC_key.
  unfold day. lia.
Qed.

(** X18. For a coin that passes the guards and whose newest stored day is
    before yesterday, [BuildIncrementalTasks] makes the windows number 0, 1,
    2, ... of 100 days from the day after the newest stored day: window [i]
    starts 100 [i] days after that day and ends 99 days later, or yesterday
    when this is earlier. There are [(yesterday - first day) / 100 + 1]
    windows, all with retry count 0 and the incremental phase. *)
Theorem X18_incremental_windows cfg now md c maxD :
  eligible cfg c = true →
  md !! TrimSpace (cID c) = Some maxD →
  dayKey maxD < dayKey (yesterdayUTC now) →
  let first := dayKey maxD + 1 in
  let yd := dayKey (yesterdayUTC now) in
  BuildIncrementalTasks cfg now [c] md
  = windowAt (TrimSpace (cID c)) (ToUpper (TrimSpace (cSymbol c))) first yd
    <$> seqZ 0 ((yd - first) / 100 + 1).
Proof.
  intros Hel Hmd Hlt first yd.
  rewrite BuildIncrementalTasks_cons. unfold BuildIncrementalTasks at 1. simpl.
  rewrite app_nil_r, (yesterdayUTC_day now).
  rewrite (tasksForCoin_windows _ _ _ _ _ Hel Hmd). fold yd.
  by rewrite decide_True by done.
Qed.
End IncrementalExtras.

Lemma X18_witness :
  let cfg := mkConfig "usd" "daily" None "coingecko_market_cap_daily" 0 2 30 3 in
  let now : Time := 320 * msPerDay + 3600000 in
  let c := mkCoin " btc " "btc" "Bitcoin" in
  let md : gmap string Time := {[ "btc" := 10 * msPerDay ]} in
  @eligible asciiStrings cfg c = true
  ∧ md !! "btc" = Some (10 * msPerDay)
  ∧ dayKey (10 * msPerDay) < dayKey (yesterdayUTC now)
  ∧ @BuildIncrementalTasks asciiStrings cfg now [c] md
    = [windowAt "btc" "BTC" 11 319 0; windowAt "btc" "BTC" 11 319 1;
       windowAt "btc" "BTC" 11 319 2; windowAt "btc" "BTC" 11 319 3].
Proof.
  intros cfg now c md.
  split; [by vm_compute|]. split; [by vm_compute|]. split; [by vm_compute|].
  exact (@X18_incremental_windows asciiStrings cfg now md c (10 * msPerDay)
           eq_refl eq_refl eq_refl).
Defined.

(** ** parseCSVSet *)

(** The model of [strings.Split] cuts at every comma and loses nothing. *)
Lemma splitComma_join s :
  splitComma s ≠ [] ∧ joinComma (splitComma s) = s.
Proof.
  induction s as [|c s [Hne IH]]; simpl; [done|].
  destruct (Ascii.eqb c ",") eqn:Hc.
  - apply Ascii.eqb_eq in Hc. subst c. split; [done|].
    destruct (splitComma s) as [|p ps]; [done|]. simpl in *. by rewrite IH.
  - destruct (splitComma s) as [|p ps]; [done|]. split; [done|].
    destruct ps as [|q ps]; simpl in *; by rewrite <- IH.
Qed.

Section MainGoProps.
Context `{GoStrings}.

Lemma fold_addPiece ps : ∀ set id,
  fold_left addPiece ps set !! id
  = if bool_decide (id ≠ EmptyString ∧ id ∈ TrimSpace <$> ps) then Some true
    else set !! id.
Proof.
  induction ps as [|p ps IH]; intros set id; simpl.
  { rewrite bool_decide_eq_false_2; [done|]. intros [_ Hin]. by apply elem_of_nil in Hin. }
  rewrite IH. unfold addPiece.
  destruct (decide (id ≠ EmptyString ∧ id ∈ TrimSpace <$> ps)) as [Hin|Hnin].
  { rewrite !bool_decide_eq_true_2; [done| |done].
    destruct Hin as [? ?]. split; [done|]. by right. }
  rewrite (bool_decide_eq_false_2 _ Hnin).
  case_bool_decide as Hp.
  - rewrite bool_decide_eq_false_2; [done|]. intros [Hne [->|Hin]%elem_of_cons]; tauto.
  - destruct (decide (id = TrimSpace p)) as [->|Hne].
    + rewrite lookup_insert_eq, bool_decide_eq_true_2; [done|]. split; [done|]. by left.
    + rewrite lookup_insert_ne by done.
      rewrite bool_decide_eq_false_2; [done|].
      intros [Hne' [->|Hin]%elem_of_cons]; tauto.
Qed.

(** X19. With the allow-list read by [parseCSVSet] from the text [s]: when
    [s] is blank there is no list and every coin passes; otherwise a coin
    passes exactly when its identifier is not empty and equals one of the
    pieces of [s] between commas, trimmed. So a text of commas and blanks
    only (but not blank as a whole) lets no coin pass. *)
Theorem X19_allow_list cfg s :
  CoinIDsFilter cfg = parseCSVSet s →
  (TrimSpace s = EmptyString → ∀ id, filteredOut cfg id = false)
  ∧ (TrimSpace s ≠ EmptyString →
       ∀ id, filteredOut cfg id = false
             ↔ id ≠ EmptyString
               ∧ ∃ p, p ∈ splitComma (TrimSpace s) ∧ TrimSpace p = id).
Proof.
  intros Hf. unfold filteredOut. rewrite Hf. unfold parseCSVSet. split.
  - intros ->. by rewrite bool_decide_eq_true_2.
  - intros Hne id. rewrite (bool_decide_eq_false_2 _ Hne), fold_addPiece.
    rewrite lookup_empty. case_bool_decide as Hin; simpl.
    + split; [intros _|done]. destruct Hin as [Hid Hin]. split; [done|].
      apply list_elem_of_fmap in Hin as (p & -> & Hp). by exists p.
    + split; [done|]. intros (Hid & p & Hp & <-). exfalso. apply Hin.
      split; [done|]. apply list_elem_of_fmap. by exists p.
Qed.

(** ** fetchCoinsLists *)

Lemma listed_id cfg c c' :
  listed cfg c = Some c' →
  cID c' = TrimSpace (cID c) ∧ cID c' ≠ EmptyString ∧ filteredOut cfg (cID c') = false.
Proof.
  unfold listed. simpl. case_bool_decide as Hid; [done|].
  destruct (filteredOut cfg (TrimSpace (cID c))) eqn:Hf; [done|].
  by intros [= <-].
Qed.

Lemma fold_addSeen cfg l : ∀ m id,
  fold_left (addSeen cfg) l m !! id
  = match m !! id with
    | Some c => Some c
    | None => head (filter (λ c, cID c = id) (omap (listed cfg) l))
    end.
Proof.
  induction l as [|c l IH]; intros m id; cbn [fold_left omap list_omap].
  { by destruct (m !! id). }
  rewrite IH. unfold addSeen.
  destruct (listed cfg c) as [c'|] eqn:Hl; [|done].
  rewrite filter_cons.
  destruct (decide (cID c' = id)) as [<-|Hne].
  - destruct (m !! cID c') eqn:Hm; [by rewrite Hm|].
    by rewrite lookup_insert_eq.
  - destruct (m !! cID c') eqn:Hm; [done|].
    by rewrite lookup_insert_ne.
Qed.

Lemma fold_addActive cfg l : ∀ m id,
  fold_left (addActive cfg) l m !! id
  = match last (filter (λ c, cID c = id) (omap (listed cfg) l)) with
    | Some c => Some c
    | None => m !! id
    end.
Proof.
  induction l as [|c l IH]; intros m id; cbn [fold_left omap list_omap]; [done|].
  rewrite IH. unfold addActive.
  destruct (listed cfg c) as [c'|] eqn:Hl; [|done].
  rewrite filter_cons.
  destruct (decide (cID c' = id)) as [<-|Hne].
  - rewrite lookup_insert_eq.
    destruct (filter _ _) as [|x xs] eqn:Hf; [done|].
    rewrite last_cons_cons.
    by destruct (proj2 (last_is_Some (x :: xs))) as [y ->].
  - by rewrite lookup_insert_ne.
Qed.

Lemma kept_id cfg (l : list Coin) id c :
  c ∈ filter (λ c, cID c = id) (omap (listed cfg) l) →
  cID c = id ∧ id ≠ EmptyString ∧ filteredOut cfg id = false.
Proof.
  intros [Hid Hin]%list_elem_of_filter.
  apply list_elem_of_omap in Hin as (c0 & _ & Hl).
  destruct (listed_id _ _ _ Hl) as (_ & Hne & Hf). by subst id.
Qed.

Lemma values_keyed (m : gmap string Coin) :
  (∀ id c, m !! id = Some c → cID c = id) →
  NoDup (cID <$> (map_to_list m).*2)
  ∧ ∀ c, c ∈ (map_to_list m).*2 ↔ m !! cID c = Some c.
Proof.
  intros Hkey. split.
  - assert (cID <$> (map_to_list m).*2 = (map_to_list m).*1) as ->.
    { rewrite <- list_fmap_compose. apply list_fmap_ext.
      intros i [id c] Hi. simpl. apply Hkey.
      apply elem_of_map_to_list. by eapply list_elem_of_lookup_2. }
    apply NoDup_fst_map_to_list.
  - intros c. rewrite list_elem_of_fmap. split.
    + intros ([id c'] & -> & Hin). apply elem_of_map_to_list in Hin. simpl.
      by rewrite (Hkey _ _ Hin).
    + intros Hc. exists (cID c, c). split; [done|]. by apply elem_of_map_to_list.
Qed.

(** X20. [fetchCoinsLists] keeps the coins whose trimmed identifier is not
    empty and passes the allow-list, with identifier and symbol trimmed.
    In [all] every identifier appears once, with the first coin that has it
    in the active list followed by the inactive list; in [active] every
    identifier appears once, with the last coin that has it in the active
    list. Every identifier of [active] is one of [all]. A list whose
    request failed counts as empty. *)
Theorem X20_coin_lists cfg actR inactR :
  let act := coinsOrNil actR in
  let inact := coinsOrNil inactR in
  let r := fetchCoinsLists cfg actR inactR in
  let kept (l : list Coin) (id : string) :=
    filter (λ c, cID c = id) (omap (listed cfg) l) in
  (∀ c, c ∈ r.1 ↔ head (kept (act ++ inact) (cID c)) = Some c)
  ∧ (∀ c, c ∈ r.2 ↔ last (kept act (cID c)) = Some c)
  ∧ NoDup (cID <$> r.1) ∧ NoDup (cID <$> r.2)
  ∧ (∀ c, c ∈ r.1 ∨ c ∈ r.2 →
       cID c ≠ EmptyString ∧ filteredOut cfg (cID c) = false)
  ∧ (∀ c, c ∈ r.2 → ∃ c', c' ∈ r.1 ∧ cID c' = cID c).
Proof.
  intros act inact r kept. subst r. unfold fetchCoinsLists. fold act inact.
  rewrite <- fold_left_app. cbn [fst snd].
  set (seen := fold_left (addSeen cfg) (act ++ inact) ∅).
  set (byID := fold_left (addActive cfg) act ∅).
  assert (∀ id, seen !! id = head (kept (act ++ inact) id)) as Hseen.
  { intros id. unfold seen. by rewrite fold_addSeen, lookup_empty. }
  assert (∀ id, byID !! id = last (kept act id)) as Hact.
  { intros id. unfold byID. rewrite fold_addActive, lookup_empty.
    fold (kept act id). by destruct (last (kept act id)). }
  assert (∀ id c, seen !! id = Some c → cID c = id) as Hk1.
  { intros id c. rewrite Hseen. intros Hh.
    apply head_Some_elem_of in Hh. by apply kept_id in Hh as [? _]. }
  assert (∀ id c, byID !! id = Some c → cID c = id) as Hk2.
  { intros id c. rewrite Hact. intros Hh.
    apply last_Some_elem_of in Hh. by apply kept_id in Hh as [? _]. }
  destruct (values_keyed seen Hk1) as [Hnd1 Hin1].
  destruct (values_keyed byID Hk2) as [Hnd2 Hin2].
  split_and!; [| | done | done | |].
  - intros c. by rewrite Hin1, Hseen.
  - intros c. by rewrite Hin2, Hact.
  - intros c [Hc|Hc].
    + apply Hin1 in Hc. rewrite Hseen in Hc. apply head_Some_elem_of in Hc.
      by apply kept_id in Hc as (_ & ? & ?).
    + apply Hin2 in Hc. rewrite Hact in Hc. apply last_Some_elem_of in Hc.
      by apply kept_id in Hc as (_ & ? & ?).
  - intros c Hc. apply Hin2 in Hc. rewrite Hact in Hc.
    apply last_Some_elem_of in Hc.
    assert (c ∈ kept (act ++ inact) (cID c)) as Hin.
    { unfold kept in *. rewrite omap_app, filter_app. apply elem_of_app. by left. }
    destruct (kept (act ++ inact) (cID c)) as [|c' rest] eqn:Hkept.
    { by apply elem_of_nil in Hin. }
    exists c'. split.
    + apply Hin1. assert (cID c' = cID c) as Hid.
      { assert (c' ∈ kept (act ++ inact) (cID c)) as Hc' by (rewrite Hkept; by left).
        by apply kept_id in Hc' as [? _]. }
      rewrite Hid, Hseen, Hkept. done.
    + assert (c' ∈ kept (act ++ inact) (cID c)) as Hc' by (rewrite Hkept; by left).
      by apply kept_id in Hc' as [? _].
Qed.

(** ** coinFromIDMap *)

Lemma lessEqID_total : Total lessEqID.
Proof. intros a b. apply String.leb_total. Qed.

(** X21. [coinFromIDMap] returns the coins of the map, each once, with an
    empty identifier replaced by the key, in an order in which no coin is
    followed by one with a smaller identifier. When every coin of the map
    has its key as identifier, or none, the identifiers of the result are
    the keys, each once, and every coin keeps its symbol and name. The
    coins chosen for the incremental passes are the active list of the API,
    or this list of the map when the API gave none: there is no coin to
    follow only when both are empty. *)
Theorem X21_coinFromIDMap (m : gmap string Coin) :
  coinFromIDMap m ≡ₚ fillID <$> map_to_list m
  ∧ length (coinFromIDMap m) = size m
  ∧ Sorted lessEqID (coinFromIDMap m)
  ∧ (∀ api, incrementalTargets api m = [] ↔ api = [] ∧ m = ∅)
  ∧ ((∀ id c, m !! id = Some c → cID c = id ∨ cID c = EmptyString) →
       NoDup (cID <$> coinFromIDMap m)
       ∧ ∀ c, c ∈ coinFromIDMap m
              ↔ ∃ c0, m !! cID c = Some c0 ∧ cSymbol c = cSymbol c0
                      ∧ cName c = cName c0).
Proof.
  assert (coinFromIDMap m ≡ₚ fillID <$> map_to_list m) as Hperm
    by apply merge_sort_Permutation.
  assert (length (coinFromIDMap m) = size m) as Hlen
    by (by rewrite Hperm, length_fmap, length_map_to_list).
  split_and!; [done | done | | |].
  - apply (Sorted_merge_sort lessEqID (Total0:=lessEqID_total)).
  - intros api. unfold incrementalTargets. destruct api as [|c api]; simpl.
    + rewrite <- length_zero_iff_nil, Hlen. rewrite map_size_empty_iff. tauto.
    + split; [done | by intros [? _]].
  - intros Hkey.
    assert (∀ id c, m !! id = Some c → cID (fillID (id, c)) = id) as Hfill.
    { intros id c Hc. unfold fillID. simpl.
      case_bool_decide as He; [done|]. by destruct (Hkey id c Hc). }
    split.
    + rewrite Hperm.
      assert (cID <$> (fillID <$> map_to_list m) = (map_to_list m).*1) as ->.
      { rewrite <- list_fmap_compose. apply list_fmap_ext.
        intros i [id c] Hi. simpl. apply Hfill.
        apply elem_of_map_to_list. by eapply list_elem_of_lookup_2. }
      apply NoDup_fst_map_to_list.
    + intros c. rewrite Hperm, list_elem_of_fmap. split.
      * intros ([id c0] & -> & Hin). apply elem_of_map_to_list in Hin.
        rewrite (Hfill id c0 Hin). exists c0. split; [done|].
        unfold fillID. simpl. by case_bool_decide.
      * intros (c0 & Hc0 & Hsym & Hname). exists (cID c, c0).
        split; [|by apply elem_of_map_to_list].
        unfold fillID. simpl. destruct c as [i sy n], c0 as [i0 sy0 n0].
        simpl in *. subst. case_bool_decide as He; [done|].
        destruct (Hkey _ _ Hc0) as [Hk|Hk]; simpl in Hk; by subst.
Qed.

(** ** The tasks of an incremental pass *)

Lemma elem_of_BuildIncrementalTasks cfg now cs md t :
  t ∈ BuildIncrementalTasks cfg now cs md
  ↔ ∃ c, c ∈ cs ∧ t ∈ tasksForCoin cfg (yesterdayUTC now) md c.
Proof.
  induction cs as [|c cs IH].
  - unfold BuildIncrementalTasks. simpl. split; [by intros ?%elem_of_nil|].
    by intros (c & ?%elem_of_nil & _).
  - rewrite BuildIncrementalTasks_cons, elem_of_app, IH. split.
    + intros [Hc|(c' & Hc' & Ht)]; [exists c | exists c']; split; try done;
        [by left | by right].
    + intros (c' & [->|Hc']%elem_of_cons & Ht); [by left|]. right. by exists c'.
Qed.

Lemma fold_addMaxDate getMaxDate l : ∀ m id md,
  fold_left (addMaxDate getMaxDate) l m !! id = Some md →
  m !! id = Some md
  ∨ (id ≠ EmptyString ∧ getMaxDate id = (md, true, None)
     ∧ ∃ c, c ∈ l ∧ TrimSpace (cID c) = id).
Proof.
  induction l as [|c l IH]; intros m id md; simpl; [by left|].
  intros Hl. apply IH in Hl as [Hm|(Hne & Hg & c' & Hc' & Hid)].
  2:{ right. split_and!; [done | done |]. exists c'. split; [by right | done]. }
  unfold addMaxDate in Hm. case_bool_decide as Hid; [by left|].
  destruct (getMaxDate (TrimSpace (cID c))) as [[md' ok] err] eqn:Hg.
  case_bool_decide as Herr; simpl in Hm; [|by left].
  destruct ok; [|by left]. subst err.
  destruct (decide (id = TrimSpace (cID c))) as [->|Hne].
  - rewrite lookup_insert_eq in Hm. injection Hm as ->. right.
    split_and!; [done | done |]. exists c. split; [by left | done].
  - rewrite lookup_insert_ne in Hm by done. by left.
Qed.

(** X22. Every task of an incremental pass is for a listed coin whose
    identifier is not empty and for which the store answered a newest day
    without error; its window starts after that day, does not end before
    it starts, and ends yesterday at the latest. So a coin without a stored
    day, or whose query failed, is left out of the pass, and no stored day
    up to the newest one is fetched again. *)
Theorem X22_pass_tasks cfg now getMaxDate coins t :
  t ∈ passTasks cfg now getMaxDate coins →
  ∃ c maxD,
    c ∈ coins ∧ tCoinID t = TrimSpace (cID c) ∧ tCoinID t ≠ EmptyString
    ∧ getMaxDate (tCoinID t) = (maxD, true, None)
    ∧ dayKey maxD < dayKey (tFrom t)
    ∧ dayKey (tFrom t) ≤ dayKey (tTo t)
    ∧ dayKey (tTo t) ≤ dayKey (yesterdayUTC now)
    ∧ tRetry t = 0 ∧ tPhase t = PhaseIncremental.
Proof.
  unfold passTasks. case_bool_decide as Hlen; [by intros ?%elem_of_nil|].
  intros (c & Hc & Ht)%elem_of_BuildIncrementalTasks.
  destruct (eligible cfg c) eqn:Hel.
  2:{ rewrite tasksForCoin_not_eligible in Ht by done. by apply elem_of_nil in Ht. }
  set (md := fold_left (addMaxDate getMaxDate) coins ∅) in *.
  destruct (md !! TrimSpace (cID c)) as [maxD|] eqn:Hmd.
  2:{ rewrite tasksForCoin_eligible, Hmd in Ht by done. by apply elem_of_nil in Ht. }
  rewrite (yesterdayUTC_day now) in Ht.
  rewrite (tasksForCoin_windows _ _ _ _ _ Hel Hmd) in Ht.
  case_decide as Hlt; [|by apply elem_of_nil in Ht].
  apply list_elem_of_fmap in Ht as (i & -> & Hi). apply elem_of_seqZ in Hi.
  apply fold_addMaxDate in Hmd as [Hm|(Hne & Hg & _)]; [by rewrite lookup_empty in Hm|].
  exists c, maxD. unfold windowAt. simpl. rewrite !dayKey_day.
  assert (0 ≤ (dayKey (yesterdayUTC now) - (dayKey maxD + 1)) / 100)
    by (apply Z.div_pos; lia).
  assert (100 * i ≤ dayKey (yesterdayUTC now) - (dayKey maxD + 1)).
  { assert (100 * ((dayKey (yesterdayUTC now) - (dayKey maxD + 1)) / 100)
            ≤ dayKey (yesterdayUTC now) - (dayKey maxD + 1))
      by (apply Z.mul_div_le; lia). lia. }
  split_and!; try done; lia.
Qed.
End MainGoProps.

Lemma X19_witness :
  let s := " btc, eth ,," in
  let cfg := mkConfig "usd" "daily" (@parseCSVSet asciiStrings s)
               "coingecko_market_cap_daily" 0 2 30 3 in
  CoinIDsFilter cfg = @parseCSVSet asciiStrings s
  ∧ @TrimSpace asciiStrings s ≠ EmptyString
  ∧ (filteredOut cfg "eth" = false
     ↔ "eth" ≠ EmptyString
       ∧ ∃ p, p ∈ splitComma (@TrimSpace asciiStrings s)
              ∧ @TrimSpace asciiStrings p = "eth").
Proof.
  intros s cfg. split; [reflexivity|]. split; [by vm_compute|].
  exact (proj2 (@X19_allow_list asciiStrings cfg s eq_refl)
           ltac:(by vm_compute) "eth").
Defined.

Lemma X22_witness :
  let cfg := mkConfig "usd" "daily" None "coingecko_market_cap_daily" 0 2 30 3 in
  let now : Time := 320 * msPerDay + 3600000 in
  let coins := [mkCoin " btc " "btc" "Bitcoin"; mkCoin "eth" "eth" "Ethereum"] in
  let gm : string → Time * bool * option string :=
    λ id, if bool_decide (id = "btc") then (10 * msPerDay, true, None)
          else (zeroTime, false, None) in
  let t := windowAt "btc" "BTC" 11 319 3 in
  t ∈ @passTasks asciiStrings cfg now gm coins
  ∧ ∃ c maxD,
      c ∈ coins ∧ tCoinID t = @TrimSpace asciiStrings (cID c)
      ∧ tCoinID t ≠ EmptyString
      ∧ gm (tCoinID t) = (maxD, true, None)
      ∧ dayKey maxD < dayKey (tFrom t)
      ∧ dayKey (tFrom t) ≤ dayKey (tTo t)
      ∧ dayKey (tTo t) ≤ dayKey (yesterdayUTC now)
      ∧ tRetry t = 0 ∧ tPhase t = PhaseIncremental.
Proof.
  intros cfg now coins gm t.
  assert (t ∈ @passTasks asciiStrings cfg now gm coins) as Hin.
  { replace (@passTasks asciiStrings cfg now gm coins)
      with [windowAt "btc" "BTC" 11 319 0; windowAt "btc" "BTC" 11 319 1;
            windowAt "btc" "BTC" 11 319 2; t] by (vm_compute; reflexivity).
    right. right. right. left. }
  split; [exact Hin|].
  exact (@X22_pass_tasks asciiStrings cfg now gm coins t Hin).
Defined.

Section DataProps.
Context `{Float64}.

(** X23. A result of [handleTask] counts as a block with data for the
    backfill only when the task ran to its last return, or when the insert
    failed with an empty error text. A window answered by the fast path, a
    failed fetch and an answer without days all count as empty blocks, and
    none of them is retried by the scheduler. *)
Theorem X23_block_with_data cfg t w :
  let res := (handleTask cfg t w).1 in
  (blockHasData res = true
   ↔ pathOf w cfg t = Completed
     ∨ (pathOf w cfg t = InsertFailed
        ∧ (insertedFor w cfg t).1.2 = Some EmptyString))
  ∧ (pathOf w cfg t ≠ Completed → needsRetry cfg res = false).
Proof.
  intros res. subst res. unfold blockHasData, needsRetry.
  rewrite handleTask_run.
  pose proof (pathOf_has_days w cfg t) as Hdays.
  destruct (pathOf w cfg t) eqn:Hpath; cbn [fst rErr rEmpty rAPIDays rMissingDates].
  - split; [|done]. split; [done|]. intros [?|[? _]]; done.
  - split; [|done]. rewrite andb_false_r. split; [done|]. intros [?|[? _]]; done.
  - split; [|done]. rewrite andb_false_r. split; [done|]. intros [?|[? _]]; done.
  - split; [|done]. specialize (Hdays (or_introl eq_refl)).
    assert ((insertedFor w cfg t).1.2 ≠ None) as Hsome.
    { unfold pathOf in Hpath. repeat case_match; done. }
    destruct ((insertedFor w cfg t).1.2) as [e|]; [|done]. simpl.
    rewrite (proj2 (Z.ltb_lt 0 _)) by lia. rewrite !andb_true_r.
    split.
    + intros He%bool_decide_eq_true. right. by subst e.
    + intros [?|[_ [= ->]]]; [done|]. by apply bool_decide_eq_true.
  - split; [|done]. specialize (Hdays (or_intror eq_refl)). simpl.
    rewrite (proj2 (Z.ltb_lt 0 _)) by lia. split; [by left | done].
Qed.
End DataProps.

Section OnePerCoin.
Context `{GoStrings}.

(** X24. At every point of a round of the backfill the tasks that wait or
    are with a worker belong to different coins, and each of these coins
    has a state that is not done: a round handles one window per coin. *)
Theorem X24_one_window_per_coin cfg round yday getMinDate syms sts act s fl :
  roundReach cfg round yday getMinDate syms sts act (s, fl) →
  NoDup (tCoinID <$> (pending s ++ fl))
  ∧ ∀ t, t ∈ pending s ++ fl →
      ∃ st, states s !! tCoinID t = Some st ∧ Done st = false.
Proof.
  intros [Hnd Hlive]%roundReach_inv. simpl in *. split; [done|].
  by apply Forall_forall.
Qed.
End OnePerCoin.

Lemma X24_witness :
  NoDup (tCoinID <$> (pending exampleRound.1 ++ exampleRound.2))
  ∧ ∀ t, t ∈ pending exampleRound.1 ++ exampleRound.2 →
      ∃ st, states exampleRound.1 !! tCoinID t = Some st ∧ Done st = false.
Proof.
  exact (@X24_one_window_per_coin asciiStrings exampleConfig 0 (day 19884)
           (λ _, (zeroTime, false, None)) {[ "btc" := "BTC" ]} exampleStates ∅
           exampleRound.1 exampleRound.2 example_reach).
Defined.
